(** * AI-pathfinder: response normalisation, local fallback and report naming

    A shallow embedding of the TypeScript sources

    - [src/ai/flows/analyze-student-profile.ts] (two definitions of the
      flow [analyzeStudentProfileFlow], with the helpers [normalize] and
      [fallbackSuggestions]), and
    - the results component ([sanitizeFileName], the file name built by
      [handleDownloadPathPdf]),

    together with the properties of these functions.

    Conventions of the embedding:

    - a JavaScript string is the list of its UTF-16 code units ([jsstring]);
      ASCII literals of the source are written [js "..."];
    - a JavaScript exception is a value of [error]; code that may throw lives
      in the monad [result], [try_catch] is [try { } catch (_) { }];
    - a JavaScript object is the list of its own enumerable string-keyed
      properties in the order [Object.keys] enumerates them; reading a
      property goes through the prototype chain ([obj_get]);
    - a call with spread arguments, [f(...a)], throws a [RangeError] when
      [a] has more elements than the engine takes arguments of one call;
      that bound, [max_spread], is a parameter of [normalize] and of the
      flows, and the properties hold for every bound. *)

From Stdlib Require Import String Ascii List NArith ZArith Bool Lia Arith.
Import ListNotations.

Set Implicit Arguments.

(** ** JavaScript strings *)

Definition code_unit := N.
Definition jsstring := list code_unit.

(** The string of an ASCII literal of the source. *)
Definition js (s : string) : jsstring :=
  map N_of_ascii (list_ascii_of_string s).

Fixpoint jsstring_eqb (a b : jsstring) : bool :=
  match a, b with
  | [], [] => true
  | x :: a', y :: b' => N.eqb x y && jsstring_eqb a' b'
  | _, _ => false
  end.

(** Character classes, on code units. *)
Definition in_range (lo hi c : N) : bool := (lo <=? c)%N && (c <=? hi)%N.
Definition is_digit (c : code_unit) : bool := in_range 48 57 c.
Definition is_upper (c : code_unit) : bool := in_range 65 90 c.
Definition is_lower (c : code_unit) : bool := in_range 97 122 c.
Definition is_alpha (c : code_unit) : bool := is_upper c || is_lower c.

(** ** Exceptions *)

Inductive error : Type :=
| SyntaxError          (* JSON.parse on a text that is not JSON *)
| RangeError           (* the call stack is exhausted *)
| TypeError            (* property of null/undefined, for-of over a non-iterable *)
| URIError             (* encodeURIComponent on a lone surrogate *)
| ModelError (msg : jsstring). (* whatever the model client throws *)

Inductive result (A : Type) : Type :=
| Ret (a : A)
| Raise (e : error).
Arguments Ret {A} a.
Arguments Raise {A} e.

Definition bind {A B} (m : result A) (k : A -> result B) : result B :=
  match m with
  | Ret a => k a
  | Raise e => Raise e
  end.

Definition try_catch {A} (m : result A) (handler : error -> result A) : result A :=
  match m with
  | Ret a => Ret a
  | Raise e => handler e
  end.

Declare Scope js_scope.
Delimit Scope js_scope with js_m.
Notation "x <- m ;; k" := (bind m (fun x => k))
  (at level 61, m at next level, right associativity) : js_scope.
Notation "' pat <- m ;; k" := (bind m (fun x => match x with pat => k end))
  (at level 61, pat pattern, m at next level, right associativity) : js_scope.
Open Scope js_scope.

(** ** JavaScript values that a model response can be *)

(** A number is kept as the exact decimal it denotes,
    [(-1)^neg * digits * 10^exp10], where JavaScript rounds to a double (a
    text such as [1e-400] is zero there and not here); none of the
    functions below reads more of a number than whether it is zero, and
    none of the properties depends on the value of a parsed number. *)
Record number : Type := Number { num_neg : bool; num_digits : N; num_exp10 : Z }.

#[local] Unset Elimination Schemes.
Inductive value : Type :=
| VUndefined
| VNull
| VBool (b : bool)
| VNumber (n : number)
| VString (s : jsstring)
| VArray (elems : list value)
| VObject (props : list (jsstring * value)).
#[local] Set Elimination Schemes.

(** [if (v)], [v && ...] *)
Definition truthy (v : value) : bool :=
  match v with
  | VUndefined | VNull => false
  | VBool b => b
  | VNumber n => negb (N.eqb (num_digits n) 0)
  | VString s => negb (jsstring_eqb s [])
  | VArray _ | VObject _ => true
  end.

(** ** Objects and the prototype chain *)

(** Names that every ordinary object inherits from [Object.prototype]. *)
Definition object_prototype_names : list jsstring :=
  map js [ "constructor"; "__defineGetter__"; "__defineSetter__";
           "hasOwnProperty"; "__lookupGetter__"; "__lookupSetter__";
           "isPrototypeOf"; "propertyIsEnumerable"; "toString"; "valueOf";
           "__proto__"; "toLocaleString" ]%string.

Definition is_inherited (k : jsstring) : bool :=
  existsb (jsstring_eqb k) object_prototype_names.

Fixpoint own_get {A} (props : list (jsstring * A)) (k : jsstring) : option A :=
  match props with
  | [] => None
  | (k', a) :: rest => if jsstring_eqb k k' then Some a else own_get rest k
  end.

(** What [o[k]] evaluates to on an ordinary object with own properties
    [props]: an own property, else a built-in inherited from
    [Object.prototype] (a function, or the prototype itself for
    [__proto__]), else [undefined]. *)
Inductive lookup (A : Type) : Type :=
| Own (a : A)
| Builtin
| Missing.
Arguments Own {A} a.
Arguments Builtin {A}.
Arguments Missing {A}.

Definition obj_get {A} (props : list (jsstring * A)) (k : jsstring) : lookup A :=
  match own_get props k with
  | Some a => Own a
  | None => if is_inherited k then Builtin else Missing
  end.

(** *** Own property order

    [Object.keys] lists the array-index keys first, in ascending numeric
    order, then the other string keys in creation order.  Defining a
    property that exists keeps its place. *)

Definition digits_value (ds : list N) : N :=
  fold_left (fun a d => (10 * a + d)%N) ds 0%N.

(** The index denoted by a key, when the key is a canonical array index:
    a decimal numeral without leading zero, at most 2^32 - 2. *)
Definition array_index (k : jsstring) : option N :=
  match k with
  | [] => None
  | c :: rest =>
      if forallb is_digit k && (negb (N.eqb c 48) || jsstring_eqb rest []) then
        let i := digits_value (map (fun d => (d - 48)%N) k) in
        if (length k <=? 10)%nat && (i <=? 4294967294)%N then Some i else None
      else None
  end.

Fixpoint replace_own {A} (props : list (jsstring * A)) (k : jsstring) (a : A)
  : list (jsstring * A) :=
  match props with
  | [] => []
  | (k', a') :: rest =>
      if jsstring_eqb k k' then (k', a) :: rest
      else (k', a') :: replace_own rest k a
  end.

Fixpoint insert_index {A} (props : list (jsstring * A)) (i : N)
  (k : jsstring) (a : A) : list (jsstring * A) :=
  match props with
  | [] => [(k, a)]
  | (k', a') :: rest =>
      match array_index k' with
      | Some j => if (j <? i)%N then (k', a') :: insert_index rest i k a
                  else (k, a) :: props
      | None => (k, a) :: props
      end
  end.

(** [CreateDataProperty(o, k, a)] on the own properties of [o]. *)
Definition define_property {A} (props : list (jsstring * A)) (k : jsstring) (a : A)
  : list (jsstring * A) :=
  match own_get props k with
  | Some _ => replace_own props k a
  | None =>
      match array_index k with
      | Some i => insert_index props i k a
      | None => props ++ [(k, a)]
      end
  end.

(** ** [JSON.parse] *)

(** The outcome of a parsing step: a result and the rest of the text. *)
Inductive presult (A : Type) : Type :=
| POk (a : A) (rest : jsstring)
| PErr (e : error).
Arguments POk {A} a rest.
Arguments PErr {A} e.

Definition is_ws (c : code_unit) : bool :=
  N.eqb c 9 || N.eqb c 10 || N.eqb c 13 || N.eqb c 32.

Fixpoint skip_ws (s : jsstring) : jsstring :=
  match s with
  | c :: r => if is_ws c then skip_ws r else s
  | [] => []
  end.

Fixpoint strip_prefix (p s : jsstring) : option jsstring :=
  match p, s with
  | [], _ => Some s
  | a :: p', b :: s' => if N.eqb a b then strip_prefix p' s' else None
  | _ :: _, [] => None
  end.

Definition hex_value (c : code_unit) : option N :=
  if is_digit c then Some (c - 48)%N
  else if in_range 65 70 c then Some (c - 55)%N
  else if in_range 97 102 c then Some (c - 87)%N
  else None.

Definition hex4 (a b c d : code_unit) : option code_unit :=
  match hex_value a, hex_value b, hex_value c, hex_value d with
  | Some x, Some y, Some z, Some w => Some (((x * 16 + y) * 16 + z) * 16 + w)%N
  | _, _, _, _ => None
  end.

(** The character an escape letter stands for. *)
Definition simple_escape (e : code_unit) : option code_unit :=
  if N.eqb e 34 then Some 34%N          (* quotation mark *)
  else if N.eqb e 92 then Some 92%N     (* reverse solidus *)
  else if N.eqb e 47 then Some 47%N     (* solidus *)
  else if N.eqb e 98 then Some 8%N      (* b: backspace *)
  else if N.eqb e 102 then Some 12%N    (* f: form feed *)
  else if N.eqb e 110 then Some 10%N    (* n: line feed *)
  else if N.eqb e 114 then Some 13%N    (* r: carriage return *)
  else if N.eqb e 116 then Some 9%N     (* t: tab *)
  else None.

(** The characters of a string literal, from after its opening quote up to
    its closing quote. *)
Fixpoint parse_string_body (s : jsstring) : option (jsstring * jsstring) :=
  match s with
  | [] => None
  | c :: r =>
      if N.eqb c 34 then Some ([], r)
      else if N.eqb c 92 then
        match r with
        | [] => None
        | e :: r1 =>
            if N.eqb e 117 then
              match r1 with
              | h1 :: h2 :: h3 :: h4 :: r2 =>
                  match hex4 h1 h2 h3 h4, parse_string_body r2 with
                  | Some u, Some (str, rest) => Some (u :: str, rest)
                  | _, _ => None
                  end
              | _ => None
              end
            else
              match simple_escape e, parse_string_body r1 with
              | Some u, Some (str, rest) => Some (u :: str, rest)
              | _, _ => None
              end
        end
      else if (c <? 32)%N then None
      else
        match parse_string_body r with
        | Some (str, rest) => Some (c :: str, rest)
        | None => None
        end
  end.

Fixpoint take_digits (s : jsstring) : list N * jsstring :=
  match s with
  | c :: r =>
      if is_digit c then
        let (ds, rest) := take_digits r in ((c - 48)%N :: ds, rest)
      else ([], s)
  | [] => ([], [])
  end.

(** The integer part: a single [0], or a digit [1-9] and any digits. *)
Definition parse_int_part (s : jsstring) : option (list N * jsstring) :=
  match s with
  | c :: r =>
      if N.eqb c 48 then Some ([0%N], r)
      else if is_digit c then Some (take_digits s)
      else None
  | [] => None
  end.

(** An optional fraction: [.] and at least one digit. *)
Definition parse_frac_part (s : jsstring) : option (list N * jsstring) :=
  match s with
  | c :: r =>
      if N.eqb c 46 then
        match take_digits r with
        | ([], _) => None
        | (ds, rest) => Some (ds, rest)
        end
      else Some ([], s)
  | [] => Some ([], [])
  end.

(** An optional sign of the exponent. *)
Definition parse_sign (s : jsstring) : bool * jsstring :=
  match s with
  | d :: r => if N.eqb d 45 then (true, r)
              else if N.eqb d 43 then (false, r)
              else (false, s)
  | [] => (false, [])
  end.

(** An optional exponent: [e] or [E], an optional sign, at least one digit. *)
Definition parse_exp_part (s : jsstring) : option (Z * jsstring) :=
  match s with
  | c :: r =>
      if N.eqb c 101 || N.eqb c 69 then
        let (sign, r1) := parse_sign r in
        match take_digits r1 with
        | ([], _) => None
        | (ds, rest) =>
            let e := Z.of_N (digits_value ds) in
            Some (if sign then (- e)%Z else e, rest)
        end
      else Some (0%Z, s)
  | [] => Some (0%Z, [])
  end.

(** An optional minus sign. *)
Definition parse_minus (s : jsstring) : bool * jsstring :=
  match s with
  | c :: r => if N.eqb c 45 then (true, r) else (false, s)
  | [] => (false, [])
  end.

Definition parse_number (s : jsstring) : option (number * jsstring) :=
  let (neg, s1) := parse_minus s in
  match parse_int_part s1 with
  | None => None
  | Some (ids, s2) =>
      match parse_frac_part s2 with
      | None => None
      | Some (fds, s3) =>
          match parse_exp_part s3 with
          | None => None
          | Some (e, s4) =>
              Some (Number neg (digits_value (ids ++ fds))
                           (e - Z.of_nat (length fds)), s4)
          end
      end
  end.

Definition parse_literal (s : jsstring) : presult value :=
  match strip_prefix (js "true") s with
  | Some r => POk (VBool true) r
  | None =>
      match strip_prefix (js "false") s with
      | Some r => POk (VBool false) r
      | None =>
          match strip_prefix (js "null") s with
          | Some r => POk VNull r
          | None => PErr SyntaxError
          end
      end
  end.

(** The recursive descent.  [fuel] bounds the depth of the calls; running
    out of it is the exhaustion of the call stack.  [parse_elements] reads
    the elements of an array after its [[] and [parse_members] the members
    of an object after its [{]; each has what was read so far. *)
Fixpoint parse_value (fuel : nat) (s : jsstring) : presult value :=
  match fuel with
  | O => PErr RangeError
  | S fuel' =>
      match skip_ws s with
      | [] => PErr SyntaxError
      | c :: r =>
          if N.eqb c 91 then
            match skip_ws r with
            | d :: r' => if N.eqb d 93 then POk (VArray []) r'
                         else parse_elements fuel' r []
            | [] => PErr SyntaxError
            end
          else if N.eqb c 123 then
            match skip_ws r with
            | d :: r' => if N.eqb d 125 then POk (VObject []) r'
                         else parse_members fuel' r []
            | [] => PErr SyntaxError
            end
          else if N.eqb c 34 then
            match parse_string_body r with
            | Some (str, rest) => POk (VString str) rest
            | None => PErr SyntaxError
            end
          else if N.eqb c 45 || is_digit c then
            match parse_number (c :: r) with
            | Some (n, rest) => POk (VNumber n) rest
            | None => PErr SyntaxError
            end
          else parse_literal (c :: r)
      end
  end

with parse_elements (fuel : nat) (s : jsstring) (acc : list value)
  : presult value :=
  match fuel with
  | O => PErr RangeError
  | S fuel' =>
      match parse_value fuel' s with
      | PErr e => PErr e
      | POk v rest =>
          match skip_ws rest with
          | c :: r =>
              if N.eqb c 44 then parse_elements fuel' r (acc ++ [v])
              else if N.eqb c 93 then POk (VArray (acc ++ [v])) r
              else PErr SyntaxError
          | [] => PErr SyntaxError
          end
      end
  end

with parse_members (fuel : nat) (s : jsstring) (acc : list (jsstring * value))
  : presult value :=
  match fuel with
  | O => PErr RangeError
  | S fuel' =>
      match skip_ws s with
      | c :: r =>
          if N.eqb c 34 then
            match parse_string_body r with
            | None => PErr SyntaxError
            | Some (key, r1) =>
                match skip_ws r1 with
                | c2 :: r2 =>
                    if N.eqb c2 58 then
                      match parse_value fuel' r2 with
                      | PErr e => PErr e
                      | POk v rest =>
                          match skip_ws rest with
                          | c3 :: r3 =>
                              if N.eqb c3 44 then
                                parse_members fuel' r3 (define_property acc key v)
                              else if N.eqb c3 125 then
                                POk (VObject (define_property acc key v)) r3
                              else PErr SyntaxError
                          | [] => PErr SyntaxError
                          end
                      end
                    else PErr SyntaxError
                | [] => PErr SyntaxError
                end
            end
          else PErr SyntaxError
      | [] => PErr SyntaxError
      end
  end.

(** [JSON.parse(text)]: one value, white space around it, nothing else. *)
Definition JSON_parse (text : jsstring) : result value :=
  match parse_value (2 * length text + 1) text with
  | PErr e => Raise e
  | POk v rest =>
      match skip_ws rest with
      | [] => Ret v
      | _ :: _ => Raise SyntaxError
      end
  end.

(** A JSON text written with apostrophes where it has quotation marks. *)
Definition json_text (s : string) : jsstring :=
  map (fun c => if N.eqb c 39 then 34%N else c) (js s).


(** ** [normalize] (analyze-student-profile.ts, the helper of both flows) *)

(** [Array.isArray(v)], with the elements of the array. *)
Definition as_array (v : value) : option (list value) :=
  match v with
  | VArray es => Some es
  | _ => None
  end.

(** [Array.isArray] of the outcome of a property read. *)
Definition lookup_array (p : lookup value) : option (list value) :=
  match p with
  | Own v => as_array v
  | Builtin | Missing => None
  end.

(** [data.k], for a name [k] that is neither an index, nor [length], nor
    defined by the prototype of arrays, strings, numbers or booleans (the
    two names [normalize] reads are such): on [null] and [undefined] the
    read throws, an object answers through its prototype chain, any other
    value has no such property. *)
Definition get_property (data : value) (k : jsstring) : result (lookup value) :=
  match data with
  | VUndefined | VNull => Raise TypeError
  | VObject props => Ret (obj_get props k)
  | VBool _ | VNumber _ | VString _ | VArray _ => Ret Missing
  end.

(** [typeof data === 'object'] *)
Definition typeof_object (data : value) : bool :=
  match data with
  | VNull | VArray _ | VObject _ => true
  | _ => false
  end.

(** [Object.keys(data)] of an object. *)
Definition object_keys (props : list (jsstring * value)) : list jsstring :=
  map fst props.

(** [data && Array.isArray(data.k)]: the array, when the test holds. *)
Definition guarded_array (data : value) (k : jsstring) : result (option (list value)) :=
  if truthy data then
    p <- get_property data k ;;
    Ret (lookup_array p)
  else Ret None.

(** [arrays.push(...val)]: the elements of [val] become the arguments of
    one call of [push].  An engine bounds the number of arguments of a call
    (by the room left on its stack) and throws a [RangeError] when a spread
    has more; [max_spread] is that bound where [normalize] runs. *)
Definition push_spread (max_spread : nat) (arrays val : list value)
  : result (list value) :=
  if (length val <=? max_spread)%nat then Ret (arrays ++ val) else Raise RangeError.

(** The loop over [Object.keys(data)] that pushes the elements of every
    array-valued property onto [arrays]. *)
Fixpoint collect_from (max_spread : nat) (props : list (jsstring * value))
  (keys : list jsstring) (arrays : list value) : result (list value) :=
  match keys with
  | [] => Ret arrays
  | key :: rest =>
      match lookup_array (obj_get props key) with
      | Some val =>
          arrays' <- push_spread max_spread arrays val ;;
          collect_from max_spread props rest arrays'
      | None => collect_from max_spread props rest arrays
      end
  end.

Definition collect_arrays (max_spread : nat) (props : list (jsstring * value))
  : result (list value) :=
  collect_from max_spread props (object_keys props) [].

Definition normalize (max_spread : nat) (out : value) : result (list value) :=
  (* let data = out; try { if (typeof data === 'string') data = JSON.parse(data) } catch (_) {} *)
  data <- try_catch
            (match out with
             | VString s => JSON_parse s
             | _ => Ret out
             end)
            (fun _ => Ret out) ;;
  match as_array data with
  | Some es => Ret es
  | None =>
      a1 <- guarded_array data (js "suggestedCareerPaths") ;;
      match a1 with
      | Some es => Ret es
      | None =>
          a2 <- guarded_array data (js "careerPaths") ;;
          match a2 with
          | Some es => Ret es
          | None =>
              if truthy data && typeof_object data then
                match data with
                | VObject props =>
                    arrays <- collect_arrays max_spread props ;;
                    if (0 <? length arrays)%nat then Ret arrays else Ret []
                | _ => Ret []
                end
              else Ret []
          end
      end
  end.


(** ** [encodeURIComponent] *)

(** The characters left as they are: letters, digits and [-_.!~*'()]. *)
Definition uri_unreserved (c : code_unit) : bool :=
  is_alpha c || is_digit c ||
  existsb (N.eqb c) [45; 95; 46; 33; 126; 42; 39; 40; 41]%N.

Definition is_lead_surrogate (c : code_unit) : bool := in_range 55296 56319 c.
Definition is_trail_surrogate (c : code_unit) : bool := in_range 56320 57343 c.

(** The UTF-8 octets of a code point. *)
Definition utf8 (cp : N) : list N :=
  if (cp <? 128)%N then [cp]
  else if (cp <? 2048)%N then
    [192 + cp / 64; 128 + cp mod 64]%N
  else if (cp <? 65536)%N then
    [224 + cp / 4096; 128 + (cp / 64) mod 64; 128 + cp mod 64]%N
  else
    [240 + cp / 262144; 128 + (cp / 4096) mod 64;
     128 + (cp / 64) mod 64; 128 + cp mod 64]%N.

Definition hex_digit (d : N) : code_unit :=
  if (d <? 10)%N then (48 + d)%N else (55 + d)%N.

(** [%XX] for every octet. *)
Definition percent (octets : list N) : jsstring :=
  flat_map (fun o => [37%N; hex_digit (o / 16); hex_digit (o mod 16)]) octets.

Fixpoint encodeURIComponent (s : jsstring) : result jsstring :=
  match s with
  | [] => Ret []
  | c :: r =>
      if uri_unreserved c then
        rest <- encodeURIComponent r ;; Ret (c :: rest)
      else if is_trail_surrogate c then Raise URIError
      else if is_lead_surrogate c then
        match r with
        | d :: r' =>
            if is_trail_surrogate d then
              let cp := ((c - 55296) * 1024 + (d - 56320) + 65536)%N in
              rest <- encodeURIComponent r' ;; Ret (percent (utf8 cp) ++ rest)
            else Raise URIError
        | [] => Raise URIError
        end
      else
        rest <- encodeURIComponent r ;; Ret (percent (utf8 c) ++ rest)
  end.

(** ** The career-path records *)

Inductive Level : Type := Beginner | Intermediate | Advanced.

Record Course : Type := { course_title : jsstring; course_link : jsstring }.

Record SkillGap : Type :=
  { skill : jsstring; yourLevel : Level; recommendedCourses : list Course }.

Record ProjectSuggestion : Type :=
  { project_title : jsstring; project_description : jsstring;
    project_link : jsstring }.

Record Milestone : Type := { milestone_title : jsstring; steps : list jsstring }.

Record CareerPath : Type :=
  { careerPath : jsstring;
    requiredSkills : list jsstring;
    missingSkills : list jsstring;
    weakSkills : list jsstring;
    projectSuggestions : list ProjectSuggestion;
    roadmap : list Milestone;
    tags : list jsstring;
    skillGapReport : list SkillGap }.

(** ** [fallbackSuggestions] (first definition of the flow) *)

Record CatalogItem : Type :=
  { item_careerPath : jsstring; item_requiredSkills : list jsstring }.

Definition item (name : string) (skills : list string) : CatalogItem :=
  {| item_careerPath := js name; item_requiredSkills := map js skills |}.

(** The own properties of the object literal [catalog]. *)
Definition catalog : list (jsstring * list CatalogItem) :=
  [ (js "Artificial Intelligence",
     [ item "Machine Learning Engineer"
         ["Python"; "Machine Learning"; "TensorFlow"; "PyTorch"; "Data Structures"; "Statistics"];
       item "AI Researcher"
         ["Python"; "Deep Learning"; "NLP"; "Research Methods"; "Mathematics"] ]);
    (js "Web Development",
     [ item "Frontend Developer" ["HTML"; "CSS"; "JavaScript"; "React"; "TypeScript"];
       item "Full-Stack Developer" ["Node.js"; "Express"; "React"; "Databases"; "REST APIs"] ]);
    (js "UI/UX Design",
     [ item "UI/UX Designer"
         ["Figma"; "Wireframing"; "Prototyping"; "Design Systems"; "User Research"];
       item "Product Designer"
         ["Interaction Design"; "Visual Design"; "Usability Testing"; "Figma"] ]);
    (js "Data Science",
     [ item "Data Scientist" ["Python"; "Pandas"; "Machine Learning"; "Statistics"; "SQL"];
       item "Data Analyst" ["SQL"; "Excel"; "Tableau/PowerBI"; "Python"; "Data Cleaning"] ]);
    (js "Cybersecurity",
     [ item "Security Analyst"
         ["Network Security"; "SIEM"; "Incident Response"; "Linux"; "Scripting"];
       item "Penetration Tester" ["Linux"; "Networking"; "Burp Suite"; "OWASP"; "Scripting"] ]);
    (js "Mobile App Development",
     [ item "Android Developer" ["Kotlin"; "Android SDK"; "Jetpack"; "REST APIs"];
       item "Flutter Developer" ["Dart"; "Flutter"; "State Management"; "REST APIs"] ]);
    (js "Cloud Computing",
     [ item "Cloud Engineer" ["AWS/Azure/GCP"; "Linux"; "Terraform"; "Networking"; "Containers"];
       item "DevOps Engineer" ["CI/CD"; "Docker"; "Kubernetes"; "Monitoring"; "Scripting"] ]);
    (js "Game Development",
     [ item "Game Developer" ["Unity/Unreal"; "C# or C++"; "Game Physics"; "3D Math"];
       item "Technical Artist" ["Shaders"; "3D Pipelines"; "Scripting"; "Rendering"] ]) ]%string.

(** [new Set<string>()], [has] and [add]. *)
Definition StringSet := list jsstring.
Definition set_has (seen : StringSet) (k : jsstring) : bool :=
  existsb (jsstring_eqb k) seen.
Definition set_add (seen : StringSet) (k : jsstring) : StringSet :=
  if set_has seen k then seen else seen ++ [k].

(** [xs.map(f)] for a callback that may throw. *)
Fixpoint map_result {A B} (f : A -> result B) (xs : list A) : result (list B) :=
  match xs with
  | [] => Ret []
  | x :: xs' => y <- f x ;; ys <- map_result f xs' ;; Ret (y :: ys)
  end.

(** [for (const x of xs) body], with the state the body updates. *)
Fixpoint for_of {A S} (xs : list A) (body : S -> A -> result S) (st : S) : result S :=
  match xs with
  | [] => Ret st
  | x :: xs' => st' <- body st x ;; for_of xs' body st'
  end.

(** The callback of [.map] that builds one entry of the skill-gap report. *)
Definition gap_entry (s : jsstring) : result SkillGap :=
  youtube <- encodeURIComponent (s ++ js " tutorial") ;;
  coursera <- encodeURIComponent s ;;
  Ret {| skill := s;
         yourLevel := Beginner;
         recommendedCourses :=
           [ {| course_title := s ++ js " Crash Course (YouTube)";
                course_link := js "https://www.youtube.com/results?search_query=" ++ youtube |};
             {| course_title := s ++ js " Specialization (Coursera)";
                course_link := js "https://www.coursera.org/search?query=" ++ coursera |} ] |}.

Definition fixed_roadmap : list Milestone :=
  [ {| milestone_title := js "Foundations";
       steps := [js "Learn fundamentals"; js "Build mini-projects"] |};
    {| milestone_title := js "Intermediate";
       steps := [js "Take a specialization"; js "Build a capstone"] |};
    {| milestone_title := js "Advanced";
       steps := [js "Contribute to open source"; js "Apply for internships"] |} ].

(** The state of the two loops: the set [seen] and the array [paths]. *)
Definition loop_state : Type := (StringSet * list CareerPath)%type.

(** The body of the inner loop, for one [item] of the [interest]. *)
Definition visit_item (interest : jsstring) (st : loop_state) (it : CatalogItem)
  : result loop_state :=
  let (seen, paths) := st in
  if set_has seen (item_careerPath it) then Ret st
  else
    let seen' := set_add seen (item_careerPath it) in
    let rs := item_requiredSkills it in
    gap <- map_result gap_entry (firstn (Nat.min 3 (length rs)) rs) ;;
    Ret (seen',
         paths ++
         [ {| careerPath := item_careerPath it;
              requiredSkills := rs;
              missingSkills := rs;
              weakSkills := map skill gap;
              projectSuggestions :=
                [ {| project_title := item_careerPath it ++ js " Portfolio Project";
                     project_description :=
                       js "Build and deploy a production-ready project demonstrating core skills.";
                     project_link := js "https://roadmap.sh" |} ];
              roadmap := fixed_roadmap;
              tags := [interest];
              skillGapReport := gap |} ]).

(** The body of the outer loop: [const items = catalog[interest] || []] and
    the loop over [items].  A built-in inherited from [Object.prototype] is
    truthy and not iterable. *)
Definition visit_interest (st : loop_state) (interest : jsstring) : result loop_state :=
  match obj_get catalog interest with
  | Own items => for_of items (visit_item interest) st
  | Builtin => Raise TypeError
  | Missing => for_of [] (visit_item interest) st
  end.

Definition generic_path : CareerPath :=
  {| careerPath := js "Generalist Software Engineer";
     requiredSkills := [js "Problem Solving"; js "Git"; js "JavaScript/TypeScript"];
     missingSkills := [js "Testing"];
     weakSkills := [js "System Design"];
     projectSuggestions := [];
     roadmap := [];
     tags := [];
     skillGapReport := [] |}.

Definition fallbackSuggestions (interests : list jsstring) : result (list CareerPath) :=
  '(_, paths) <- for_of interests visit_interest ([], []) ;;
  Ret (if (0 <? length paths)%nat then paths else [generic_path]).


(** ** The two definitions of [analyzeStudentProfileFlow] *)

Record AcademicDetails : Type :=
  { tenthPercentage : number;
    twelfthPercentage : option number;
    diplomaUgPercentage : option number }.

Record AnalyzeStudentProfileInput : Type :=
  { resumeDataUri : jsstring;
    academicDetails : AcademicDetails;
    interests : list jsstring }.

(** [suggestedCareerPaths: any]: what [normalize] extracted from the model
    output, or the records of [fallbackSuggestions]. *)
Inductive CareerPaths : Type :=
| ModelPaths (paths : list value)
| LocalPaths (paths : list CareerPath).

Record ResumeInsights : Type := { pros : list jsstring; cons : list jsstring }.

Record AnalyzeStudentProfileOutput : Type :=
  { suggestedCareerPaths : CareerPaths;
    resumeInsights : option ResumeInsights }.

(** A run of a flow: what it wrote with [console.error], and how it ended. *)
Record run (A : Type) : Type := { console : list error; outcome : result A }.
Arguments console {A} r.
Arguments outcome {A} r.

Section Flows.

(** The bound of the engine on the arguments of a spread call. *)
Variable max_spread : nat.


(** The model client: [(await analyzeProfilePrompt(input)).output], or
    the exception of the call. *)
Variable analyzeProfilePrompt : AnalyzeStudentProfileInput -> result value.


Definition empty_output_insights : ResumeInsights :=
  {| pros := [js "Basic profile analyzed"];
     cons := [js "AI output empty; used fallback"] |}.

Definition unavailable_insights : ResumeInsights :=
  {| pros := [js "Generated locally using interest-based defaults"];
     cons := [js "Live AI service unavailable; results may be generic"] |}.

(** The flow of the first definition (with the local fallback). *)
Definition analyzeStudentProfileFlow (input : AnalyzeStudentProfileInput)
  : run AnalyzeStudentProfileOutput :=
  match
    output <- analyzeProfilePrompt input ;;
    normalized <- normalize max_spread output ;;
    if (length normalized =? 0)%nat then
      paths <- fallbackSuggestions (interests input) ;;
      Ret {| suggestedCareerPaths := LocalPaths paths;
             resumeInsights := Some empty_output_insights |}
    else
      Ret {| suggestedCareerPaths := ModelPaths normalized;
             resumeInsights := None |}
  with
  | Ret r => {| console := []; outcome := Ret r |}
  | Raise err =>
      (* console.error('AI call failed, using fallback:', err) *)
      {| console := [err];
         outcome :=
           paths <- fallbackSuggestions (interests input) ;;
           Ret {| suggestedCareerPaths := LocalPaths paths;
                  resumeInsights := Some unavailable_insights |} |}
  end.

(** The flow of the second definition (no [try], no fallback). *)
Definition analyzeStudentProfileFlow_plain (input : AnalyzeStudentProfileInput)
  : run AnalyzeStudentProfileOutput :=
  {| console := [];
     outcome :=
       output <- analyzeProfilePrompt input ;;
       normalized <- normalize max_spread output ;;
       Ret {| suggestedCareerPaths := ModelPaths normalized;
              resumeInsights := None |} |}.

End Flows.

(** ** The results component: the name of the exported PDF *)

(** The class [[a-z0-9\-]] under the flag [i] (without the flag [u] a
    character outside ASCII never matches an ASCII letter). *)
Definition file_name_char (c : code_unit) : bool :=
  is_alpha c || is_digit c || N.eqb c 45.

(** [name.replace(/[^a-z0-9\-]+/gi, "_")]: at a character outside the class
    a match starts, it extends over all the characters outside the class that
    follow, and one underscore stands for it. *)
Fixpoint replace_runs (s : jsstring) : jsstring :=
  match s with
  | [] => []
  | c :: r =>
      if file_name_char c then c :: replace_runs r
      else
        95%N ::
        (fix skip (t : jsstring) : jsstring :=
           match t with
           | [] => []
           | d :: t' =>
               if file_name_char d then d :: replace_runs t' else skip t'
           end) r
  end.

Definition sanitizeFileName (name : jsstring) : jsstring :=
  firstn 100 (replace_runs name).

(** What [handleDownloadPathPdf] reads of its argument [path: any]. *)
Record PathNames : Type :=
  { path_careerPath : option jsstring; path_name : option jsstring }.

(** [a || b] for a string property that may be missing. *)
Definition or_else (a : option jsstring) (b : jsstring) : jsstring :=
  match a with
  | Some s => if jsstring_eqb s [] then b else s
  | None => b
  end.

(** [path.careerPath || path.name || 'Career_Path'] *)
Definition export_name (path : PathNames) : jsstring :=
  or_else (path_careerPath path) (or_else (path_name path) (js "Career_Path")).

Definition pdf_file_name (path : PathNames) : jsstring :=
  js "PathFinderAI_" ++ sanitizeFileName (export_name path) ++ js "_Report.pdf".


(** ** The results component: [handleDownloadPathPdf] *)

(** What an expression of the component evaluates to: a value of the
    result, or a built-in function (read from a prototype), known by the
    name it was read under. *)
Inductive rvalue : Type :=
| RVal (v : value)
| RFun (name : jsstring).

Definition truthy_r (x : rvalue) : bool :=
  match x with
  | RVal v => truthy v
  | RFun _ => true
  end.

(** [a || b] *)
Definition or_r (a b : rvalue) : rvalue := if truthy_r a then a else b.

(** [v.k], for the property names that the component reads ([careerPath],
    [name], [requiredSkills], [skills], [missingSkills], [weakSkills],
    [skillGapReport], [projectSuggestions], [roadmap], [skill],
    [yourLevel], [recommendedCourses], [title], [description], [link],
    [steps]).  None of them is an index or [length], and of the prototypes
    of strings, numbers, booleans, arrays and objects only that of strings
    defines one of them, the method [link]. *)
Definition get (v : value) (k : jsstring) : result rvalue :=
  match v with
  | VUndefined | VNull => Raise TypeError
  | VObject props =>
      Ret (match obj_get props k with
           | Own a => RVal a
           | Builtin => RFun k
           | Missing => RVal VUndefined
           end)
  | VString _ => Ret (if jsstring_eqb k (js "link") then RFun k else RVal VUndefined)
  | VBool _ | VNumber _ | VArray _ => Ret (RVal VUndefined)
  end.

(** [v?.k] *)
Definition get_opt (v : value) (k : jsstring) : result rvalue :=
  match v with
  | VUndefined | VNull => Ret (RVal VUndefined)
  | _ => get v k
  end.

(** [Array.isArray(x) ? x : []] *)
Definition array_or_empty (x : rvalue) : list value :=
  match x with
  | RVal (VArray es) => es
  | _ => []
  end.

Definition is_array_r (x : rvalue) : bool :=
  match x with
  | RVal (VArray _) => true
  | _ => false
  end.

(** The operations on the jsPDF document, in the order of the calls. *)
Inductive pdf_op : Type :=
| SetFontSize (size : Z)
| TextString (text : jsstring) (x y : Z)
| TextLines (lines : list jsstring) (x y : Z)
| AddPage
| Save (fileName : jsstring).

Inductive Toast : Type :=
| PdfDownloaded     (* toast({ title: 'PDF downloaded', ... }) *)
| PdfFailed.        (* toast({ title: 'PDF generation failed', ... }) *)

(** The state that [handleDownloadPathPdf] works on: its argument [path]
    (whose arrays it may push to), the document and the cursor [y]. *)
Record pdf_state : Type :=
  { st_path : value; st_doc : list pdf_op; st_y : Z }.

(** Code that reads and writes the state and may throw; the state that an
    exception leaves behind stays. *)
Definition pdf (A : Type) : Type := pdf_state -> pdf_state * result A.

Definition pdf_ret {A} (a : A) : pdf A := fun st => (st, Ret a).

Definition pdf_bind {A B} (m : pdf A) (k : A -> pdf B) : pdf B :=
  fun st =>
    match m st with
    | (st', Ret a) => k a st'
    | (st', Raise e) => (st', Raise e)
    end.

(** An expression that may throw and touches no state. *)
Definition pdf_lift {A} (r : result A) : pdf A := fun st => (st, r).

Declare Scope pdf_scope.
Delimit Scope pdf_scope with pdf.
Notation "x <~ m ;; k" := (pdf_bind m (fun x => k))
  (at level 61, m at next level, right associativity) : pdf_scope.
Notation "m ;;; k" := (pdf_bind m (fun _ => k))
  (at level 61, right associativity) : pdf_scope.

(** [for (const x of xs) body] in this monad. *)
Fixpoint pdf_for {A} (xs : list A) (body : A -> pdf unit) : pdf unit :=
  match xs with
  | [] => pdf_ret tt
  | x :: xs' => pdf_bind (body x) (fun _ => pdf_for xs' body)
  end.

Definition call (op : pdf_op) : pdf unit :=
  fun st => ({| st_path := st_path st; st_doc := st_doc st ++ [op]; st_y := st_y st |},
             Ret tt).

Definition get_y : pdf Z := fun st => (st, Ret (st_y st)).

Definition set_y (y : Z) : pdf unit :=
  fun st => ({| st_path := st_path st; st_doc := st_doc st; st_y := y |}, Ret tt).

Definition read_path : pdf value := fun st => (st, Ret (st_path st)).

(** [path.k] *)
Definition path_get (k : jsstring) : pdf rvalue :=
  fun st => (st, get (st_path st) k).

(** The array [path.k] after [xs.push(...)] on it, when [path.k] is the
    array [xs] was taken from; a fresh array is not part of [path]. *)
Definition path_put_array (k : jsstring) (xs : list value) : pdf unit :=
  fun st =>
    ({| st_path :=
          match st_path st with
          | VObject props =>
              match own_get props k with
              | Some (VArray _) => VObject (replace_own props k (VArray xs))
              | _ => st_path st
              end
          | other => other
          end;
        st_doc := st_doc st;
        st_y := st_y st |},
     Ret tt).

(** The bullet of the lists, U+2022, and a space. *)
Definition bullet : jsstring := [8226; 32]%N.

Section ResultsComponent.

(** [String.prototype.toLowerCase] *)
Variable toLowerCase : jsstring -> jsstring.
(** [Number::toString], the decimal text of a number *)
Variable number_to_string : number -> jsstring.
(** The source text of a built-in function, [Function.prototype.toString] *)
Variable function_to_string : jsstring -> jsstring.
(** [doc.splitTextToSize(text, maxWidth)] of jsPDF *)
Variable splitTextToSize : jsstring -> Z -> list jsstring.
(** How [await import('jspdf')] ends *)
Variable import_jspdf : result unit.

(** [ToString(v)], as a template literal applies it.  An object that has a
    key [toString] of its own cannot be converted (the value of the key is
    no function). *)
Fixpoint value_to_string (v : value) : result jsstring :=
  match v with
  | VUndefined => Ret (js "undefined")
  | VNull => Ret (js "null")
  | VBool b => Ret (if b then js "true" else js "false")
  | VNumber n => Ret (number_to_string n)
  | VString s => Ret s
  | VArray es =>
      (fix join (es : list value) : result jsstring :=
         match es with
         | [] => Ret []
         | e :: rest =>
             s <- match e with
                  | VUndefined | VNull => Ret []
                  | _ => value_to_string e
                  end ;;
             match rest with
             | [] => Ret s
             | _ :: _ => r <- join rest ;; Ret (s ++ 44%N :: r)
             end
         end) es
  | VObject props =>
      match own_get props (js "toString") with
      | Some _ => Raise TypeError
      | None => Ret (js "[object Object]")
      end
  end.

Definition to_string (x : rvalue) : result jsstring :=
  match x with
  | RVal v => value_to_string v
  | RFun name => Ret (function_to_string name)
  end.

(** [sanitizeFileName(x)] on what [path.careerPath || path.name ||
    'Career_Path'] evaluates to: only a string has the method [replace]. *)
Definition sanitize_any (x : rvalue) : result jsstring :=
  match x with
  | RVal (VString s) => Ret (sanitizeFileName s)
  | _ => Raise TypeError
  end.

(** [x.toLowerCase() === 'beginner'] on what [gap?.yourLevel || '']
    evaluates to: only a string has the method. *)
Definition lower_is_beginner (x : rvalue) : result bool :=
  match x with
  | RVal (VString s) => Ret (jsstring_eqb (toLowerCase s) (js "beginner"))
  | _ => Raise TypeError
  end.

Local Open Scope pdf_scope.

(** [const lines = doc.splitTextToSize(text, 180);
     if (y + lines.length * 7 > 280) { doc.addPage(); y = 20; }
     doc.text(lines, 14, y); y += lines.length * 7;] *)
Definition write_lines (text : result jsstring) : pdf unit :=
  t <~ pdf_lift text ;;
  let lines := splitTextToSize t 180 in
  let height := (Z.of_nat (length lines) * 7)%Z in
  y <~ get_y ;;
  (if (280 <? y + height)%Z then call AddPage ;;; set_y 20 else pdf_ret tt) ;;;
  y <~ get_y ;;
  call (TextLines lines 14 y) ;;;
  set_y (y + height).

(** [if (y + 14 > 280) { doc.addPage(); y = 20; }
     doc.setFontSize(13); doc.text(title, 14, y); doc.setFontSize(12); y += 8;] *)
Definition write_heading (title : jsstring) : pdf unit :=
  y <~ get_y ;;
  (if (280 <? y + 14)%Z then call AddPage ;;; set_y 20 else pdf_ret tt) ;;;
  y <~ get_y ;;
  call (SetFontSize 13) ;;;
  call (TextString title 14 y) ;;;
  call (SetFontSize 12) ;;;
  set_y (y + 8).

(** [`${prefix}${x}`] *)
Definition prefixed (prefix : jsstring) (x : rvalue) : result jsstring :=
  (s <- to_string x ;; Ret (prefix ++ s))%js_m.

(** The value that a read of a property that names no built-in gives. *)
Definition plain (x : rvalue) : value :=
  match x with
  | RVal v => v
  | RFun _ => VUndefined
  end.

(** A loop that pushes onto an array: what it pushed, and how it ended. *)
Definition pushes : Type := (list value * result unit)%type.

(** [for (const gap of path.skillGapReport) { if (gap?.skill) skills.push(gap.skill); }] *)
Fixpoint push_gap_skills (gaps : list value) : pushes :=
  match gaps with
  | [] => ([], Ret tt)
  | gap :: rest =>
      match get_opt gap (js "skill") with
      | Raise e => ([], Raise e)
      | Ret sk =>
          let (more, r) := push_gap_skills rest in
          (if truthy_r sk then plain sk :: more else more, r)
      end
  end.

(** [for (const gap of path.skillGapReport) {
       if ((gap?.yourLevel || '').toLowerCase() === 'beginner' && gap?.skill)
         weak.push(gap.skill); }] *)
Fixpoint push_beginner_skills (gaps : list value) : pushes :=
  match gaps with
  | [] => ([], Ret tt)
  | gap :: rest =>
      match
        (lv <- get_opt gap (js "yourLevel") ;;
         beginner <- lower_is_beginner (or_r lv (RVal (VString []))) ;;
         if beginner then
           sk <- get_opt gap (js "skill") ;;
           Ret (if truthy_r sk then [plain sk] else [])
         else Ret [])%js_m
      with
      | Raise e => ([], Raise e)
      | Ret pushed =>
          let (more, r) := push_beginner_skills rest in
          (pushed ++ more, r)
      end
  end.

(** [xs] is [Array.isArray(path.k) ? path.k : []], read before as [own]:
    when it is empty and [path.skillGapReport] is an array, [loop] pushes
    onto it.  What the loop pushed onto an array of [path] stays there also
    when the loop throws. *)
Definition fill_when_empty (k : jsstring) (own : rvalue)
  (loop : list value -> pushes) : pdf (list value) :=
  let xs := array_or_empty own in
  report <~ path_get (js "skillGapReport") ;;
  if (length xs =? 0)%nat && is_array_r report then
    let (pushed, r) := loop (array_or_empty report) in
    (if is_array_r own then path_put_array k (xs ++ pushed) else pdf_ret tt) ;;;
    pdf_lift r ;;;
    pdf_ret (xs ++ pushed)
  else pdf_ret xs.

Definition bulleted (items : list value) : pdf unit :=
  pdf_for items (fun s => write_lines (prefixed bullet (RVal s))).

(** The title and the first font sizes. *)
Definition write_title : pdf unit :=
  careerPath <~ path_get (js "careerPath") ;;
  name <~ path_get (js "name") ;;
  title <~ pdf_lift
             (prefixed [] (or_r careerPath (or_r name (RVal (VString (js "Career Path"))))))%js_m ;;
  call (SetFontSize 16) ;;;
  call (TextString (title ++ js " - Career Report") 14 20) ;;;
  call (SetFontSize 12) ;;;
  set_y 30.

Definition required_skills_section : pdf unit :=
  own <~ path_get (js "requiredSkills") ;;
  y <~ get_y ;;
  call (TextString (js "Required Skills:") 14 y) ;;;
  set_y (y + 8) ;;;
  skills <~ fill_when_empty (js "requiredSkills") own push_gap_skills ;;
  if (length skills =? 0)%nat then
    y <~ get_y ;;
    call (TextString (bullet ++ js "N/A") 14 y) ;;;
    set_y (y + 8)
  else bulleted skills.

Definition missing_skills_section : pdf unit :=
  own <~ path_get (js "missingSkills") ;;
  let missing := array_or_empty own in
  (if (0 <? length missing)%nat then write_heading (js "Missing Skills")
   else pdf_ret tt) ;;;
  bulleted missing.

Definition weak_skills_section : pdf unit :=
  own <~ path_get (js "weakSkills") ;;
  weak <~ fill_when_empty (js "weakSkills") own push_beginner_skills ;;
  (if (0 <? length weak)%nat then write_heading (js "Weak Skills")
   else pdf_ret tt) ;;;
  bulleted weak.

(** [`• ${gap.skill || 'Skill'} (${gap.yourLevel || 'N/A'})`] *)
Definition gap_header (gap : value) : result jsstring :=
  (sk <- get gap (js "skill") ;;
   a <- to_string (or_r sk (RVal (VString (js "Skill")))) ;;
   lv <- get gap (js "yourLevel") ;;
   b <- to_string (or_r lv (RVal (VString (js "N/A")))) ;;
   Ret (bullet ++ a ++ js " (" ++ b ++ js ")"))%js_m.

(** [`   - ${c?.title || 'Course'}: ${c?.link || ''}`] *)
Definition course_line (c : value) : result jsstring :=
  (t <- get_opt c (js "title") ;;
   a <- to_string (or_r t (RVal (VString (js "Course")))) ;;
   l <- get_opt c (js "link") ;;
   b <- to_string (or_r l (RVal (VString []))) ;;
   Ret (js "   - " ++ a ++ js ": " ++ b))%js_m.

Definition courses_section : pdf unit :=
  report <~ path_get (js "skillGapReport") ;;
  let gaps := array_or_empty report in
  if is_array_r report && (0 <? length gaps)%nat then
    write_heading (js "Recommended Courses") ;;;
    pdf_for gaps
      (fun gap =>
         write_lines (gap_header gap) ;;;
         courses <~ pdf_lift (get gap (js "recommendedCourses")) ;;
         if is_array_r courses then
           pdf_for (array_or_empty courses) (fun c => write_lines (course_line c))
         else pdf_ret tt)
  else pdf_ret tt.

Definition projects_section : pdf unit :=
  own <~ path_get (js "projectSuggestions") ;;
  let projects := array_or_empty own in
  if is_array_r own && (0 <? length projects)%nat then
    write_heading (js "Project Suggestions") ;;;
    pdf_for projects
      (fun p =>
         write_lines (t <- get p (js "title") ;;
                      prefixed bullet (or_r t (RVal (VString (js "Project")))))%js_m ;;;
         description <~ pdf_lift (get p (js "description")) ;;
         (if truthy_r description
          then write_lines (prefixed (js "   ") description)
          else pdf_ret tt) ;;;
         link <~ pdf_lift (get p (js "link")) ;;
         if truthy_r link
         then write_lines (prefixed (js "   Link: ") link)
         else pdf_ret tt)
  else pdf_ret tt.

Definition roadmap_section : pdf unit :=
  own <~ path_get (js "roadmap") ;;
  let milestones := array_or_empty own in
  if is_array_r own && (0 <? length milestones)%nat then
    write_heading (js "Roadmap") ;;;
    pdf_for milestones
      (fun r =>
         write_lines (t <- get r (js "title") ;;
                      prefixed bullet (or_r t (RVal (VString (js "Milestone")))))%js_m ;;;
         own_steps <~ pdf_lift (get r (js "steps")) ;;
         if is_array_r own_steps then
           pdf_for (array_or_empty own_steps)
                   (fun s => write_lines (prefixed (js "   - ") (RVal s)))
         else pdf_ret tt)
  else pdf_ret tt.

(** [doc.save(`PathFinderAI_${sanitizeFileName(...)}_Report.pdf`)] *)
Definition save_document : pdf unit :=
  careerPath <~ path_get (js "careerPath") ;;
  name <~ path_get (js "name") ;;
  sanitized <~ pdf_lift
                 (sanitize_any
                    (or_r careerPath (or_r name (RVal (VString (js "Career_Path")))))) ;;
  call (Save (js "PathFinderAI_" ++ sanitized ++ js "_Report.pdf")).

(** The [try] block. *)
Definition generate_pdf : pdf unit :=
  pdf_lift import_jspdf ;;;
  write_title ;;;
  required_skills_section ;;;
  missing_skills_section ;;;
  weak_skills_section ;;;
  courses_section ;;;
  projects_section ;;;
  roadmap_section ;;;
  save_document.

(** What a call of [handleDownloadPathPdf] leaves: its argument as it is
    afterwards, the calls on the document, the toast shown and the error
    logged by the [catch] block. *)
Record pdf_run : Type :=
  { path_after : value;
    document : list pdf_op;
    toast : Toast;
    logged : option error }.

Definition handleDownloadPathPdf (path : value) : pdf_run :=
  let (st, r) := generate_pdf {| st_path := path; st_doc := []; st_y := 0 |} in
  {| path_after := st_path st;
     document := st_doc st;
     toast := match r with Ret _ => PdfDownloaded | Raise _ => PdfFailed end;
     logged := match r with Ret _ => None | Raise e => Some e end |}.

End ResultsComponent.

(** ** Definitions that follow the words of the specification *)

(** An object lists each of its own keys once. *)
Definition distinct_keys (v : value) : Prop :=
  match v with
  | VObject props => NoDup (map fst props)
  | _ => True
  end.

(** The value the decision tree looks at: the decoded text for a text
    that is JSON, the input itself otherwise. *)
Definition decoded (raw : value) : value :=
  match raw with
  | VString s =>
      match JSON_parse s with
      | Ret v => v
      | Raise _ => raw
      end
  | _ => raw
  end.

(** The field [k] of [v], when [v] has one and it is an array. *)
Definition array_field (k : jsstring) (v : value) : option (list value) :=
  match v with
  | VObject props =>
      match own_get props k with
      | Some (VArray es) => Some es
      | _ => None
      end
  | _ => None
  end.

(** The array-valued fields of an object, in field order. *)
Definition array_valued_fields (props : list (jsstring * value)) : list (list value) :=
  flat_map (fun kv => match snd kv with VArray es => [es] | _ => [] end) props.

(** The decision tree of the Response Normalizer, as the specification
    words it. *)
Definition normalize_spec (raw : value) : list value :=
  let v := decoded raw in
  match v with
  | VArray es => es
  | _ =>
      match array_field (js "suggestedCareerPaths") v with
      | Some es => es
      | None =>
          match array_field (js "careerPaths") v with
          | Some es => es
          | None =>
              match v with
              | VObject props =>
                  match array_valued_fields props with
                  | [] => []
                  | arrays => concat arrays
                  end
              | _ => []
              end
          end
      end
  end.

(** The Catalog entries of an interest; none for an interest the Catalog
    does not list. *)
Definition catalog_entries (interest : jsstring) : list CatalogItem :=
  match own_get catalog interest with
  | Some items => items
  | None => []
  end.

(** The entries looked up for the interests, in input order, each with the
    interest it was found under. *)
Definition candidates (interests : list jsstring) : list (jsstring * CatalogItem) :=
  flat_map (fun i => map (pair i) (catalog_entries i)) interests.

(** First-seen-wins by career-path name: an entry stays and the later
    entries of its name go. *)
Fixpoint first_seen (cs : list (jsstring * CatalogItem)) : list (jsstring * CatalogItem) :=
  match cs with
  | [] => []
  | c :: rest =>
      c :: filter (fun d => negb (jsstring_eqb (item_careerPath (snd d))
                                               (item_careerPath (snd c))))
                  (first_seen rest)
  end.

(** The maximal runs of a name: each run with whether its characters are
    ASCII letters, digits or hyphens. *)
Fixpoint runs (s : jsstring) : list (bool * jsstring) :=
  match s with
  | [] => []
  | c :: r =>
      match runs r with
      | (b, run) :: rest =>
          if Bool.eqb b (file_name_char c) then (b, c :: run) :: rest
          else (file_name_char c, [c]) :: (b, run) :: rest
      | [] => [(file_name_char c, [c])]
      end
  end.

(** A run of other characters is replaced by one underscore. *)
Definition render_run (r : bool * jsstring) : jsstring :=
  if fst r then snd r else [95%N].

Definition sanitize_spec (name : jsstring) : jsstring :=
  firstn 100 (flat_map render_run (runs name)).

(** ** Auxiliary definitions of the statements *)

(** A string without surrogate code units. *)
Definition no_surrogate (s : jsstring) : bool :=
  forallb (fun c => negb (in_range 55296 57343 c)) s.

(** What [gap_entry] returns, when it returns. *)
Definition gap_built (g : SkillGap) : Prop :=
  yourLevel g = Beginner /\
  exists youtube coursera,
    encodeURIComponent (skill g ++ js " tutorial") = Ret youtube /\
    encodeURIComponent (skill g) = Ret coursera /\
    recommendedCourses g =
      [ {| course_title := skill g ++ js " Crash Course (YouTube)";
           course_link := js "https://www.youtube.com/results?search_query=" ++ youtube |};
        {| course_title := skill g ++ js " Specialization (Coursera)";
           course_link := js "https://www.coursera.org/search?query=" ++ coursera |} ].

(** The record that the inner loop pushes for the entry [it] of the
    [interest]. *)
Definition built_from (interest : jsstring) (it : CatalogItem) (r : CareerPath) : Prop :=
  careerPath r = item_careerPath it /\
  requiredSkills r = item_requiredSkills it /\
  missingSkills r = item_requiredSkills it /\
  weakSkills r = map skill (skillGapReport r) /\
  map skill (skillGapReport r) =
    firstn (Nat.min 3 (length (item_requiredSkills it))) (item_requiredSkills it) /\
  Forall gap_built (skillGapReport r) /\
  projectSuggestions r =
    [ {| project_title := item_careerPath it ++ js " Portfolio Project";
         project_description :=
           js "Build and deploy a production-ready project demonstrating core skills.";
         project_link := js "https://roadmap.sh" |} ] /\
  roadmap r = fixed_roadmap /\
  tags r = [interest].

(** The body of the two loops as one, over the entries with their interest. *)
Definition visit (st : loop_state) (c : jsstring * CatalogItem) : result loop_state :=
  visit_item (fst c) st (snd c).

Definition entry_name (c : jsstring * CatalogItem) : jsstring :=
  item_careerPath (snd c).

(** The entries that stay, when the names of [seen] were seen before. *)
Definition retained (seen : StringSet) (cs : list (jsstring * CatalogItem))
  : list (jsstring * CatalogItem) :=
  filter (fun c => negb (set_has seen (entry_name c))) (first_seen cs).

(** The paths of one interest, for the examples. *)
Definition game_paths : list CareerPath :=
  Eval vm_compute in
    match fallbackSuggestions [js "Game Development"] with
    | Ret paths => paths
    | Raise _ => []
    end.

(** A profile, for the examples. *)
Definition sample_input (interests : list jsstring) : AnalyzeStudentProfileInput :=
  {| resumeDataUri := js "data:application/pdf;base64,JVBERi0xLjQK";
     academicDetails :=
       {| tenthPercentage := Number false 85 0;
          twelfthPercentage := Some (Number false 782 (-1));
          diplomaUgPercentage := None |};
     interests := interests |}.

(** The rest of a match of the pattern, from inside it: the characters
    outside the class are skipped, and the replacement goes on after them. *)
Fixpoint skip_run (t : jsstring) : jsstring :=
  match t with
  | [] => []
  | d :: t' => if file_name_char d then d :: replace_runs t' else skip_run t'
  end.

(** Neighbouring runs are of different kinds. *)
Fixpoint alternating (rs : list (bool * jsstring)) : Prop :=
  match rs with
  | a :: (b :: _) as rest => fst a <> fst b /\ alternating rest
  | _ => True
  end.

(** A run is not empty and its characters are of its kind. *)
Definition uniform_run (r : bool * jsstring) : Prop :=
  snd r <> [] /\ Forall (fun c => file_name_char c = fst r) (snd r).

(** ** Auxiliary definitions of the further properties *)

(** The career-path names of the Catalog, in its order. *)
Definition catalog_names : list jsstring :=
  flat_map (fun entry => map item_careerPath (snd entry)) catalog.

(** Whether the Catalog lists the interest. *)
Definition is_catalog_key (interest : jsstring) : bool :=
  match own_get catalog interest with
  | Some _ => true
  | None => false
  end.

(** The interest under which the Catalog lists a career path. *)
Definition career_owner (name : jsstring) : option jsstring :=
  option_map fst
    (find (fun entry => existsb (fun it => jsstring_eqb name (item_careerPath it))
                                (snd entry))
          catalog).

(** A string of 16-bit code units. *)
Definition code_units (s : jsstring) : Prop := Forall (fun c => (c < 65536)%N) s.

(** Whether the strings of a list are pairwise different. *)
Fixpoint distinctb (l : list jsstring) : bool :=
  match l with
  | [] => true
  | x :: l' => negb (existsb (jsstring_eqb x) l') && distinctb l'
  end.

(** The interest was visited: its Catalog entries are all in [seen]. *)
Definition marked (st : loop_state) (interest : jsstring) : Prop :=
  obj_get catalog interest <> Builtin /\
  forall it, In it (catalog_entries interest) ->
             set_has (fst st) (item_careerPath it) = true.

(** The number of suggested paths of a result. *)
Definition paths_length (p : CareerPaths) : nat :=
  match p with
  | ModelPaths l => length l
  | LocalPaths l => length l
  end.

(** The results component shows its card without suggestions:
    [!result || !result.suggestedCareerPaths ||
     result.suggestedCareerPaths.length === 0]. *)
Definition shows_no_suggestions (result : option AnalyzeStudentProfileOutput) : bool :=
  match result with
  | None => true
  | Some r => (paths_length (suggestedCareerPaths r) =? 0)%nat
  end.

(** A name that [replace_runs] leaves as it is: letters, digits, hyphens,
    and single underscores that no other underscore follows. *)
Fixpoint squeezed (s : jsstring) : bool :=
  match s with
  | [] => true
  | c :: r =>
      (file_name_char c
       || (N.eqb c 95 && match r with
                         | d :: _ => file_name_char d
                         | [] => true
                         end))
      && squeezed r
  end.

(** Where text may be put on a page: at the left margin, between the top
    margin and the bottom one; a block of lines ends above the bottom
    margin, or starts at the top of a page. *)
Definition op_in_page (op : pdf_op) : Prop :=
  match op with
  | TextString _ x y => x = 14%Z /\ (20 <= y <= 280)%Z
  | TextLines lines x y =>
      x = 14%Z /\ (20 <= y <= 280)%Z /\
      (y + 7 * Z.of_nat (length lines) <= 280 \/ y = 20)%Z
  | _ => True
  end.

Definition is_save (op : pdf_op) : bool :=
  match op with
  | Save _ => true
  | _ => false
  end.

(** A call before the document is saved. *)
Definition laid_out (op : pdf_op) : Prop := op_in_page op /\ is_save op = false.

(** [m] run from a state of [P] ends, when it returns [a], in a state of
    [Q a], and when it throws, in a state of [R]. *)
Definition triple {A} (P : pdf_state -> Prop) (m : pdf A)
  (Q : A -> pdf_state -> Prop) (R : pdf_state -> Prop) : Prop :=
  forall st, P st ->
    match m st with
    | (st', Ret a) => Q a st'
    | (st', Raise _) => R st'
    end.

(** Two values answer the same to every read, but for the two arrays that
    [handleDownloadPathPdf] may push to. *)
Definition agrees (p q : value) : Prop :=
  forall k, k <> js "requiredSkills" -> k <> js "weakSkills" -> get p k = get q k.

(** A state whose document and cursor satisfy [P] and whose argument
    satisfies [Rp]. *)
Definition framed (Rp : value -> Prop) (P : list pdf_op -> Z -> Prop)
  (st : pdf_state) : Prop :=
  P (st_doc st) (st_y st) /\ Rp (st_path st).

(** The state while the document is written: all calls so far are laid
    out and the cursor is below the top margin. *)
Definition writing (Rp : value -> Prop) : pdf_state -> Prop :=
  framed Rp (fun doc y => Forall laid_out doc /\ (20 <= y)%Z).

(** The same, with the cursor at [y0]. *)
Definition writing_at (Rp : value -> Prop) (y0 : Z) : pdf_state -> Prop :=
  framed Rp (fun doc y => Forall laid_out doc /\ y = y0).

(** The state that an exception leaves. *)
Definition stopped (Rp : value -> Prop) : pdf_state -> Prop :=
  framed Rp (fun doc _ => Forall laid_out doc).

(** The argument after the loop [loop] has filled its array [k]: the array
    is filled when it is an empty array of the argument and
    [skillGapReport] is an array. *)
Definition filled (k : jsstring) (loop : list value -> pushes) (p : value) : value :=
  match get p k, get p (js "skillGapReport") with
  | Ret own, Ret report =>
      if (length (array_or_empty own) =? 0)%nat && is_array_r report && is_array_r own
      then
        match p with
        | VObject props =>
            VObject (replace_own props k (VArray (fst (loop (array_or_empty report)))))
        | _ => p
        end
      else p
  | _, _ => p
  end.

(** What [handleDownloadPathPdf] reads of [path] for the file name, in
    the form of [PathNames]. *)
Definition string_property (path : value) (k : jsstring) : option jsstring :=
  match get path k with
  | Ret (RVal (VString s)) => Some s
  | _ => None
  end.

Definition names_of (path : value) : PathNames :=
  {| path_careerPath := string_property path (js "careerPath");
     path_name := string_property path (js "name") |}.

(** Whether the flattening of [normalize] meets a field it cannot spread:
    the value is an object with no array under [suggestedCareerPaths] or
    [careerPaths], and one of its array-valued fields has more than
    [max_spread] elements. *)
Definition spread_overflows (max_spread : nat) (v : value) : bool :=
  match v with
  | VObject props =>
      match array_field (js "suggestedCareerPaths") v,
            array_field (js "careerPaths") v with
      | None, None =>
          existsb (fun es => (max_spread <? length es)%nat) (array_valued_fields props)
      | _, _ => false
      end
  | _ => false
  end.

(** The argument of [handleDownloadPathPdf] after the first loop, and after
    the second. *)
Definition required_filled (path : value) : value :=
  filled (js "requiredSkills") push_gap_skills path.

Definition weak_filled (toLowerCase : jsstring -> jsstring) (path : value) : value :=
  filled (js "weakSkills") (push_beginner_skills toLowerCase) (required_filled path).

(** The three stages of the argument during a call. *)
Definition stage (toLowerCase : jsstring -> jsstring) (path q : value) : Prop :=
  q = path \/ q = required_filled path \/ q = weak_filled toLowerCase path.

(** * Properties *)

Unset Implicit Arguments.

(** ** Strings *)

Lemma jsstring_eqb_spec (a b : jsstring) : reflect (a = b) (jsstring_eqb a b).
Proof.
  revert b; induction a as [|x a IH]; intros [|y b]; simpl;
    try (constructor; congruence).
  destruct (N.eqb_spec x y) as [->|Hxy]; simpl.
  - destruct (IH b) as [->|Hab]; constructor; congruence.
  - constructor; congruence.
Qed.

Lemma jsstring_eqb_refl (a : jsstring) : jsstring_eqb a a = true.
Proof. destruct (jsstring_eqb_spec a a); congruence. Qed.

Lemma jsstring_eqb_eq (a b : jsstring) : jsstring_eqb a b = true <-> a = b.
Proof. destruct (jsstring_eqb_spec a b); split; congruence. Qed.

Lemma jsstring_eqb_neq (a b : jsstring) : jsstring_eqb a b = false <-> a <> b.
Proof. destruct (jsstring_eqb_spec a b); split; congruence. Qed.


(** ** Runs of [JSON.parse] and [encodeURIComponent] *)

Example JSON_parse_object_order :
  JSON_parse (json_text "{'b': [true], '10': null, 'a': {}, '9': 'x\u0041', 'b': []}")
  = Ret (VObject [ (js "9", VString (js "xA"));
                   (js "10", VNull);
                   (js "b", VArray []);
                   (js "a", VObject []) ]).
Proof. vm_compute. reflexivity. Qed.

Example JSON_parse_numbers :
  JSON_parse (js " [0, -12.50e+3, 1E-2] ")
  = Ret (VArray [ VNumber (Number false 0 0);
                  VNumber (Number true 1250 1);
                  VNumber (Number false 1 (-2)) ]).
Proof. vm_compute. reflexivity. Qed.

Example JSON_parse_rejects :
  map JSON_parse
      [ js ""; js "[1,]"; js "01"; js "1."; js "[1] x"; js "{a:1}";
        json_text "{'a':1,}"; json_text "'abc"; js "undefined"; js "NaN" ]
  = repeat (Raise SyntaxError) 10.
Proof. vm_compute. reflexivity. Qed.

Example encodeURIComponent_ascii :
  encodeURIComponent (js "C# or C++ tutorial") = Ret (js "C%23%20or%20C%2B%2B%20tutorial").
Proof. vm_compute. reflexivity. Qed.

Example encodeURIComponent_utf8 :
  encodeURIComponent [233; 8364; 55357; 56832]%N
  = Ret (js "%C3%A9%E2%82%AC%F0%9F%98%80").
Proof. vm_compute. reflexivity. Qed.

Example encodeURIComponent_lone_surrogate :
  encodeURIComponent [97; 55357; 98]%N = Raise URIError /\
  encodeURIComponent [56832]%N = Raise URIError.
Proof. split; reflexivity. Qed.

(** ** The parser consumes text and never exhausts its fuel *)

Lemma skip_ws_length (s : jsstring) : length (skip_ws s) <= length s.
Proof.
  induction s as [|c r IH]; simpl; [lia|].
  destruct (is_ws c); simpl; lia.
Qed.

Lemma strip_prefix_length (p s r : jsstring) :
  strip_prefix p s = Some r -> length r + length p = length s.
Proof.
  revert s; induction p as [|a p IH]; intros [|b s] H; simpl in *;
    try discriminate; try (injection H as <-; simpl; lia).
  destruct (N.eqb a b); [|discriminate].
  apply IH in H. lia.
Qed.

Lemma parse_string_body_length (s str rest : jsstring) :
  parse_string_body s = Some (str, rest) -> length rest < length s.
Proof.
  remember (length s) as n eqn:Hn.
  revert s str rest Hn.
  induction n as [n IH] using lt_wf_ind; intros s str rest Hn H.
  destruct s as [|c r]; simpl in H; [discriminate|].
  simpl in Hn.
  destruct (N.eqb c 34).
  { injection H as _ <-. lia. }
  destruct (N.eqb c 92).
  - destruct r as [|e r1]; [discriminate|].
    destruct (N.eqb e 117).
    + destruct r1 as [|h1 [|h2 [|h3 [|h4 r2]]]]; try discriminate.
      destruct (hex4 h1 h2 h3 h4); [|discriminate].
      destruct (parse_string_body r2) as [[str' rest']|] eqn:E; [|discriminate].
      injection H as _ <-.
      apply (IH (length r2)) in E; simpl in *; try lia.
    + destruct (simple_escape e); [|discriminate].
      destruct (parse_string_body r1) as [[str' rest']|] eqn:E; [|discriminate].
      injection H as _ <-.
      apply (IH (length r1)) in E; simpl in *; try lia.
  - destruct (c <? 32)%N; [discriminate|].
    destruct (parse_string_body r) as [[str' rest']|] eqn:E; [|discriminate].
    injection H as _ <-.
    apply (IH (length r)) in E; simpl in *; try lia.
Qed.

Lemma take_digits_length (s : jsstring) :
  length (snd (take_digits s)) <= length s.
Proof.
  induction s as [|c r IH]; simpl; [lia|].
  destruct (is_digit c); simpl; [|lia].
  destruct (take_digits r); simpl in *; lia.
Qed.

Lemma parse_int_part_length (s : jsstring) ds rest :
  parse_int_part s = Some (ds, rest) -> length rest < length s.
Proof.
  destruct s as [|c r]; simpl; [discriminate|].
  destruct (N.eqb c 48).
  - intros H; injection H as _ <-. lia.
  - destruct (is_digit c); [|discriminate].
    pose proof (take_digits_length r) as L.
    destruct (take_digits r) as [ds' rest']; simpl in *.
    intros H; injection H as _ <-. lia.
Qed.

Lemma parse_frac_part_length (s : jsstring) ds rest :
  parse_frac_part s = Some (ds, rest) -> length rest <= length s.
Proof.
  destruct s as [|c r]; simpl.
  - intros H; injection H as _ <-. simpl; lia.
  - destruct (N.eqb c 46).
    + pose proof (take_digits_length r) as L.
      destruct (take_digits r) as [[|d ds'] rest']; simpl in *; [discriminate|].
      intros H; injection H as _ <-. lia.
    + intros H; injection H as _ <-. simpl; lia.
Qed.

Lemma parse_sign_length (s : jsstring) :
  length (snd (parse_sign s)) <= length s.
Proof.
  destruct s as [|d r]; simpl; [lia|].
  destruct (N.eqb d 45); simpl; [lia|].
  destruct (N.eqb d 43); simpl; lia.
Qed.

Lemma parse_exp_part_length (s : jsstring) e rest :
  parse_exp_part s = Some (e, rest) -> length rest <= length s.
Proof.
  destruct s as [|c r]; simpl.
  - intros H; injection H as _ <-. simpl; lia.
  - destruct (N.eqb c 101 || N.eqb c 69).
    + pose proof (parse_sign_length r) as L1.
      destruct (parse_sign r) as [sign r1]; simpl in L1.
      pose proof (take_digits_length r1) as L.
      destruct (take_digits r1) as [[|d ds'] rest']; simpl in *; [discriminate|].
      intros H; injection H as _ <-. lia.
    + intros H; injection H as _ <-. simpl; lia.
Qed.

Lemma parse_minus_length (s : jsstring) :
  length (snd (parse_minus s)) <= length s.
Proof.
  destruct s as [|d r]; simpl; [lia|].
  destruct (N.eqb d 45); simpl; lia.
Qed.

Lemma parse_number_length (s : jsstring) n rest :
  parse_number s = Some (n, rest) -> length rest < length s.
Proof.
  unfold parse_number.
  pose proof (parse_minus_length s) as L0.
  destruct (parse_minus s) as [neg s1]; simpl in L0.
  destruct (parse_int_part s1) as [[ids s2]|] eqn:E1; [|discriminate].
  destruct (parse_frac_part s2) as [[fds s3]|] eqn:E2; [|discriminate].
  destruct (parse_exp_part s3) as [[e s4]|] eqn:E3; [|discriminate].
  intros H; injection H as _ <-.
  apply parse_int_part_length in E1.
  apply parse_frac_part_length in E2.
  apply parse_exp_part_length in E3. lia.
Qed.

Lemma parse_literal_length (s : jsstring) v rest :
  parse_literal s = POk v rest -> length rest < length s.
Proof.
  unfold parse_literal.
  destruct (strip_prefix (js "true") s) eqn:E1.
  { intros H; injection H as _ <-. apply strip_prefix_length in E1.
    simpl in E1. lia. }
  destruct (strip_prefix (js "false") s) eqn:E2.
  { intros H; injection H as _ <-. apply strip_prefix_length in E2.
    simpl in E2. lia. }
  destruct (strip_prefix (js "null") s) eqn:E3; [|discriminate].
  intros H; injection H as _ <-. apply strip_prefix_length in E3.
  simpl in E3. lia.
Qed.

(** Case analysis on the scrutinee of the first [match] or [if] of a
    hypothesis, or of the goal. *)
Ltac break_hyp H :=
  match type of H with
  | context [match ?x with _ => _ end] =>
      lazymatch x with
      | context [match _ with _ => _ end] => fail
      | _ => let E := fresh "E" in destruct x eqn:E
      end
  end.

Ltac break_goal :=
  match goal with
  | |- context [match ?x with _ => _ end] =>
      lazymatch x with
      | context [match _ with _ => _ end] => fail
      | _ => let E := fresh "E" in destruct x eqn:E
      end
  end.

Lemma parser_consumes (fuel : nat) :
  (forall s v rest, parse_value fuel s = POk v rest -> length rest < length s) /\
  (forall s acc v rest,
      parse_elements fuel s acc = POk v rest -> length rest < length s) /\
  (forall s acc v rest,
      parse_members fuel s acc = POk v rest -> length rest < length s).
Proof.
  induction fuel as [|fuel (IHv & IHe & IHm)].
  { repeat split; intros; discriminate. }
  repeat split.
  - intros s v rest H. simpl in H.
    pose proof (skip_ws_length s) as Ls.
    destruct (skip_ws s) as [|c r]; [discriminate|]. simpl in Ls.
    destruct (N.eqb c 91).
    { pose proof (skip_ws_length r) as Lr.
      destruct (skip_ws r) as [|d r']; [discriminate|]. simpl in Lr.
      destruct (N.eqb d 93).
      - injection H as _ <-. lia.
      - apply IHe in H. lia. }
    destruct (N.eqb c 123).
    { pose proof (skip_ws_length r) as Lr.
      destruct (skip_ws r) as [|d r']; [discriminate|]. simpl in Lr.
      destruct (N.eqb d 125).
      - injection H as _ <-. lia.
      - apply IHm in H. lia. }
    destruct (N.eqb c 34).
    { destruct (parse_string_body r) as [[str rest']|] eqn:E; [|discriminate].
      injection H as _ <-. apply parse_string_body_length in E. lia. }
    destruct (N.eqb c 45 || is_digit c).
    { destruct (parse_number (c :: r)) as [[n rest']|] eqn:E; [|discriminate].
      injection H as _ <-. apply parse_number_length in E. simpl in E. lia. }
    apply parse_literal_length in H. simpl in H. lia.
  - intros s acc v rest H. simpl in H.
    destruct (parse_value fuel s) as [v1 rest1|] eqn:E; [|discriminate].
    apply IHv in E.
    pose proof (skip_ws_length rest1) as L1.
    destruct (skip_ws rest1) as [|c r]; [discriminate|]. simpl in L1.
    destruct (N.eqb c 44).
    { apply IHe in H. lia. }
    destruct (N.eqb c 93); [|discriminate].
    injection H as _ <-. lia.
  - intros s acc v rest H. simpl in H.
    pose proof (skip_ws_length s) as Ls.
    destruct (skip_ws s) as [|c r]; [discriminate|]. simpl in Ls.
    destruct (N.eqb c 34); [|discriminate].
    destruct (parse_string_body r) as [[key r1]|] eqn:Ek; [|discriminate].
    apply parse_string_body_length in Ek.
    pose proof (skip_ws_length r1) as L1.
    destruct (skip_ws r1) as [|c2 r2]; [discriminate|]. simpl in L1.
    destruct (N.eqb c2 58); [|discriminate].
    destruct (parse_value fuel r2) as [v1 rest1|] eqn:E; [|discriminate].
    apply IHv in E.
    pose proof (skip_ws_length rest1) as L2.
    destruct (skip_ws rest1) as [|c3 r3]; [discriminate|]. simpl in L2.
    destruct (N.eqb c3 44).
    { apply IHm in H. lia. }
    destruct (N.eqb c3 125); [|discriminate].
    injection H as _ <-. lia.
Qed.

Lemma parse_literal_not_overflow (s : jsstring) :
  parse_literal s <> PErr RangeError.
Proof.
  unfold parse_literal. repeat break_goal; discriminate.
Qed.

Lemma parser_fuel (fuel : nat) :
  (forall s, 2 * length s < fuel -> parse_value fuel s <> PErr RangeError) /\
  (forall s acc, 2 * length s + 1 < fuel ->
                 parse_elements fuel s acc <> PErr RangeError) /\
  (forall s acc, 2 * length s + 1 < fuel ->
                 parse_members fuel s acc <> PErr RangeError).
Proof.
  induction fuel as [|fuel (IHv & IHe & IHm)].
  { repeat split; intros; lia. }
  repeat split.
  - intros s L. simpl.
    pose proof (skip_ws_length s) as Ls.
    destruct (skip_ws s) as [|c r]; [discriminate|]. simpl in Ls.
    destruct (N.eqb c 91).
    { destruct (skip_ws r) as [|d r']; [discriminate|].
      destruct (N.eqb d 93); [discriminate|]. apply IHe. lia. }
    destruct (N.eqb c 123).
    { destruct (skip_ws r) as [|d r']; [discriminate|].
      destruct (N.eqb d 125); [discriminate|]. apply IHm. lia. }
    destruct (N.eqb c 34).
    { destruct (parse_string_body r) as [[str rest']|]; discriminate. }
    destruct (N.eqb c 45 || is_digit c).
    { destruct (parse_number (c :: r)) as [[n rest']|]; discriminate. }
    apply parse_literal_not_overflow.
  - intros s acc L. simpl.
    destruct (parse_value fuel s) as [v1 rest1|e] eqn:E.
    + apply (proj1 (parser_consumes fuel)) in E.
      pose proof (skip_ws_length rest1) as L1.
      destruct (skip_ws rest1) as [|c r]; [discriminate|]. simpl in L1.
      destruct (N.eqb c 44); [apply IHe; lia|].
      destruct (N.eqb c 93); discriminate.
    + intros H; injection H as ->. apply (IHv s); [lia|exact E].
  - intros s acc L. simpl.
    pose proof (skip_ws_length s) as Ls.
    destruct (skip_ws s) as [|c r]; [discriminate|]. simpl in Ls.
    destruct (N.eqb c 34); [|discriminate].
    destruct (parse_string_body r) as [[key r1]|] eqn:Ek; [|discriminate].
    apply parse_string_body_length in Ek.
    pose proof (skip_ws_length r1) as L1.
    destruct (skip_ws r1) as [|c2 r2]; [discriminate|]. simpl in L1.
    destruct (N.eqb c2 58); [|discriminate].
    destruct (parse_value fuel r2) as [v1 rest1|e] eqn:E.
    + apply (proj1 (parser_consumes fuel)) in E.
      pose proof (skip_ws_length rest1) as L2.
      destruct (skip_ws rest1) as [|c3 r3]; [discriminate|]. simpl in L2.
      destruct (N.eqb c3 44); [apply IHm; lia|].
      destruct (N.eqb c3 125); discriminate.
    + intros H; injection H as ->. apply (IHv r2); [lia|exact E].
Qed.

(** [JSON.parse] fails with a syntax error only: the fuel it gives the
    descent is enough for every text. *)
Lemma JSON_parse_error (text : jsstring) (e : error) :
  JSON_parse text = Raise e -> e = SyntaxError.
Proof.
  unfold JSON_parse.
  destruct (parse_value (2 * length text + 1) text) as [v rest|e'] eqn:E.
  - destruct (skip_ws rest); [discriminate|]. congruence.
  - intros H; injection H as <-.
    assert (parse_value (2 * length text + 1) text <> PErr RangeError) as K
      by (apply parser_fuel; lia).
    assert (forall fuel s e0, parse_value fuel s = PErr e0 ->
                              e0 = SyntaxError \/ e0 = RangeError) as Kind.
    { clear. intros fuel.
      assert ((forall s e0, parse_value fuel s = PErr e0 ->
                            e0 = SyntaxError \/ e0 = RangeError) /\
              (forall s acc e0, parse_elements fuel s acc = PErr e0 ->
                            e0 = SyntaxError \/ e0 = RangeError) /\
              (forall s acc e0, parse_members fuel s acc = PErr e0 ->
                            e0 = SyntaxError \/ e0 = RangeError)) as G.
      { induction fuel as [|fuel (IHv & IHe & IHm)].
        { repeat split; intros; simpl in *; right; congruence. }
        repeat split; intros; simpl in *.
        - unfold parse_literal in H.
          repeat (break_hyp H; try discriminate; eauto);
            try (injection H as <-; auto).
        - repeat (break_hyp H; try discriminate; eauto);
            try (injection H as <-; eauto).
        - repeat (break_hyp H; try discriminate; eauto);
            try (injection H as <-; eauto). }
      apply G. }
    destruct (Kind _ _ _ E) as [->| ->]; [reflexivity|contradiction].
Qed.

(** ** Objects built by the parser list each key once *)

Lemma own_get_none {A} (props : list (jsstring * A)) (k : jsstring) :
  own_get props k = None <-> ~ In k (map fst props).
Proof.
  induction props as [|[k' a] rest IH]; simpl.
  - tauto.
  - destruct (jsstring_eqb_spec k k') as [->|Hk].
    + split; [discriminate|]. intros H; exfalso; apply H; auto.
    + rewrite IH. split.
      * intros H [E|I]; [congruence|tauto].
      * tauto.
Qed.

Lemma own_get_In {A} (props : list (jsstring * A)) (k : jsstring) (a : A) :
  own_get props k = Some a -> In (k, a) props.
Proof.
  induction props as [|[k' a'] rest IH]; simpl; [discriminate|].
  destruct (jsstring_eqb_spec k k') as [->|Hk].
  - intros H; injection H as ->. auto.
  - auto.
Qed.

Lemma replace_own_keys {A} (props : list (jsstring * A)) k a :
  map fst (replace_own props k a) = map fst props.
Proof.
  induction props as [|[k' a'] rest IH]; simpl; [reflexivity|].
  destruct (jsstring_eqb k k'); simpl; congruence.
Qed.

Lemma insert_index_keys {A} (props : list (jsstring * A)) i k a :
  Add k (map fst props) (map fst (insert_index props i k a)).
Proof.
  induction props as [|[k' a'] rest IH]; simpl.
  - constructor.
  - destruct (array_index k') as [j|].
    + destruct (j <? i)%N; simpl; constructor. exact IH.
    + simpl. constructor.
Qed.

Lemma define_property_distinct {A} (props : list (jsstring * A)) k a :
  NoDup (map fst props) -> NoDup (map fst (define_property props k a)).
Proof.
  intros ND. unfold define_property.
  destruct (own_get props k) eqn:E.
  - rewrite replace_own_keys. exact ND.
  - apply own_get_none in E.
    destruct (array_index k) as [i|].
    + apply (NoDup_Add (insert_index_keys props i k a)). auto.
    + rewrite map_app. simpl.
      apply (NoDup_Add (Add_app k (map fst props) [])).
      rewrite app_nil_r. auto.
Qed.

Lemma parse_elements_array (fuel : nat) :
  forall s acc v rest,
    parse_elements fuel s acc = POk v rest -> exists es, v = VArray es.
Proof.
  induction fuel as [|fuel IH]; intros s acc v rest H; simpl in H;
    [discriminate|].
  destruct (parse_value fuel s) as [v1 rest1|]; [|discriminate].
  destruct (skip_ws rest1) as [|c r]; [discriminate|].
  destruct (N.eqb c 44); [eauto|].
  destruct (N.eqb c 93); [|discriminate].
  injection H as <- _. eauto.
Qed.

Lemma parse_members_distinct (fuel : nat) :
  forall s acc v rest,
    NoDup (map fst acc) ->
    parse_members fuel s acc = POk v rest -> distinct_keys v.
Proof.
  induction fuel as [|fuel IH]; intros s acc v rest ND H; simpl in H;
    [discriminate|].
  destruct (skip_ws s) as [|c r]; [discriminate|].
  destruct (N.eqb c 34); [|discriminate].
  destruct (parse_string_body r) as [[key r1]|]; [|discriminate].
  destruct (skip_ws r1) as [|c2 r2]; [discriminate|].
  destruct (N.eqb c2 58); [|discriminate].
  destruct (parse_value fuel r2) as [v1 rest1|]; [|discriminate].
  destruct (skip_ws rest1) as [|c3 r3]; [discriminate|].
  destruct (N.eqb c3 44).
  { eapply IH; [|exact H]. apply define_property_distinct, ND. }
  destruct (N.eqb c3 125); [|discriminate].
  injection H as <- _. simpl. apply define_property_distinct, ND.
Qed.

Lemma parse_value_distinct (fuel : nat) (s : jsstring) v rest :
  parse_value fuel s = POk v rest -> distinct_keys v.
Proof.
  destruct fuel as [|fuel]; simpl; [discriminate|].
  destruct (skip_ws s) as [|c r]; [discriminate|].
  destruct (N.eqb c 91).
  { destruct (skip_ws r) as [|d r']; [discriminate|].
    destruct (N.eqb d 93).
    - intros H; injection H as <- _. exact I.
    - intros H. apply parse_elements_array in H as [es ->]. exact I. }
  destruct (N.eqb c 123).
  { destruct (skip_ws r) as [|d r']; [discriminate|].
    destruct (N.eqb d 125).
    - intros H; injection H as <- _. constructor.
    - apply parse_members_distinct. constructor. }
  destruct (N.eqb c 34).
  { destruct (parse_string_body r) as [[str rest']|]; [|discriminate].
    intros H; injection H as <- _. exact I. }
  destruct (N.eqb c 45 || is_digit c).
  { destruct (parse_number (c :: r)) as [[n rest']|]; [|discriminate].
    intros H; injection H as <- _. exact I. }
  unfold parse_literal.
  repeat break_goal; try discriminate; intros H; injection H as <- _; exact I.
Qed.

Lemma JSON_parse_distinct (text : jsstring) (v : value) :
  JSON_parse text = Ret v -> distinct_keys v.
Proof.
  unfold JSON_parse.
  destruct (parse_value (2 * length text + 1) text) as [v' rest|] eqn:E;
    [|discriminate].
  destruct (skip_ws rest); [|discriminate].
  intros H; injection H as <-. exact (parse_value_distinct _ _ _ _ E).
Qed.

(** ** [normalize] *)

Lemma parse_step (out : value) :
  try_catch
    (match out with
     | VString s => JSON_parse s
     | _ => Ret out
     end)
    (fun _ => Ret out) = Ret (decoded out).
Proof.
  destruct out; simpl; try reflexivity.
  destruct (JSON_parse s); reflexivity.
Qed.

Lemma guarded_array_field (data : value) (k : jsstring) :
  guarded_array data k = Ret (array_field k data).
Proof.
  unfold guarded_array.
  destruct data; simpl; try reflexivity;
    try (break_goal; reflexivity).
  unfold obj_get.
  destruct (own_get props k) as [[]|]; simpl; try reflexivity.
  destruct (is_inherited k); reflexivity.
Qed.

Lemma own_get_app {A} (pre l : list (jsstring * A)) (k : jsstring) :
  ~ In k (map fst pre) -> own_get (pre ++ l) k = own_get l k.
Proof.
  induction pre as [|[k' a] pre IH]; simpl; [reflexivity|].
  intros H.
  destruct (jsstring_eqb_spec k k') as [->|Hk]; [exfalso; auto|].
  apply IH. tauto.
Qed.

Lemma collect_from_outcome (max_spread : nat) (pre suf : list (jsstring * value))
  (acc : list value) :
  NoDup (map fst (pre ++ suf)) ->
  collect_from max_spread (pre ++ suf) (object_keys suf) acc
  = if existsb (fun es => (max_spread <? length es)%nat) (array_valued_fields suf)
    then Raise RangeError
    else Ret (acc ++ concat (array_valued_fields suf)).
Proof.
  revert pre acc; induction suf as [|[k v] suf IH]; intros pre acc ND.
  - simpl. now rewrite app_nil_r.
  - assert (~ In k (map fst pre)) as Hk.
    { rewrite map_app in ND. simpl in ND.
      apply NoDup_remove_2 in ND. intros I; apply ND, in_or_app; auto. }
    cbn [object_keys map fst collect_from].
    unfold obj_get at 1. rewrite (own_get_app _ _ _ Hk).
    cbn [own_get]. rewrite jsstring_eqb_refl. cbn [lookup_array].
    change (pre ++ (k, v) :: suf) with (pre ++ [(k, v)] ++ suf) in *.
    rewrite app_assoc in *.
    specialize (IH (pre ++ [(k, v)])).
    unfold object_keys in IH.
    destruct v as [| | | | |es|fields]; cbn [as_array array_valued_fields flat_map snd app];
      try (rewrite (IH acc ND); reflexivity).
    unfold push_spread. cbn [existsb].
    rewrite Nat.ltb_antisym.
    destruct (length es <=? max_spread)%nat; cbn [negb orb bind]; [|reflexivity].
    rewrite (IH (acc ++ es) ND).
    fold (array_valued_fields suf).
    destruct (existsb _ (array_valued_fields suf)); [reflexivity|].
    cbn [concat]. now rewrite app_assoc.
Qed.

Lemma collect_arrays_outcome (max_spread : nat) (props : list (jsstring * value)) :
  NoDup (map fst props) ->
  collect_arrays max_spread props
  = if existsb (fun es => (max_spread <? length es)%nat) (array_valued_fields props)
    then Raise RangeError
    else Ret (concat (array_valued_fields props)).
Proof.
  intros ND. unfold collect_arrays.
  exact (collect_from_outcome max_spread [] props [] ND).
Qed.

(** The loop throws nothing but the [RangeError] of the spread. *)
Lemma collect_from_raises (max_spread : nat) (props : list (jsstring * value))
  (keys : list jsstring) (acc : list value) (e : error) :
  collect_from max_spread props keys acc = Raise e -> e = RangeError.
Proof.
  revert acc; induction keys as [|k keys IH]; intros acc; cbn [collect_from];
    [discriminate|].
  destruct (lookup_array (obj_get props k)) as [es|]; [|apply IH].
  unfold push_spread.
  destruct (length es <=? max_spread)%nat; cbn [bind]; [apply IH|].
  intros H; injection H as <-. reflexivity.
Qed.

Lemma decoded_distinct (raw : value) :
  distinct_keys raw -> distinct_keys (decoded raw).
Proof.
  destruct raw; simpl; auto.
  intros _. destruct (JSON_parse s) eqn:E; simpl; auto.
  exact (JSON_parse_distinct _ _ E).
Qed.

Example normalize_runs :
  normalize 100 (VString (json_text "{'suggestedCareerPaths':[1],'careerPaths':[2]}"))
    = Ret [VNumber (Number false 1 0)] /\
  normalize 100 (VString (json_text "{'careerPaths':[2],'other':[3]}"))
    = Ret [VNumber (Number false 2 0)] /\
  normalize 100 (VString (json_text "{'b':[3],'suggestedCareerPaths':'none','1':[4]}"))
    = Ret [VNumber (Number false 4 0); VNumber (Number false 3 0)] /\
  normalize 100 (VString (json_text "{'constructor':1,'a':{'b':[1]}}")) = Ret [] /\
  normalize 100 (VString (js "not json")) = Ret [] /\
  normalize 100 (VString (js "null")) = Ret [] /\
  normalize 100 VNull = Ret [] /\
  normalize 100 VUndefined = Ret [] /\
  normalize 100 (VNumber (Number false 7 0)) = Ret [].
Proof. repeat split; vm_compute; reflexivity. Qed.

(** A spread of more elements than a call takes arguments: with a bound of
    two, the field of three elements makes [normalize] throw, wherever it
    stands, unless one of the two names holds an array. *)
Example normalize_spread_runs :
  normalize 2 (VString (json_text "{'a':[1,2],'b':[3,4]}"))
    = Ret [VNumber (Number false 1 0); VNumber (Number false 2 0);
           VNumber (Number false 3 0); VNumber (Number false 4 0)] /\
  normalize 2 (VString (json_text "{'a':[1],'b':[2,3,4]}")) = Raise RangeError /\
  normalize 2 (VString (json_text "{'a':[1,2,3],'b':7}")) = Raise RangeError /\
  normalize 2 (VString (json_text "{'a':[1,2,3],'careerPaths':[]}")) = Ret [] /\
  normalize 2 (VString (json_text "[1,2,3]"))
    = Ret [VNumber (Number false 1 0); VNumber (Number false 2 0);
           VNumber (Number false 3 0)].
Proof. repeat split; vm_compute; reflexivity. Qed.

(** C7. [normalize] is the identity on arrays: for every array [A],
    [normalize(A)] returns [A]. *)
Theorem normalize_array_identity (max_spread : nat) (A : list value) :
  normalize max_spread (VArray A) = Ret A.
Proof. reflexivity. Qed.

(** [normalize] returns or throws the [RangeError] of the spread, whatever
    it is given. *)
Lemma normalize_outcome (max_spread : nat) (raw : value) :
  (exists paths : list value, normalize max_spread raw = Ret paths) \/
  normalize max_spread raw = Raise RangeError.
Proof.
  unfold normalize. rewrite parse_step. simpl.
  destruct (as_array (decoded raw)); [eauto|].
  rewrite !guarded_array_field. simpl.
  destruct (array_field (js "suggestedCareerPaths") (decoded raw)); [eauto|].
  destruct (array_field (js "careerPaths") (decoded raw)); [eauto|].
  destruct (truthy (decoded raw) && typeof_object (decoded raw)); [|eauto].
  destruct (decoded raw); eauto.
  unfold collect_arrays.
  destruct (collect_from max_spread props (object_keys props) []) as [arrays|e] eqn:E;
    cbn [bind].
  - destruct (0 <? length arrays)%nat; eauto.
  - right. now rewrite (collect_from_raises _ _ _ _ _ E).
Qed.

(** What [normalize] does on every value whose objects list each key once:
    it throws the [RangeError] when the flattening meets a field it cannot
    spread, and follows the decision tree otherwise. *)
Lemma normalize_by_tree (max_spread : nat) (raw : value) :
  distinct_keys raw ->
  normalize max_spread raw
  = if spread_overflows max_spread (decoded raw)
    then Raise RangeError
    else Ret (normalize_spec raw).
Proof.
  intros Hraw. apply decoded_distinct in Hraw.
  unfold normalize, normalize_spec, spread_overflows. rewrite parse_step. cbn [bind].
  destruct (decoded raw) as [| | | | |es|props] eqn:D; cbn [as_array];
    try reflexivity;
    rewrite !guarded_array_field; cbn [bind array_field];
    try (destruct (truthy _ && typeof_object _); reflexivity).
  destruct (own_get props (js "suggestedCareerPaths")) as [[]|];
    try reflexivity;
    (destruct (own_get props (js "careerPaths")) as [[]|];
     try reflexivity;
     cbn [truthy typeof_object andb];
     rewrite (collect_arrays_outcome _ _ Hraw);
     (destruct (existsb _ (array_valued_fields props)); [reflexivity|]);
     cbn [bind];
     (destruct (array_valued_fields props) as [|a l] eqn:F; [reflexivity|]);
     destruct (concat (a :: l)) eqn:C; reflexivity).
Qed.

(** C6. [normalize] is not total: the spread [arrays.push(...val)] stands
    outside the [try], and an array-valued field with more elements than a
    call takes arguments makes [normalize] throw a [RangeError], whatever
    the bound of the engine is. *)
Theorem normalize_large_field_throws (max_spread : nat) :
  normalize max_spread (VObject [(js "a", VArray (repeat VNull (S max_spread)))])
  = Raise RangeError.
Proof.
  unfold normalize. cbn [try_catch bind as_array].
  rewrite !guarded_array_field. cbn [bind].
  change (array_field (js "suggestedCareerPaths") _) with (@None (list value)).
  change (array_field (js "careerPaths") _) with (@None (list value)).
  cbn [truthy typeof_object andb].
  unfold collect_arrays, object_keys. cbn [map fst collect_from].
  change (lookup_array (obj_get _ (js "a")))
    with (Some (repeat VNull (S max_spread))).
  unfold push_spread. rewrite repeat_length.
  replace (S max_spread <=? max_spread)%nat with false
    by (symmetry; apply Nat.leb_gt; lia).
  reflexivity.
Qed.

(** C2. The decision tree of [normalize] fails where it concatenates the
    array-valued fields of an object: for a field with more elements than
    a call takes arguments, the tree gives the concatenation and
    [normalize] throws a [RangeError]. *)
Theorem normalize_concatenation_throws (max_spread : nat) :
  let raw := VObject [ (js "paths", VArray (repeat VNull (S max_spread)));
                       (js "more", VArray [VBool true]) ] in
  normalize_spec raw = repeat VNull (S max_spread) ++ [VBool true] /\
  normalize max_spread raw = Raise RangeError.
Proof.
  split.
  - cbn. reflexivity.
  - rewrite normalize_by_tree.
    + unfold spread_overflows. cbn [decoded].
      change (array_field (js "suggestedCareerPaths") _) with (@None (list value)).
      change (array_field (js "careerPaths") _) with (@None (list value)).
      cbn [array_valued_fields flat_map snd app existsb].
      rewrite repeat_length.
      replace (max_spread <? S max_spread)%nat with true
        by (symmetry; apply Nat.ltb_lt; lia).
      reflexivity.
    + cbn [distinct_keys map fst].
      repeat constructor; simpl; intuition discriminate.
Qed.

(** C8, as it is stated, fails: a text that is JSON and decodes to a
    string is parsed once by [normalize], and the string it decodes to is
    parsed again when it is given to [normalize]; this is so whatever the
    bound of the engine on a spread. *)
Lemma normalize_decoded_counterexample :
  ~ (exists max_spread : nat,
        forall (S : jsstring) (v : value),
          JSON_parse S = Ret v ->
          normalize max_spread (VString S) = normalize max_spread v).
Proof.
  intros [max_spread H].
  specialize (H (json_text "'[1]'") (VString (js "[1]")) eq_refl).
  vm_compute in H. discriminate H.
Qed.

(** C8, amended. For every text [S] that is JSON and decodes to a value
    that is not a string, [normalize(S)] is [normalize(decode(S))]; when
    [S] decodes to a string, [normalize(S)] is the empty sequence. *)
Theorem normalize_decoded (max_spread : nat) (S : jsstring) (v : value) :
  JSON_parse S = Ret v ->
  match v with
  | VString _ => normalize max_spread (VString S) = Ret []
  | _ => normalize max_spread (VString S) = normalize max_spread v
  end.
Proof.
  intros H. unfold normalize. simpl. rewrite H. simpl.
  destruct v; try reflexivity.
  rewrite !guarded_array_field. simpl.
  destruct (negb (jsstring_eqb s [])); reflexivity.
Qed.

Lemma normalize_decoded_witness :
  normalize 100 (VString (json_text "{'careerPaths':[true]}"))
  = normalize 100 (VObject [(js "careerPaths", VArray [VBool true])]).
Proof.
  apply (normalize_decoded 100 (json_text "{'careerPaths':[true]}")
           (VObject [(js "careerPaths", VArray [VBool true])])).
  vm_compute. reflexivity.
Defined.

(** ** [encodeURIComponent] on the Catalog *)

Lemma surrogate_range (c : code_unit) :
  in_range 55296 57343 c = is_lead_surrogate c || is_trail_surrogate c.
Proof.
  unfold is_lead_surrogate, is_trail_surrogate, in_range.
  destruct (N.leb_spec 55296 c), (N.leb_spec c 57343),
    (N.leb_spec c 56319), (N.leb_spec 56320 c); simpl; try reflexivity; lia.
Qed.

Lemma encodeURIComponent_total (s : jsstring) :
  no_surrogate s = true -> exists r, encodeURIComponent s = Ret r.
Proof.
  induction s as [|c s IH]; simpl; [eauto|].
  intros H. apply andb_prop in H as [Hc Hs].
  destruct (IH Hs) as [r ->]. simpl.
  rewrite surrogate_range in Hc.
  apply negb_true_iff, orb_false_elim in Hc as [-> ->].
  destruct (uri_unreserved c); eauto.
Qed.

Lemma no_surrogate_app (a b : jsstring) :
  no_surrogate (a ++ b) = no_surrogate a && no_surrogate b.
Proof. apply forallb_app. Qed.

Lemma gap_entry_built (s : jsstring) (g : SkillGap) :
  gap_entry s = Ret g -> skill g = s /\ gap_built g.
Proof.
  unfold gap_entry, gap_built.
  destruct (encodeURIComponent (s ++ js " tutorial")) as [yt|] eqn:E1;
    [|discriminate].
  destruct (encodeURIComponent s) as [co|] eqn:E2; [|discriminate].
  cbn [bind]. intros H; injection H as <-. cbn [skill yourLevel recommendedCourses].
  repeat split. exists yt, co. auto.
Qed.

Lemma gap_entry_total (s : jsstring) :
  no_surrogate s = true -> exists g, gap_entry s = Ret g.
Proof.
  intros H. unfold gap_entry.
  destruct (encodeURIComponent_total (s ++ js " tutorial")) as [yt ->].
  { rewrite no_surrogate_app, H. reflexivity. }
  destruct (encodeURIComponent_total s H) as [co ->].
  cbn [bind]. eauto.
Qed.

Lemma map_result_built (xs : list jsstring) (gap : list SkillGap) :
  map_result gap_entry xs = Ret gap ->
  map skill gap = xs /\ Forall gap_built gap.
Proof.
  revert gap; induction xs as [|x xs IH]; intros gap; simpl.
  - intros H; injection H as <-. auto.
  - destruct (gap_entry x) as [g|] eqn:E; [|discriminate]. cbn [bind].
    destruct (map_result gap_entry xs) as [gs|]; [|discriminate]. cbn [bind].
    intros H; injection H as <-.
    destruct (IH gs eq_refl) as [Hm Hf].
    destruct (gap_entry_built _ _ E) as [Hs Hb].
    simpl. split; [congruence|auto].
Qed.

Lemma map_result_total (xs : list jsstring) :
  forallb no_surrogate xs = true -> exists gap, map_result gap_entry xs = Ret gap.
Proof.
  induction xs as [|x xs IH]; simpl; [eauto|].
  intros H. apply andb_prop in H as [Hx Hxs].
  destruct (gap_entry_total x Hx) as [g ->].
  destruct (IH Hxs) as [gs ->]. cbn [bind]. eauto.
Qed.

Lemma forallb_firstn {A} (f : A -> bool) (n : nat) (l : list A) :
  forallb f l = true -> forallb f (firstn n l) = true.
Proof.
  revert n; induction l as [|a l IH]; intros [|n]; simpl; auto.
  intros H. apply andb_prop in H as [-> H]. simpl. auto.
Qed.

(** No skill name of the Catalog has a surrogate. *)
Lemma catalog_skills_plain :
  forallb (fun entry =>
             forallb (fun it => forallb no_surrogate (item_requiredSkills it))
                     (snd entry))
          catalog = true.
Proof. vm_compute. reflexivity. Qed.

Lemma catalog_item_plain (interest : jsstring) (items : list CatalogItem)
  (it : CatalogItem) :
  own_get catalog interest = Some items -> In it items ->
  forallb no_surrogate (item_requiredSkills it) = true.
Proof.
  intros Hg Hin. apply own_get_In in Hg.
  pose proof catalog_skills_plain as H.
  rewrite forallb_forall in H. specialize (H _ Hg). simpl in H.
  rewrite forallb_forall in H. exact (H _ Hin).
Qed.

(** ** The loops of [fallbackSuggestions] *)

Lemma set_has_add (seen : StringSet) (k x : jsstring) :
  set_has (set_add seen k) x = set_has seen x || jsstring_eqb x k.
Proof.
  unfold set_add, set_has.
  destruct (existsb (jsstring_eqb k) seen) eqn:E.
  - destruct (jsstring_eqb_spec x k) as [->|Hx].
    + rewrite E. reflexivity.
    + now rewrite orb_false_r.
  - rewrite existsb_app. simpl. now rewrite orb_false_r.
Qed.

Lemma visit_item_cases (interest : jsstring) (seen : StringSet)
  (paths : list CareerPath) (it : CatalogItem) (st' : loop_state) :
  visit_item interest (seen, paths) it = Ret st' ->
  (set_has seen (item_careerPath it) = true /\ st' = (seen, paths)) \/
  (set_has seen (item_careerPath it) = false /\
   exists r, built_from interest it r /\
             st' = (set_add seen (item_careerPath it), paths ++ [r])).
Proof.
  unfold visit_item.
  destruct (set_has seen (item_careerPath it)) eqn:E.
  - intros H; injection H as <-. auto.
  - destruct (map_result gap_entry _) as [gap|] eqn:G; [|discriminate].
    cbn [bind]. intros H; injection H as <-.
    right. split; [reflexivity|].
    apply map_result_built in G as [Gm Gf].
    eexists. split; [|reflexivity].
    unfold built_from; cbn. repeat split; auto.
Qed.

Lemma visit_item_total (interest : jsstring) (st : loop_state) (it : CatalogItem) :
  forallb no_surrogate (item_requiredSkills it) = true ->
  exists st', visit_item interest st it = Ret st'.
Proof.
  intros H. destruct st as [seen paths]. unfold visit_item.
  destruct (set_has seen (item_careerPath it)); [eauto|].
  destruct (map_result_total
              (firstn (Nat.min 3 (length (item_requiredSkills it)))
                      (item_requiredSkills it))) as [gap ->].
  { apply forallb_firstn, H. }
  cbn [bind]. eauto.
Qed.

Lemma for_of_app {A S} (xs ys : list A) (body : S -> A -> result S) (st : S) :
  for_of (xs ++ ys) body st = (st' <- for_of xs body st ;; for_of ys body st').
Proof.
  revert st; induction xs as [|x xs IH]; intros st; simpl; [reflexivity|].
  destruct (body st x); simpl; auto.
Qed.

Lemma for_of_map {A B S} (f : A -> B) (xs : list A) (body : S -> B -> result S)
  (st : S) :
  for_of (map f xs) body st = for_of xs (fun st x => body st (f x)) st.
Proof.
  revert st; induction xs as [|x xs IH]; intros st; simpl; [reflexivity|].
  destruct (body st (f x)); simpl; auto.
Qed.

Lemma visit_interest_entries (st : loop_state) (interest : jsstring) :
  obj_get catalog interest <> Builtin ->
  visit_interest st interest
  = for_of (map (pair interest) (catalog_entries interest)) visit st.
Proof.
  unfold visit_interest, catalog_entries, obj_get.
  destruct (own_get catalog interest) as [items|].
  - intros _. rewrite for_of_map. reflexivity.
  - destruct (is_inherited interest); [congruence|reflexivity].
Qed.

Lemma loops_flatten (interests : list jsstring) (st : loop_state) :
  Forall (fun i => obj_get catalog i <> Builtin) interests ->
  for_of interests visit_interest st = for_of (candidates interests) visit st.
Proof.
  intros H; revert st; induction H as [|i interests Hi _ IH]; intros st;
    [reflexivity|].
  unfold candidates. simpl. rewrite for_of_app, (visit_interest_entries _ _ Hi).
  destruct (for_of _ visit st); simpl; [apply IH|reflexivity].
Qed.

Lemma loops_returned (interests : list jsstring) (st st' : loop_state) :
  for_of interests visit_interest st = Ret st' ->
  Forall (fun i => obj_get catalog i <> Builtin) interests.
Proof.
  revert st; induction interests as [|i interests IH]; intros st; simpl;
    [constructor|].
  destruct (visit_interest st i) as [st1|] eqn:E; [|discriminate].
  cbn [bind]. intros H. constructor; [|eauto].
  unfold visit_interest in E. intros K. rewrite K in E. discriminate.
Qed.

Lemma candidates_in (interests : list jsstring) (c : jsstring * CatalogItem) :
  In c (candidates interests) ->
  In (fst c) interests /\
  exists items, own_get catalog (fst c) = Some items /\ In (snd c) items.
Proof.
  unfold candidates. rewrite in_flat_map. intros (i & Hi & Hc).
  apply in_map_iff in Hc as (it & <- & Hit). cbn [fst snd]. split; [exact Hi|].
  unfold catalog_entries in Hit.
  destruct (own_get catalog i) as [items|]; [exists items; auto|contradiction].
Qed.

Lemma filter_filter_implied {A} (p q : A -> bool) (l : list A) :
  (forall x, p x = true -> q x = true) ->
  filter p (filter q l) = filter p l.
Proof.
  intros H; induction l as [|a l IH]; simpl; [reflexivity|].
  destruct (q a) eqn:Q; simpl.
  - destruct (p a); congruence.
  - destruct (p a) eqn:P; [|exact IH]. apply H in P. congruence.
Qed.

Lemma filter_filter_and {A} (p q : A -> bool) (l : list A) :
  filter p (filter q l) = filter (fun x => p x && q x) l.
Proof.
  induction l as [|a l IH]; simpl; [reflexivity|].
  destruct (q a); simpl; destruct (p a); simpl; congruence.
Qed.

Lemma filter_all {A} (p : A -> bool) (l : list A) :
  (forall x, p x = true) -> filter p l = l.
Proof.
  intros H; induction l as [|a l IH]; simpl; [reflexivity|].
  rewrite H. congruence.
Qed.

(** The loop pushes one record for every retained entry, in order. *)
Lemma loop_retained (cs : list (jsstring * CatalogItem)) :
  (forall c, In c cs -> forallb no_surrogate (item_requiredSkills (snd c)) = true) ->
  forall seen paths,
  exists seen' added,
    for_of cs visit (seen, paths) = Ret (seen', paths ++ added) /\
    Forall2 (fun c r => built_from (fst c) (snd c) r) (retained seen cs) added.
Proof.
  induction cs as [|c cs IH]; intros Hplain seen paths.
  - exists seen, []. rewrite app_nil_r. split; [reflexivity|constructor].
  - assert (Hc : forallb no_surrogate (item_requiredSkills (snd c)) = true)
      by (apply Hplain; left; reflexivity).
    assert (Hcs : forall c', In c' cs ->
              forallb no_surrogate (item_requiredSkills (snd c')) = true)
      by (intros; apply Hplain; right; assumption).
    destruct (visit_item_total (fst c) (seen, paths) (snd c) Hc) as [st1 E].
    cbn [for_of]. unfold visit at 1. rewrite E. cbn [bind].
    assert (Hhead : retained seen (c :: cs)
                    = if set_has seen (entry_name c)
                      then retained seen cs
                      else c :: retained (set_add seen (entry_name c)) cs).
    { unfold retained. cbn [first_seen filter].
      destruct (set_has seen (entry_name c)) eqn:Hs; cbn [negb].
      - apply filter_filter_implied.
        intros x Hx. apply negb_true_iff in Hx. apply negb_true_iff.
        apply jsstring_eqb_neq. intros K. unfold entry_name in *. congruence.
      - f_equal. rewrite filter_filter_and. apply filter_ext.
        intros x. rewrite set_has_add, negb_orb. reflexivity. }
    rewrite Hhead. unfold entry_name at 1 2.
    apply visit_item_cases in E as [[Hseen ->]|[Hseen (r & Hr & ->)]];
      rewrite Hseen.
    + destruct (IH Hcs seen paths) as (seen' & added & Hrun & Hall).
      exists seen', added. auto.
    + destruct (IH Hcs (set_add seen (item_careerPath (snd c))) (paths ++ [r]))
        as (seen' & added & Hrun & Hall).
      exists seen', (r :: added). split.
      { rewrite Hrun. now rewrite <- app_assoc. }
      constructor; assumption.
Qed.

Lemma retained_nothing_seen (cs : list (jsstring * CatalogItem)) :
  retained [] cs = first_seen cs.
Proof. unfold retained. apply filter_all. reflexivity. Qed.

(** [fallbackSuggestions] on interests that are not names inherited from
    [Object.prototype]: one record for every entry that first-seen-wins
    retains, in order; the generic record when there is none. *)
Lemma fallbackSuggestions_retained (interests : list jsstring) :
  Forall (fun i => obj_get catalog i <> Builtin) interests ->
  exists added,
    Forall2 (fun c r => built_from (fst c) (snd c) r)
            (first_seen (candidates interests)) added /\
    fallbackSuggestions interests
    = Ret (match added with [] => [generic_path] | _ :: _ => added end).
Proof.
  intros Hsafe.
  destruct (loop_retained (candidates interests)) with (seen := @nil jsstring)
    (paths := @nil CareerPath) as (seen' & added & Hrun & Hall).
  { intros c Hc. apply candidates_in in Hc as (_ & items & Hg & Hin).
    exact (catalog_item_plain _ _ _ Hg Hin). }
  exists added. rewrite retained_nothing_seen in Hall. split; [exact Hall|].
  unfold fallbackSuggestions. rewrite (loops_flatten _ _ Hsafe).
  unfold StringSet in *. rewrite Hrun.
  simpl. destruct added; reflexivity.
Qed.

Lemma not_inherited_safe (interest : jsstring) :
  is_inherited interest = false -> obj_get catalog interest <> Builtin.
Proof.
  unfold obj_get. intros ->. destruct (own_get catalog interest); discriminate.
Qed.

Lemma firstn_min_length {A} (n : nat) (l : list A) :
  firstn (Nat.min n (length l)) l = firstn n l.
Proof. now rewrite <- firstn_firstn, firstn_all. Qed.

(** On interests that are not names inherited from [Object.prototype],
    [fallbackSuggestions] returns, and its records are those of the entries
    looked up in input order and deduplicated by name, first seen wins,
    each tagged with the interest it was found under. *)
Lemma fallbackSuggestions_first_seen (interests : list jsstring) :
  Forall (fun i => is_inherited i = false) interests ->
  exists paths,
    fallbackSuggestions interests = Ret paths /\
    match first_seen (candidates interests) with
    | [] => paths = [generic_path]
    | kept =>
        map (fun r => (careerPath r, tags r)) paths
        = map (fun c => (item_careerPath (snd c), [fst c])) kept
    end.
Proof.
  intros Hsafe.
  destruct (fallbackSuggestions_retained interests) as (added & Hall & Hrun).
  { eapply Forall_impl; [|exact Hsafe]. apply not_inherited_safe. }
  eexists. split; [exact Hrun|].
  destruct Hall as [|c r kept added Hcr Hall]; [reflexivity|].
  assert (forall cs rs,
             Forall2 (fun c r => built_from (fst c) (snd c) r) cs rs ->
             map (fun r => (careerPath r, tags r)) rs
             = map (fun c => (item_careerPath (snd c), [fst c])) cs) as K.
  { clear. induction 1 as [|c r cs rs (Hn & _ & _ & _ & _ & _ & _ & _ & Ht) _ IH];
      [reflexivity|].
    simpl. now rewrite Hn, Ht, IH. }
  apply K. constructor; assumption.
Qed.

Lemma fallbackSuggestions_first_seen_run :
  exists paths,
    fallbackSuggestions [js "Data Science"; js "Robotics"; js "Data Science"]
    = Ret paths /\
    map (fun r => (careerPath r, tags r)) paths
    = [ (js "Data Scientist", [js "Data Science"]);
        (js "Data Analyst", [js "Data Science"]) ].
Proof.
  apply (fallbackSuggestions_first_seen
           [js "Data Science"; js "Robotics"; js "Data Science"]).
  repeat constructor.
Defined.

(** The two runs of the Fallback Generator that the specification gives. *)
Example fallback_one_interest :
  exists paths,
    fallbackSuggestions [js "Artificial Intelligence"] = Ret paths /\
    length paths = 2 /\
    map careerPath paths = [js "Machine Learning Engineer"; js "AI Researcher"] /\
    Forall (fun r => tags r = [js "Artificial Intelligence"]) paths.
Proof.
  eexists. split; [vm_compute; reflexivity|].
  repeat split; repeat constructor.
Qed.

Example fallback_two_interests :
  exists paths,
    fallbackSuggestions [js "Artificial Intelligence"; js "Web Development"]
    = Ret paths /\
    length paths = 4 /\
    map careerPath paths
    = [ js "Machine Learning Engineer"; js "AI Researcher";
        js "Frontend Developer"; js "Full-Stack Developer" ].
Proof.
  eexists. split; [vm_compute; reflexivity|]. split; reflexivity.
Qed.

(** C3. The Fallback Generator is to look up each interest in the Catalog
    in input order, an interest absent from the Catalog contributing
    nothing.  The lookup [catalog[interest]] also finds the properties that
    the object literal inherits: [constructor] is no key of the Catalog, and
    with it among the interests the loop over the looked-up value throws
    instead of returning the two records of the first interest. *)
Theorem fallback_inherited_name_throws :
  own_get catalog (js "constructor") = None /\
  fallbackSuggestions [js "Artificial Intelligence"; js "constructor"]
  = Raise TypeError.
Proof. split; vm_compute; reflexivity. Qed.

(** Without a match in the Catalog, and no inherited name among the
    interests, the result is the one generic record. *)
Lemma fallback_no_match (interests : list jsstring) :
  Forall (fun i => obj_get catalog i = Missing) interests ->
  fallbackSuggestions interests = Ret [generic_path].
Proof.
  intros H. unfold fallbackSuggestions.
  assert (for_of interests visit_interest ([], []) = Ret ([], [])) as ->.
  { generalize (@nil jsstring, @nil CareerPath).
    induction H as [|i interests Hi _ IH]; intros st; [reflexivity|].
    cbn [for_of]. unfold visit_interest at 1. rewrite Hi. cbn [for_of bind].
    apply IH. }
  reflexivity.
Qed.

Example fallback_empty : fallbackSuggestions [] = Ret [generic_path].
Proof. reflexivity. Qed.

Example generic_path_lists :
  careerPath generic_path = js "Generalist Software Engineer" /\
  projectSuggestions generic_path = [] /\
  roadmap generic_path = [] /\
  skillGapReport generic_path = [].
Proof. repeat split. Qed.

(** C5. Interests that match no Catalog entry are to give the one generic
    record.  [hasOwnProperty] matches no Catalog entry, yet
    [catalog[interest]] finds the inherited method and the loop over it
    throws. *)
Theorem fallback_unmatched_inherited_name_throws :
  own_get catalog (js "hasOwnProperty") = None /\
  fallbackSuggestions [js "hasOwnProperty"] = Raise TypeError.
Proof. split; vm_compute; reflexivity. Qed.

(** The records of a run that returned. *)
Lemma fallbackSuggestions_returned (interests : list jsstring)
  (paths : list CareerPath) :
  fallbackSuggestions interests = Ret paths ->
  match first_seen (candidates interests) with
  | [] => paths = [generic_path]
  | kept => Forall2 (fun c r => built_from (fst c) (snd c) r) kept paths
  end.
Proof.
  intros H.
  assert (Forall (fun i => obj_get catalog i <> Builtin) interests) as Hsafe.
  { unfold fallbackSuggestions in H.
    destruct (for_of interests visit_interest ([], [])) as [st|] eqn:E;
      [|discriminate].
    exact (loops_returned _ _ _ E). }
  destruct (fallbackSuggestions_retained interests Hsafe) as (added & Hall & Hrun).
  rewrite Hrun in H. injection H as <-.
  destruct Hall; [reflexivity|]. constructor; assumption.
Qed.

(** C4. For every Catalog entry that the Fallback Generator retains, the
    record made for it has a skill-gap report over the first 3 required
    skills (all of them when there are fewer), each entry at level Beginner
    with exactly two course links, a YouTube search and a Coursera search
    whose query is the percent-encoded skill name (followed by the word
    tutorial for YouTube); it has one project suggestion from the fixed
    template, the fixed roadmap of three stages with two steps each, and
    the interest as its only tag. *)
Theorem fallback_record_shape (interests : list jsstring) (paths : list CareerPath) :
  fallbackSuggestions interests = Ret paths ->
  match first_seen (candidates interests) with
  | [] => paths = [generic_path]
  | kept =>
      Forall2
        (fun c r =>
           map skill (skillGapReport r) = firstn 3 (item_requiredSkills (snd c)) /\
           length (skillGapReport r) = Nat.min 3 (length (item_requiredSkills (snd c))) /\
           Forall
             (fun g =>
                yourLevel g = Beginner /\
                exists youtube coursera,
                  encodeURIComponent (skill g ++ js " tutorial") = Ret youtube /\
                  encodeURIComponent (skill g) = Ret coursera /\
                  recommendedCourses g =
                    [ {| course_title := skill g ++ js " Crash Course (YouTube)";
                         course_link :=
                           js "https://www.youtube.com/results?search_query=" ++ youtube |};
                      {| course_title := skill g ++ js " Specialization (Coursera)";
                         course_link :=
                           js "https://www.coursera.org/search?query=" ++ coursera |} ])
             (skillGapReport r) /\
           projectSuggestions r =
             [ {| project_title := item_careerPath (snd c) ++ js " Portfolio Project";
                  project_description :=
                    js "Build and deploy a production-ready project demonstrating core skills.";
                  project_link := js "https://roadmap.sh" |} ] /\
           roadmap r =
             [ {| milestone_title := js "Foundations";
                  steps := [js "Learn fundamentals"; js "Build mini-projects"] |};
               {| milestone_title := js "Intermediate";
                  steps := [js "Take a specialization"; js "Build a capstone"] |};
               {| milestone_title := js "Advanced";
                  steps := [js "Contribute to open source"; js "Apply for internships"] |} ] /\
           tags r = [fst c])
        kept paths
  end.
Proof.
  intros H. apply fallbackSuggestions_returned in H.
  destruct (first_seen (candidates interests)) as [|c kept]; [exact H|].
  eapply Forall2_impl; [|exact H].
  intros c' r (_ & _ & _ & _ & Hgap & Hbuilt & Hproj & Hroad & Htags).
  rewrite firstn_min_length in Hgap.
  repeat split; auto.
  rewrite <- (length_map skill), Hgap, length_firstn. reflexivity.
Qed.

Lemma fallback_record_shape_witness :
  Forall (fun r => length (skillGapReport r) = 3 /\
                   tags r = [js "Game Development"]) game_paths.
Proof.
  pose proof (fallback_record_shape [js "Game Development"] game_paths eq_refl) as H.
  cbv beta iota in H.
  assert (first_seen (candidates [js "Game Development"])
          = [ (js "Game Development",
               item "Game Developer" ["Unity/Unreal"; "C# or C++"; "Game Physics"; "3D Math"]);
              (js "Game Development",
               item "Technical Artist" ["Shaders"; "3D Pipelines"; "Scripting"; "Rendering"]) ]%string)
    as E by reflexivity.
  rewrite E in H.
  inversion H as [|c1 r1 cs1 rs1 H1 Hrest]; subst.
  inversion Hrest as [|c2 r2 cs2 rs2 H2 Hnil]; subst.
  inversion Hnil; subst.
  destruct H1 as (_ & L1 & _ & _ & _ & T1).
  destruct H2 as (_ & L2 & _ & _ & _ & T2).
  repeat constructor; assumption.
Defined.

(** C10. For every record that the Fallback Generator makes from a Catalog
    entry, [missingSkills] is the whole list of required skills of the
    entry, and [weakSkills] is the list of the skills of the record's
    skill-gap report, the first min(3, n) required skills. *)
Theorem fallback_missing_weak_skills (interests : list jsstring)
  (paths : list CareerPath) :
  fallbackSuggestions interests = Ret paths ->
  match first_seen (candidates interests) with
  | [] => paths = [generic_path]
  | kept =>
      Forall2
        (fun c r =>
           missingSkills r = item_requiredSkills (snd c) /\
           weakSkills r = map skill (skillGapReport r) /\
           weakSkills r =
             firstn (Nat.min 3 (length (item_requiredSkills (snd c))))
                    (item_requiredSkills (snd c)))
        kept paths
  end.
Proof.
  intros H. apply fallbackSuggestions_returned in H.
  destruct (first_seen (candidates interests)) as [|c kept]; [exact H|].
  eapply Forall2_impl; [|exact H].
  intros c' r (_ & _ & Hmiss & Hweak & Hgap & _).
  repeat split; congruence.
Qed.

Lemma fallback_missing_weak_skills_witness :
  Forall2
    (fun c r =>
       missingSkills r = item_requiredSkills (snd c) /\
       weakSkills r = map skill (skillGapReport r) /\
       weakSkills r =
         firstn (Nat.min 3 (length (item_requiredSkills (snd c))))
                (item_requiredSkills (snd c)))
    [ (js "Game Development",
       item "Game Developer" ["Unity/Unreal"; "C# or C++"; "Game Physics"; "3D Math"]);
      (js "Game Development",
       item "Technical Artist" ["Shaders"; "3D Pipelines"; "Scripting"; "Rendering"]) ]%string
    game_paths.
Proof.
  exact (fallback_missing_weak_skills [js "Game Development"] game_paths eq_refl).
Defined.

(** ** The flows *)

Lemma fallbackSuggestions_total (interests : list jsstring) :
  Forall (fun i => is_inherited i = false) interests ->
  exists paths, fallbackSuggestions interests = Ret paths.
Proof.
  intros H. destruct (fallbackSuggestions_first_seen interests H) as (paths & E & _).
  eauto.
Qed.

(** C1, as it is stated, fails on the second definition of the flow, which
    has neither the [try] nor the fallback: a failure of the model call
    reaches the caller, and an empty normalized sequence is returned as it
    is, without [resumeInsights]. *)
Lemma analyze_plain_counterexample :
  (forall max_spread : nat,
      outcome (analyzeStudentProfileFlow_plain max_spread
                 (fun _ => Raise (ModelError (js "503 Service Unavailable")))
                 (sample_input [js "Data Science"]))
      = Raise (ModelError (js "503 Service Unavailable"))) /\
  (forall max_spread : nat,
      outcome (analyzeStudentProfileFlow_plain max_spread
                 (fun _ => Ret (VString (json_text "{'suggestedCareerPaths':[]}")))
                 (sample_input [js "Data Science"]))
      = Ret {| suggestedCareerPaths := ModelPaths []; resumeInsights := None |}).
Proof. split; intros max_spread; vm_compute; reflexivity. Qed.

(** In the first definition, the fallback itself throws for an interest
    that names a property inherited from [Object.prototype], from the
    [catch] block too, and the exception reaches the caller. *)
Example analyze_inherited_name_throws :
  analyzeStudentProfileFlow 100
    (fun _ => Raise (ModelError (js "503 Service Unavailable")))
    (sample_input [js "constructor"])
  = {| console := [ModelError (js "503 Service Unavailable")];
       outcome := Raise TypeError |}.
Proof. vm_compute. reflexivity. Qed.

(** In the first definition [normalize] runs inside the [try]: the
    [RangeError] of its spread is logged and answered with the fallback;
    in the second definition it reaches the caller. *)
Example analyze_spread_overflow :
  let output := VObject [(js "a", VArray [VNull; VNull; VNull])] in
  (exists paths,
      fallbackSuggestions [js "Data Science"] = Ret paths /\
      analyzeStudentProfileFlow 2 (fun _ => Ret output)
        (sample_input [js "Data Science"])
      = {| console := [RangeError];
           outcome := Ret {| suggestedCareerPaths := LocalPaths paths;
                             resumeInsights := Some unavailable_insights |} |}) /\
  analyzeStudentProfileFlow_plain 2 (fun _ => Ret output)
    (sample_input [js "Data Science"])
  = {| console := []; outcome := Raise RangeError |}.
Proof. split; [eexists; split|]; vm_compute; reflexivity. Qed.

(** C1, amended. In the first definition of the flow, for every profile
    whose interests name no property inherited from [Object.prototype]:
    when the model call returns and the normalized sequence is not empty,
    the result is that sequence as it is, without [resumeInsights]; when
    the normalized sequence is empty, the result is the output of the
    Fallback Generator over the interests with the fixed insights whose
    [cons] tell that the output of the model was empty; when the model call
    throws, or [normalize] after it, the exception is logged and the result
    is the output of the Fallback Generator with the fixed insights whose
    [cons] tell that the live service was unavailable; no exception reaches
    the caller.  The second definition of the flow has no fallback: it
    returns the normalized sequence, empty or not, without
    [resumeInsights], and an exception of the model call, or of
    [normalize], reaches the caller. *)
Theorem analyze_result (max_spread : nat)
  (analyzeProfilePrompt : AnalyzeStudentProfileInput -> result value)
  (input : AnalyzeStudentProfileInput) :
  Forall (fun i => is_inherited i = false) (interests input) ->
  (exists paths,
      fallbackSuggestions (interests input) = Ret paths /\
      let unavailable err :=
        {| console := [err];
           outcome :=
             Ret {| suggestedCareerPaths := LocalPaths paths;
                    resumeInsights :=
                      Some {| pros := [js "Generated locally using interest-based defaults"];
                              cons := [js "Live AI service unavailable; results may be generic"] |} |} |}
      in
      match analyzeProfilePrompt input with
      | Ret output =>
          match normalize max_spread output with
          | Ret normalized =>
              analyzeStudentProfileFlow max_spread analyzeProfilePrompt input =
                {| console := [];
                   outcome :=
                     Ret (match normalized with
                          | [] =>
                              {| suggestedCareerPaths := LocalPaths paths;
                                 resumeInsights :=
                                   Some {| pros := [js "Basic profile analyzed"];
                                           cons := [js "AI output empty; used fallback"] |} |}
                          | _ :: _ =>
                              {| suggestedCareerPaths := ModelPaths normalized;
                                 resumeInsights := None |}
                          end) |}
          | Raise err =>
              analyzeStudentProfileFlow max_spread analyzeProfilePrompt input
              = unavailable err
          end
      | Raise err =>
          analyzeStudentProfileFlow max_spread analyzeProfilePrompt input
          = unavailable err
      end) /\
  match analyzeProfilePrompt input with
  | Ret output =>
      match normalize max_spread output with
      | Ret normalized =>
          analyzeStudentProfileFlow_plain max_spread analyzeProfilePrompt input =
            {| console := [];
               outcome := Ret {| suggestedCareerPaths := ModelPaths normalized;
                                 resumeInsights := None |} |}
      | Raise err =>
          analyzeStudentProfileFlow_plain max_spread analyzeProfilePrompt input =
            {| console := []; outcome := Raise err |}
      end
  | Raise err =>
      analyzeStudentProfileFlow_plain max_spread analyzeProfilePrompt input =
        {| console := []; outcome := Raise err |}
  end.
Proof.
  intros Hsafe.
  destruct (fallbackSuggestions_total _ Hsafe) as [paths Hpaths].
  unfold analyzeStudentProfileFlow, analyzeStudentProfileFlow_plain.
  split.
  - exists paths. split; [exact Hpaths|]. cbv zeta.
    destruct (analyzeProfilePrompt input) as [output|err]; cbn [bind].
    + destruct (normalize max_spread output) as [normalized|err]; cbn [bind].
      * destruct normalized; cbn [length Nat.eqb]; [|reflexivity].
        rewrite Hpaths. reflexivity.
      * rewrite Hpaths. reflexivity.
    + rewrite Hpaths. reflexivity.
  - destruct (analyzeProfilePrompt input) as [output|err]; cbn [bind];
      [|reflexivity].
    destruct (normalize max_spread output) as [normalized|err]; reflexivity.
Qed.

Lemma analyze_result_witness :
  exists paths,
    fallbackSuggestions [js "Data Science"] = Ret paths /\
    analyzeStudentProfileFlow 100
      (fun _ => Raise (ModelError (js "503 Service Unavailable")))
      (sample_input [js "Data Science"])
    = {| console := [ModelError (js "503 Service Unavailable")];
         outcome :=
           Ret {| suggestedCareerPaths := LocalPaths paths;
                  resumeInsights :=
                    Some {| pros := [js "Generated locally using interest-based defaults"];
                            cons := [js "Live AI service unavailable; results may be generic"] |} |} |}.
Proof.
  refine (proj1 (analyze_result 100
                   (fun _ => Raise (ModelError (js "503 Service Unavailable")))
                   (sample_input [js "Data Science"]) _)).
  repeat constructor.
Defined.

(** The end-to-end scenarios of the specification, on the first definition. *)
Example analyze_empty_model_output :
  exists paths,
    fallbackSuggestions [js "Web Development"] = Ret paths /\
    analyzeStudentProfileFlow 100
      (fun _ => Ret (VString (json_text "{'suggestedCareerPaths':[]}")))
      (sample_input [js "Web Development"])
    = {| console := [];
         outcome :=
           Ret {| suggestedCareerPaths := LocalPaths paths;
                  resumeInsights :=
                    Some {| pros := [js "Basic profile analyzed"];
                            cons := [js "AI output empty; used fallback"] |} |} |}.
Proof. eexists. split; vm_compute; reflexivity. Qed.

Example analyze_model_array :
  let five := [VObject [(js "careerPath", VString (js "A"))];
               VObject [(js "careerPath", VString (js "B"))];
               VObject [(js "careerPath", VString (js "C"))];
               VObject [(js "careerPath", VString (js "D"))];
               VObject [(js "careerPath", VString (js "E"))]] in
  analyzeStudentProfileFlow 100 (fun _ => Ret (VArray five)) (sample_input [])
  = {| console := [];
       outcome := Ret {| suggestedCareerPaths := ModelPaths five;
                         resumeInsights := None |} |}.
Proof. reflexivity. Qed.

(** ** The name of the exported PDF *)

Lemma replace_runs_cons (c : code_unit) (r : jsstring) :
  replace_runs (c :: r)
  = if file_name_char c then c :: replace_runs r else 95%N :: skip_run r.
Proof.
  simpl. destruct (file_name_char c); reflexivity.
Qed.

Lemma runs_cons (c : code_unit) (r : jsstring) :
  runs (c :: r)
  = match runs r with
    | (b, run) :: rest =>
        if Bool.eqb b (file_name_char c) then (b, c :: run) :: rest
        else (file_name_char c, [c]) :: (b, run) :: rest
    | [] => [(file_name_char c, [c])]
    end.
Proof. reflexivity. Qed.

(** The runs of a name are its maximal runs: together they are the name,
    each is uniform, and neighbours differ in kind. *)
Lemma runs_maximal (s : jsstring) :
  concat (map snd (runs s)) = s /\
  Forall uniform_run (runs s) /\
  alternating (runs s).
Proof.
  induction s as [|c r (Hcat & Huni & Halt)]; [simpl; auto|].
  rewrite runs_cons.
  destruct (runs r) as [|[b run] rest].
  - simpl in Hcat. subst r.
    split; [reflexivity|]. split; [|exact I].
    constructor; [|constructor]. split; [discriminate|].
    simpl. constructor; [reflexivity|constructor].
  - inversion Huni as [|x l [Hne Hall] Hrest]; subst x l. simpl in Hne, Hall.
    destruct (Bool.eqb b (file_name_char c)) eqn:E.
    + apply eqb_prop in E.
      split; [simpl in *; now rewrite Hcat|].
      split; [|exact Halt].
      constructor; [|exact Hrest]. split; [discriminate|].
      simpl. constructor; [symmetry; exact E|exact Hall].
    + apply eqb_false_iff in E.
      split; [simpl in *; now rewrite Hcat|].
      split.
      * constructor; [|exact Huni]. split; [discriminate|].
        simpl. constructor; [reflexivity|constructor].
      * split; [|exact Halt]. simpl. intros K. apply E. now rewrite K.
Qed.

Lemma replace_runs_by_runs (s : jsstring) :
  replace_runs s = flat_map render_run (runs s) /\
  skip_run s
  = flat_map render_run
      (match runs s with
       | (false, _) :: rest => rest
       | rs => rs
       end).
Proof.
  induction s as [|c r [IHr IHs]]; [split; reflexivity|].
  rewrite replace_runs_cons, runs_cons. cbn [skip_run].
  rewrite IHr, IHs.
  destruct (runs r) as [|[b run] rest]; destruct (file_name_char c) eqn:C;
    try (split; reflexivity);
    destruct b; simpl; split; reflexivity.
Qed.

Lemma replace_runs_chars (s : jsstring) :
  Forall (fun c => file_name_char c = true \/ c = 95%N) (replace_runs s) /\
  Forall (fun c => file_name_char c = true \/ c = 95%N) (skip_run s).
Proof.
  induction s as [|c r [IHr IHs]]; [split; constructor|].
  rewrite replace_runs_cons. cbn [skip_run].
  destruct (file_name_char c) eqn:C; split; auto.
Qed.

Lemma Forall_firstn {A} (P : A -> Prop) (n : nat) (l : list A) :
  Forall P l -> Forall P (firstn n l).
Proof.
  intros H; revert n; induction H as [|a l Ha _ IH]; intros [|n]; simpl;
    constructor; auto.
Qed.

(** C9. The file name of the PDF export of a career path is made from the
    sanitized career-path name: every maximal run of characters that are
    not ASCII letters, digits or hyphens is replaced (by one underscore),
    and the outcome is cut to at most 100 characters. *)
Theorem pdf_file_name_sanitized (path : PathNames) (name : jsstring) :
  pdf_file_name path
  = js "PathFinderAI_" ++ sanitizeFileName (export_name path) ++ js "_Report.pdf" /\
  export_name path
  = match path_careerPath path, path_name path with
    | Some (c :: n), _ => c :: n
    | _, Some (c :: n) => c :: n
    | _, _ => js "Career_Path"
    end /\
  sanitizeFileName name = sanitize_spec name /\
  (concat (map snd (runs name)) = name /\
   Forall uniform_run (runs name) /\
   alternating (runs name)) /\
  length (sanitizeFileName name) <= 100 /\
  Forall (fun c => is_alpha c || is_digit c || N.eqb c 45 = true \/ c = 95%N)
         (sanitizeFileName name).
Proof.
  split; [reflexivity|].
  split.
  { unfold export_name, or_else.
    destruct (path_careerPath path) as [[|c n]|], (path_name path) as [[|d m]|];
      reflexivity. }
  split.
  { unfold sanitizeFileName, sanitize_spec.
    now rewrite (proj1 (replace_runs_by_runs name)). }
  split; [apply runs_maximal|].
  split.
  { unfold sanitizeFileName. rewrite length_firstn. apply Nat.le_min_l. }
  unfold sanitizeFileName. apply Forall_firstn.
  exact (proj1 (replace_runs_chars name)).
Qed.

Example pdf_file_name_run :
  pdf_file_name {| path_careerPath := Some (js "C# or C++ / UI-UX  Designer!");
                   path_name := None |}
  = js "PathFinderAI_C_or_C_UI-UX_Designer__Report.pdf".
Proof. vm_compute. reflexivity. Qed.

Example pdf_file_name_default :
  pdf_file_name {| path_careerPath := Some []; path_name := None |}
  = js "PathFinderAI_Career_Path_Report.pdf".
Proof. vm_compute. reflexivity. Qed.

(** * Further properties of the code *)

(** ** [normalize]: what it returns and where the elements come from *)

(** X1. Unless what [normalize] looks at (the decoded text for a text that
    is JSON, the input otherwise) is an array or an object, the result is
    the empty sequence: a text that is not JSON, a text that decodes to a
    string, a number, a boolean or [null], and every input that is
    [undefined], [null], a boolean or a number. *)
Theorem normalize_scalar_empty (max_spread : nat) (raw : value) :
  match decoded raw with
  | VArray _ | VObject _ => True
  | _ => normalize max_spread raw = Ret []
  end.
Proof.
  unfold normalize. rewrite parse_step. cbn [bind].
  destruct (decoded raw); cbn [as_array]; try exact I;
    rewrite !guarded_array_field; cbn [bind array_field];
    destruct (truthy _ && typeof_object _); reflexivity.
Qed.

Lemma collect_from_sound (max_spread : nat) (props : list (jsstring * value))
  (keys : list jsstring) (acc arrays : list value) (x : value) :
  collect_from max_spread props keys acc = Ret arrays ->
  In x arrays ->
  In x acc \/ exists k es, In (k, VArray es) props /\ In x es.
Proof.
  revert acc; induction keys as [|k keys IH]; intros acc; cbn [collect_from].
  - intros H; injection H as <-. auto.
  - unfold obj_get.
    destruct (own_get props k) as [v|] eqn:E.
    + destruct v; cbn [lookup_array as_array]; try apply IH.
      unfold push_spread.
      destruct (length elems <=? max_spread)%nat; cbn [bind]; [|discriminate].
      intros H Hx. destruct (IH _ H Hx) as [Hacc|Hf]; [|auto].
      apply in_app_or in Hacc as [Hacc|Hacc]; [auto|].
      right. exists k, elems. split; [exact (own_get_In _ _ _ E)|exact Hacc].
    + destruct (is_inherited k); cbn [lookup_array]; apply IH.
Qed.

Lemma array_field_In (k : jsstring) (props : list (jsstring * value))
  (es : list value) :
  array_field k (VObject props) = Some es -> In (k, VArray es) props.
Proof.
  simpl. destruct (own_get props k) as [v|] eqn:E; [|discriminate].
  destruct v; try discriminate. intros H; injection H as <-.
  exact (own_get_In _ _ _ E).
Qed.

(** X2. [normalize] invents nothing: every element it returns is an
    element of the array it was given (or decoded), or an element of an
    array-valued field of the object it was given (or decoded). *)
Theorem normalize_elements_from_input (max_spread : nat) (raw : value)
  (paths : list value) (x : value) :
  normalize max_spread raw = Ret paths ->
  In x paths ->
  match decoded raw with
  | VArray es => In x es
  | VObject props => exists k es, In (k, VArray es) props /\ In x es
  | _ => False
  end.
Proof.
  unfold normalize. rewrite parse_step. cbn [bind].
  destruct (decoded raw) as [| | | | |es|props]; cbn [as_array];
    try (rewrite !guarded_array_field; cbn [bind array_field];
         destruct (truthy _ && typeof_object _);
         intros H; injection H as <-; intros []).
  - intros H; injection H as <-. auto.
  - rewrite guarded_array_field. cbn [bind].
    destruct (array_field (js "suggestedCareerPaths") (VObject props)) as [es|] eqn:E1.
    { intros H; injection H as <-. intros Hx.
      exists (js "suggestedCareerPaths"), es. split; [apply array_field_In, E1|exact Hx]. }
    rewrite guarded_array_field. cbn [bind].
    destruct (array_field (js "careerPaths") (VObject props)) as [es|] eqn:E2.
    { intros H; injection H as <-. intros Hx.
      exists (js "careerPaths"), es. split; [apply array_field_In, E2|exact Hx]. }
    cbn [truthy typeof_object andb]. unfold collect_arrays.
    destruct (collect_from max_spread props (object_keys props) [])
      as [arrays|e] eqn:E; cbn [bind]; [|discriminate].
    destruct (0 <? length arrays)%nat;
      intros H; injection H as <-; [|intros []].
    intros Hx.
    destruct (collect_from_sound _ _ _ _ _ _ E Hx) as [[]|Hf]. exact Hf.
Qed.

Lemma normalize_elements_from_input_witness :
  exists k es,
    In (k, VArray es)
       [ (js "note", VString (js "n")); (js "paths", VArray [VBool true; VNull]) ] /\
    In VNull es.
Proof.
  apply (normalize_elements_from_input 100
           (VObject [ (js "note", VString (js "n"));
                      (js "paths", VArray [VBool true; VNull]) ])
           [VBool true; VNull] VNull).
  - vm_compute. reflexivity.
  - simpl. auto.
Defined.

(** X3. The flattening merges every array-valued field: for an object with
    no array under [suggestedCareerPaths] or [careerPaths], whose
    array-valued fields have no more elements each than a call takes
    arguments, [normalize] returns, and every element of every
    array-valued field is in the result, whatever the field is called. *)
Theorem normalize_flatten_takes_all (max_spread : nat)
  (props : list (jsstring * value))
  (k : jsstring) (es : list value) (x : value) :
  NoDup (map fst props) ->
  array_field (js "suggestedCareerPaths") (VObject props) = None ->
  array_field (js "careerPaths") (VObject props) = None ->
  Forall (fun field => length field <= max_spread) (array_valued_fields props) ->
  In (k, VArray es) props ->
  In x es ->
  exists paths, normalize max_spread (VObject props) = Ret paths /\ In x paths.
Proof.
  intros ND E1 E2 Hfit Hk Hx.
  assert (In x (concat (array_valued_fields props))) as Hin.
  { apply in_concat. exists es. split; [|exact Hx].
    unfold array_valued_fields. apply in_flat_map.
    exists (k, VArray es). split; [exact Hk|simpl; auto]. }
  exists (concat (array_valued_fields props)). split; [|exact Hin].
  unfold normalize. cbn [try_catch bind as_array].
  rewrite !guarded_array_field, E1. cbn [bind]. rewrite E2. cbn [bind].
  cbn [truthy typeof_object andb].
  rewrite (collect_arrays_outcome _ _ ND).
  replace (existsb (fun es0 => (max_spread <? length es0)%nat)
             (array_valued_fields props)) with false.
  - cbn [bind].
    destruct (concat (array_valued_fields props)); [destruct Hin|reflexivity].
  - symmetry. apply not_true_is_false. intros Hex.
    apply existsb_exists in Hex as (field & Hfield & Hlong).
    apply Nat.ltb_lt in Hlong.
    rewrite Forall_forall in Hfit. specialize (Hfit field Hfield). lia.
Qed.

Lemma normalize_flatten_takes_all_witness :
  exists paths,
    normalize 2 (VObject [ (js "paths", VArray [VBool true; VNull]);
                           (js "warnings", VArray [VString (js "w")]) ])
    = Ret paths /\
    In (VString (js "w")) paths.
Proof.
  apply (normalize_flatten_takes_all 2
           [ (js "paths", VArray [VBool true; VNull]);
             (js "warnings", VArray [VString (js "w")]) ]
           (js "warnings") [VString (js "w")] (VString (js "w"))).
  - repeat constructor; simpl; intuition discriminate.
  - reflexivity.
  - reflexivity.
  - repeat constructor.
  - simpl. auto.
  - simpl. auto.
Defined.

(** X25. For every value whose objects list each key once, [normalize]
    throws exactly when its flattening is reached (the value, decoded when
    it is a JSON text, is an object with no array under
    [suggestedCareerPaths] or [careerPaths]) and one of the array-valued
    fields has more elements than a call takes arguments; what it throws
    is a [RangeError].  In every other case it returns what the decision
    tree of the Response Normalizer gives. *)
Theorem normalize_throws_or_follows_tree (max_spread : nat) (raw : value) :
  distinct_keys raw ->
  normalize max_spread raw
  = if spread_overflows max_spread (decoded raw)
    then Raise RangeError
    else Ret (normalize_spec raw).
Proof. exact (normalize_by_tree max_spread raw). Qed.

Lemma normalize_throws_or_follows_tree_witness :
  let raw := VObject [ (js "skills", VArray [VString (js "x")]);
                       (js "level", VNumber (Number false 3 0));
                       (js "paths", VArray [VNull; VBool true]) ] in
  normalize 2 raw = Ret [VString (js "x"); VNull; VBool true].
Proof.
  apply (normalize_throws_or_follows_tree 2
           (VObject [ (js "skills", VArray [VString (js "x")]);
                      (js "level", VNumber (Number false 3 0));
                      (js "paths", VArray [VNull; VBool true]) ])).
  simpl. repeat constructor; simpl; intuition discriminate.
Defined.

(** ** [fallbackSuggestions]: what the result always is *)

Lemma filter_keeps_distinct {A B} (key : A -> B) (keep : A -> bool) (xs : list A)
  (D : NoDup (map key xs)) :
  NoDup (map key (filter keep xs)).
Proof.
  induction xs as [|a xs IH]; simpl; [exact D|].
  inversion D as [|x xs' Hnot Hnd]; subst.
  destruct (keep a); simpl; [|auto].
  constructor; [|auto].
  intros K. apply Hnot. apply in_map_iff in K as (y & Hy & Hin).
  apply filter_In in Hin as [Hin _]. apply in_map_iff. eauto.
Qed.

Lemma first_seen_distinct (cs : list (jsstring * CatalogItem)) :
  NoDup (map entry_name (first_seen cs)).
Proof.
  induction cs as [|c cs IH]; simpl; constructor.
  - intros K. apply in_map_iff in K as (d & Hd & Hin).
    apply filter_In in Hin as [_ Hne].
    apply negb_true_iff, jsstring_eqb_neq in Hne. apply Hne.
    unfold entry_name in Hd. congruence.
  - apply filter_keeps_distinct, IH.
Qed.

Lemma first_seen_incl (cs : list (jsstring * CatalogItem)) :
  incl (first_seen cs) cs.
Proof.
  induction cs as [|c cs IH]; simpl; [apply incl_refl|].
  intros d [->|Hd]; [left; reflexivity|].
  apply filter_In in Hd as [Hd _]. right. auto.
Qed.

Lemma first_seen_length (cs : list (jsstring * CatalogItem)) :
  length (first_seen cs) <= length cs.
Proof.
  induction cs as [|c cs IH]; simpl; [lia|].
  pose proof (filter_length_le
                (fun d => negb (jsstring_eqb (item_careerPath (snd d))
                                             (item_careerPath (snd c))))
                (first_seen cs)).
  lia.
Qed.

Lemma built_names (cs : list (jsstring * CatalogItem)) (rs : list CareerPath) :
  Forall2 (fun c r => built_from (fst c) (snd c) r) cs rs ->
  map careerPath rs = map entry_name cs.
Proof.
  induction 1 as [|c r cs rs (Hn & _) _ IH]; [reflexivity|].
  simpl. unfold entry_name at 1. congruence.
Qed.

(** X4. The career-path names of a result are pairwise different. *)
Theorem fallback_names_distinct (interests : list jsstring) (paths : list CareerPath) :
  fallbackSuggestions interests = Ret paths ->
  NoDup (map careerPath paths).
Proof.
  intros H. apply fallbackSuggestions_returned in H.
  pose proof (first_seen_distinct (candidates interests)) as ND.
  destruct (first_seen (candidates interests)) as [|c kept].
  - subst paths. repeat constructor. intros [].
  - now rewrite (built_names _ _ H).
Qed.

Lemma fallback_names_distinct_witness : NoDup (map careerPath game_paths).
Proof.
  exact (fallback_names_distinct [js "Game Development"] game_paths eq_refl).
Defined.

Lemma catalog_entries_two (interest : jsstring) :
  length (catalog_entries interest) <= 2.
Proof.
  unfold catalog_entries.
  destruct (own_get catalog interest) as [items|] eqn:E; [|simpl; lia].
  apply own_get_In in E.
  assert (forallb (fun entry => (length (snd entry) <=? 2)%nat) catalog = true)
    as K by (vm_compute; reflexivity).
  rewrite forallb_forall in K. specialize (K _ E). simpl in K.
  now apply Nat.leb_le.
Qed.

Lemma candidates_length (interests : list jsstring) :
  length (candidates interests) <= 2 * length interests.
Proof.
  induction interests as [|i l IH]; [simpl; lia|].
  unfold candidates in *. cbn [flat_map]. rewrite length_app, length_map.
  pose proof (catalog_entries_two i). cbn [length]. lia.
Qed.

Lemma candidates_names (interests : list jsstring) :
  incl (map entry_name (candidates interests)) catalog_names.
Proof.
  intros n Hn. apply in_map_iff in Hn as (c & <- & Hc).
  apply candidates_in in Hc as (_ & items & Hg & Hin).
  apply own_get_In in Hg.
  unfold catalog_names. apply in_flat_map.
  exists (fst c, items). split; [exact Hg|].
  simpl. apply in_map_iff. exists (snd c). auto.
Qed.

(** X5. A result has at most 16 records, and at most two for each
    interest given (one record when no interest is given). *)
Theorem fallback_size (interests : list jsstring) (paths : list CareerPath) :
  fallbackSuggestions interests = Ret paths ->
  1 <= length paths /\
  length paths <= 16 /\
  length paths <= Nat.max 1 (2 * length interests).
Proof.
  intros H. apply fallbackSuggestions_returned in H.
  pose proof (first_seen_distinct (candidates interests)) as ND.
  pose proof (first_seen_length (candidates interests)) as L1.
  pose proof (candidates_length interests) as L2.
  pose proof (first_seen_incl (candidates interests)) as I1.
  destruct (first_seen (candidates interests)) as [|c kept] eqn:E.
  - subst paths. cbn [length]. lia.
  - rewrite <- (length_map careerPath), (built_names _ _ H), length_map.
    repeat split.
    + cbn [length]. lia.
    + change 16 with (length catalog_names).
      rewrite <- (length_map entry_name).
      apply NoDup_incl_length; [exact ND|].
      intros n Hn. apply candidates_names with (interests := interests).
      apply in_map_iff in Hn as (d & <- & Hd). apply in_map, I1, Hd.
    + lia.
Qed.

Lemma fallback_size_witness :
  1 <= length game_paths /\
  length game_paths <= 16 /\
  length game_paths <= Nat.max 1 (2 * length [js "Game Development"]).
Proof.
  exact (fallback_size [js "Game Development"] game_paths eq_refl).
Defined.

Lemma visit_item_marks (interest : jsstring) (st st' : loop_state) (it : CatalogItem) :
  visit_item interest st it = Ret st' ->
  set_has (fst st') (item_careerPath it) = true /\
  forall x, set_has (fst st) x = true -> set_has (fst st') x = true.
Proof.
  destruct st as [seen paths]. intros H.
  apply visit_item_cases in H as [[Hs ->]|[Hs (r & _ & ->)]]; cbn [fst].
  - auto.
  - split.
    + now rewrite set_has_add, jsstring_eqb_refl, orb_true_r.
    + intros x Hx. now rewrite set_has_add, Hx.
Qed.

Lemma items_loop_marks (interest : jsstring) (items : list CatalogItem) :
  forall st st',
    for_of items (visit_item interest) st = Ret st' ->
    (forall it, In it items -> set_has (fst st') (item_careerPath it) = true) /\
    (forall x, set_has (fst st) x = true -> set_has (fst st') x = true).
Proof.
  induction items as [|it items IH]; intros st st'; cbn [for_of].
  - intros H; injection H as <-. split; [intros ? []|auto].
  - destruct (visit_item interest st it) as [st1|] eqn:E; [|discriminate].
    cbn [bind]. intros H. apply visit_item_marks in E as [E1 E2].
    apply IH in H as [H1 H2]. split; [|auto].
    intros it' [<-|Hin]; auto.
Qed.

Lemma items_loop_seen (interest : jsstring) (items : list CatalogItem)
  (st : loop_state) :
  (forall it, In it items -> set_has (fst st) (item_careerPath it) = true) ->
  for_of items (visit_item interest) st = Ret st.
Proof.
  induction items as [|it items IH]; intros H; cbn [for_of]; [reflexivity|].
  destruct st as [seen paths]. unfold visit_item at 1. cbn [fst] in H.
  rewrite (H it) by (left; reflexivity). cbn [bind].
  apply IH. intros; apply H; right; assumption.
Qed.

Lemma visit_interest_marks (st st' : loop_state) (interest : jsstring) :
  visit_interest st interest = Ret st' ->
  marked st' interest /\
  (forall x, set_has (fst st) x = true -> set_has (fst st') x = true).
Proof.
  unfold visit_interest, marked, catalog_entries, obj_get.
  destruct (own_get catalog interest) as [items|].
  - intros H. apply items_loop_marks in H as [H1 H2].
    repeat split; auto; discriminate.
  - destruct (is_inherited interest); [discriminate|].
    cbn [for_of]. intros H; injection H as <-.
    repeat split; auto; try discriminate; try (intros ? []).
Qed.

Lemma marked_visit (st : loop_state) (interest : jsstring) :
  marked st interest -> visit_interest st interest = Ret st.
Proof.
  intros [Hsafe Hseen]. rewrite (visit_interest_entries _ _ Hsafe), for_of_map.
  apply (items_loop_seen interest). exact Hseen.
Qed.

Lemma interests_loop_marks (interests : list jsstring) :
  forall st st',
    for_of interests visit_interest st = Ret st' ->
    (forall i, In i interests -> marked st' i) /\
    (forall x, set_has (fst st) x = true -> set_has (fst st') x = true).
Proof.
  induction interests as [|i l IH]; intros st st'; cbn [for_of].
  - intros H; injection H as <-. split; [intros ? []|auto].
  - destruct (visit_interest st i) as [st1|] eqn:E; [|discriminate].
    cbn [bind]. intros H. apply visit_interest_marks in E as [[E0 E1] E2].
    apply IH in H as [H1 H2]. split; [|auto].
    intros j [<-|Hin]; [|auto]. split; auto.
Qed.

(** X6. An interest that is given again adds nothing: dropping a later
    occurrence of an interest does not change what [fallbackSuggestions]
    returns (or throws). *)
Theorem fallback_repeated_interest (before after : list jsstring) (interest : jsstring) :
  In interest before ->
  fallbackSuggestions (before ++ interest :: after)
  = fallbackSuggestions (before ++ after).
Proof.
  intros Hin. unfold fallbackSuggestions. f_equal.
  rewrite !for_of_app.
  destruct (for_of before visit_interest ([], [])) as [st|e] eqn:E;
    [|reflexivity].
  cbn [bind for_of].
  apply interests_loop_marks in E as [E _].
  now rewrite (marked_visit _ _ (E _ Hin)).
Qed.

Lemma fallback_repeated_interest_witness :
  fallbackSuggestions [js "Data Science"; js "Cybersecurity"; js "Data Science"]
  = fallbackSuggestions [js "Data Science"; js "Cybersecurity"].
Proof.
  apply (fallback_repeated_interest [js "Data Science"; js "Cybersecurity"] []
           (js "Data Science")).
  simpl. auto.
Defined.

Lemma distinctb_NoDup (l : list jsstring) : distinctb l = true -> NoDup l.
Proof.
  induction l as [|x l IH]; simpl; [constructor|].
  intros H. apply andb_prop in H as [Hx Hl]. constructor; [|auto].
  intros K. apply negb_true_iff in Hx.
  assert (existsb (jsstring_eqb x) l = true) as C.
  { apply existsb_exists. exists x. split; [exact K|apply jsstring_eqb_refl]. }
  congruence.
Qed.

Lemma first_seen_id (cs : list (jsstring * CatalogItem)) :
  NoDup (map entry_name cs) -> first_seen cs = cs.
Proof.
  induction cs as [|c cs IH]; [reflexivity|].
  cbn [map first_seen]. intros H. inversion H as [|x xs Hnot Hnd]; subst.
  rewrite (IH Hnd). f_equal.
  apply forallb_filter_id. apply forallb_forall. intros d Hd.
  apply negb_true_iff, jsstring_eqb_neq. intros K. apply Hnot.
  apply in_map_iff. exists d. split; [exact K|exact Hd].
Qed.

Lemma catalog_owner (interest : jsstring) (items : list CatalogItem) (it : CatalogItem) :
  own_get catalog interest = Some items -> In it items ->
  career_owner (item_careerPath it) = Some interest /\
  NoDup (map item_careerPath items) /\
  length items = 2 /\
  4 <= length (item_requiredSkills it).
Proof.
  intros Hg Hin. apply own_get_In in Hg.
  assert (forallb
            (fun entry =>
               forallb (fun it =>
                          match career_owner (item_careerPath it) with
                          | Some i => jsstring_eqb i (fst entry)
                          | None => false
                          end
                          && (4 <=? length (item_requiredSkills it))%nat)
                       (snd entry)
               && distinctb (map item_careerPath (snd entry))
               && (length (snd entry) =? 2)%nat)
            catalog = true) as K by (vm_compute; reflexivity).
  rewrite forallb_forall in K. specialize (K _ Hg). cbn [fst snd] in K.
  apply andb_prop in K as [K K3]. apply andb_prop in K as [K1 K2].
  rewrite forallb_forall in K1. specialize (K1 _ Hin).
  apply andb_prop in K1 as [K1 K4].
  repeat split.
  - destruct (career_owner (item_careerPath it)); [|discriminate].
    apply jsstring_eqb_eq in K1. congruence.
  - apply distinctb_NoDup, K2.
  - now apply Nat.eqb_eq.
  - now apply Nat.leb_le.
Qed.

Lemma candidates_distinct (interests : list jsstring) :
  NoDup interests -> NoDup (map entry_name (candidates interests)).
Proof.
  induction 1 as [|i l Hnot _ IH]; [constructor|].
  unfold candidates in *. cbn [flat_map]. rewrite map_app.
  apply NoDup_app; [| exact IH |].
  - rewrite map_map. unfold entry_name. cbn [snd].
    unfold catalog_entries.
    destruct (own_get catalog i) as [items|] eqn:E; [|constructor].
    destruct items as [|it items]; [constructor|].
    exact (proj1 (proj2 (catalog_owner _ _ it E (or_introl eq_refl)))).
  - intros n H1 H2.
    apply in_map_iff in H1 as (c1 & <- & H1).
    apply in_map_iff in H1 as (it1 & <- & H1).
    apply in_map_iff in H2 as (c2 & E2 & H2).
    apply (candidates_in l) in H2 as (Hl & items2 & Hg2 & Hin2).
    unfold catalog_entries in H1.
    destruct (own_get catalog i) as [items1|] eqn:Hg1; [|destruct H1].
    pose proof (proj1 (catalog_owner _ _ _ Hg1 H1)) as O1.
    pose proof (proj1 (catalog_owner _ _ _ Hg2 Hin2)) as O2.
    unfold entry_name in E2. cbn [snd] in E2. rewrite E2 in O2.
    unfold entry_name in O1. cbn [snd] in O1.
    assert (i = fst c2) by congruence. subst i. contradiction.
Qed.

Lemma candidates_count (interests : list jsstring) :
  length (candidates interests) = 2 * length (filter is_catalog_key interests).
Proof.
  induction interests as [|i l IH]; [reflexivity|].
  unfold candidates in *. cbn [flat_map filter]. rewrite length_app, length_map, IH.
  unfold is_catalog_key, catalog_entries.
  destruct (own_get catalog i) as [items|] eqn:E; cbn [length]; [|lia].
  destruct items as [|it items].
  - pose proof (own_get_In _ _ _ E) as Hin.
    assert (forallb (fun entry => (length (snd entry) =? 2)%nat) catalog = true)
      as K by (vm_compute; reflexivity).
    rewrite forallb_forall in K. specialize (K _ Hin). discriminate K.
  - pose proof (catalog_owner _ _ it E (or_introl eq_refl)) as (_ & _ & L & _).
    lia.
Qed.

(** X7. For interests given once each, nothing is dropped: the result has
    exactly two records for every interest that the Catalog lists, and the
    one generic record when it lists none of them. *)
Theorem fallback_two_per_interest (interests : list jsstring) (paths : list CareerPath) :
  NoDup interests ->
  fallbackSuggestions interests = Ret paths ->
  length paths
  = match length (filter is_catalog_key interests) with
    | 0 => 1
    | S n => 2 * S n
    end.
Proof.
  intros ND H. apply fallbackSuggestions_returned in H.
  rewrite (first_seen_id _ (candidates_distinct _ ND)) in H.
  pose proof (candidates_count interests) as L.
  destruct (candidates interests) as [|c cs].
  - subst paths. cbn [length] in *.
    destruct (length (filter is_catalog_key interests)); [reflexivity|lia].
  - apply Forall2_length in H. rewrite <- H, L.
    destruct (length (filter is_catalog_key interests)) eqn:N; [|reflexivity].
    cbn [length] in L. lia.
Qed.

Lemma fallback_two_per_interest_witness : length game_paths = 2.
Proof.
  apply (fallback_two_per_interest [js "Game Development"] game_paths).
  - repeat constructor. intros [].
  - reflexivity.
Defined.

(** X8. With the entries of the Catalog as they are (each has at least four
    required skills), every record made from an entry has exactly three
    entries in its skill-gap report and three weak skills, fewer than its
    missing skills. *)
Theorem fallback_three_gaps (interests : list jsstring) (paths : list CareerPath) :
  fallbackSuggestions interests = Ret paths ->
  paths = [generic_path] \/
  Forall (fun r => length (skillGapReport r) = 3 /\
                   length (weakSkills r) = 3 /\
                   3 < length (missingSkills r)) paths.
Proof.
  intros H. apply fallbackSuggestions_returned in H.
  pose proof (first_seen_incl (candidates interests)) as Hincl.
  destruct (first_seen (candidates interests)) as [|c kept]; [left; exact H|].
  right. remember (c :: kept) as cs eqn:Ecs. clear Ecs.
  induction H as [|d r ds rs Hb _ IH]; constructor.
  - assert (In d (candidates interests)) as Hd by (apply Hincl; left; reflexivity).
    apply candidates_in in Hd as (_ & items & Hg & Hin).
    pose proof (catalog_owner _ _ _ Hg Hin) as (_ & _ & _ & L4).
    destruct Hb as (_ & _ & Hm & Hw & Hgap & _).
    assert (length (skillGapReport r) = 3) as L3.
    { rewrite <- (length_map skill), Hgap, length_firstn. lia. }
    repeat split.
    + exact L3.
    + now rewrite Hw, length_map.
    + rewrite Hm. lia.
  - apply IH. intros x Hx. apply Hincl. right. exact Hx.
Qed.

Lemma fallback_three_gaps_witness :
  game_paths = [generic_path] \/
  Forall (fun r => length (skillGapReport r) = 3 /\
                   length (weakSkills r) = 3 /\
                   3 < length (missingSkills r)) game_paths.
Proof.
  exact (fallback_three_gaps [js "Game Development"] game_paths eq_refl).
Defined.

(** *** The query of a course link *)

Lemma hex_digit_unreserved (d : N) :
  (d < 16)%N -> uri_unreserved (hex_digit d) = true.
Proof.
  intros H. assert (In d (map N.of_nat (seq 0 16))) as K.
  { apply in_map_iff. exists (N.to_nat d). split; [lia|].
    apply in_seq. lia. }
  simpl in K. repeat (destruct K as [<-|K]; [reflexivity|]). destruct K.
Qed.

Lemma percent_chars (octets : list N) :
  Forall (fun o => (o < 256)%N) octets ->
  Forall (fun c => uri_unreserved c = true \/ c = 37%N) (percent octets).
Proof.
  induction 1 as [|o l Ho _ IH]; [constructor|].
  unfold percent in *. cbn [flat_map app].
  constructor; [right; reflexivity|].
  constructor.
  { left. apply hex_digit_unreserved, N.Div0.div_lt_upper_bound. lia. }
  constructor; [|exact IH].
  left. apply hex_digit_unreserved, N.mod_lt. lia.
Qed.

Lemma utf8_octets (cp : N) :
  (cp < 1114112)%N -> Forall (fun o => (o < 256)%N) (utf8 cp).
Proof.
  intros H. unfold utf8.
  destruct (N.ltb_spec cp 128); [repeat constructor; lia|].
  destruct (N.ltb_spec cp 2048).
  { repeat constructor.
    - assert (cp / 64 < 32)%N by (apply N.Div0.div_lt_upper_bound; lia). lia.
    - assert (cp mod 64 < 64)%N by (apply N.mod_lt; lia). lia. }
  destruct (N.ltb_spec cp 65536).
  { repeat constructor.
    - assert (cp / 4096 < 16)%N by (apply N.Div0.div_lt_upper_bound; lia). lia.
    - assert ((cp / 64) mod 64 < 64)%N by (apply N.mod_lt; lia). lia.
    - assert (cp mod 64 < 64)%N by (apply N.mod_lt; lia). lia. }
  repeat constructor.
  - assert (cp / 262144 < 5)%N by (apply N.Div0.div_lt_upper_bound; lia). lia.
  - assert ((cp / 4096) mod 64 < 64)%N by (apply N.mod_lt; lia). lia.
  - assert ((cp / 64) mod 64 < 64)%N by (apply N.mod_lt; lia). lia.
  - assert (cp mod 64 < 64)%N by (apply N.mod_lt; lia). lia.
Qed.

Lemma encodeURIComponent_chars (s r : jsstring) :
  code_units s ->
  encodeURIComponent s = Ret r ->
  Forall (fun c => uri_unreserved c = true \/ c = 37%N) r.
Proof.
  remember (length s) as n eqn:Hn. revert s r Hn.
  induction n as [n IH] using lt_wf_ind; intros s r Hn Hcu.
  destruct s as [|c s]; cbn [encodeURIComponent].
  { intros H; injection H as <-. constructor. }
  inversion Hcu as [|x xs Hc Hs]; subst x xs. cbn [length] in Hn.
  destruct (uri_unreserved c) eqn:U.
  { destruct (encodeURIComponent s) as [rest|] eqn:E; [|discriminate].
    cbn [bind]. intros H; injection H as <-.
    constructor; [auto|]. eapply (IH (length s)); eauto. lia. }
  destruct (is_trail_surrogate c) eqn:T; [discriminate|].
  destruct (is_lead_surrogate c) eqn:L.
  - destruct s as [|d s']; [discriminate|].
    destruct (is_trail_surrogate d) eqn:Td; [|discriminate].
    destruct (encodeURIComponent s') as [rest|] eqn:E; [|discriminate].
    cbn [bind]. intros H; injection H as <-.
    inversion Hs as [|x xs Hd Hs']; subst x xs.
    apply Forall_app. split.
    + apply percent_chars, utf8_octets.
      unfold is_lead_surrogate, is_trail_surrogate, in_range in L, Td.
      apply andb_prop in L as [L1 L2]. apply andb_prop in Td as [T1 T2].
      apply N.leb_le in L1, L2, T1, T2. lia.
    + eapply (IH (length s')); eauto. cbn [length] in Hn. lia.
  - destruct (encodeURIComponent s) as [rest|] eqn:E; [|discriminate].
    cbn [bind]. intros H; injection H as <-.
    apply Forall_app. split.
    + apply percent_chars, utf8_octets. lia.
    + eapply (IH (length s)); eauto. lia.
Qed.

(** X9. Whatever the skill name, the query that [gap_entry] puts into the
    two course links has letters, digits, the marks [-_.!~*'()] and
    percent escapes only; no space, [#], [&], [+], [/], [=] or [?] of the
    skill name gets into a link. *)
Theorem course_link_query_safe (s : jsstring) (g : SkillGap) :
  code_units s ->
  gap_entry s = Ret g ->
  exists youtube coursera,
    map course_link (recommendedCourses g)
    = [ js "https://www.youtube.com/results?search_query=" ++ youtube;
        js "https://www.coursera.org/search?query=" ++ coursera ] /\
    Forall (fun c => uri_unreserved c = true \/ c = 37%N) (youtube ++ coursera) /\
    forall c, In c [32; 35; 38; 43; 47; 61; 63]%N -> ~ In c (youtube ++ coursera).
Proof.
  intros Hcu. unfold gap_entry.
  destruct (encodeURIComponent (s ++ js " tutorial")) as [yt|] eqn:E1;
    [|discriminate].
  destruct (encodeURIComponent s) as [co|] eqn:E2; [|discriminate].
  cbn [bind]. intros H; injection H as <-. cbn [recommendedCourses map course_link].
  exists yt, co. split; [reflexivity|].
  assert (Forall (fun c => uri_unreserved c = true \/ c = 37%N) (yt ++ co)) as F.
  { apply Forall_app. split.
    - apply (encodeURIComponent_chars _ _ ) with (2 := E1).
      apply Forall_app. split; [exact Hcu|]. repeat constructor.
    - exact (encodeURIComponent_chars _ _ Hcu E2). }
  split; [exact F|].
  intros c Hc Hin. rewrite Forall_forall in F. specialize (F _ Hin).
  simpl in Hc.
  repeat (destruct Hc as [<-|Hc]; [destruct F as [F|F]; discriminate F|]).
  destruct Hc.
Qed.

Lemma course_link_query_safe_witness :
  exists youtube coursera,
    map course_link
        [ {| course_title := js "C# or C++ Crash Course (YouTube)";
             course_link :=
               js "https://www.youtube.com/results?search_query=C%23%20or%20C%2B%2B%20tutorial" |};
          {| course_title := js "C# or C++ Specialization (Coursera)";
             course_link := js "https://www.coursera.org/search?query=C%23%20or%20C%2B%2B" |} ]
    = [ js "https://www.youtube.com/results?search_query=" ++ youtube;
        js "https://www.coursera.org/search?query=" ++ coursera ] /\
    Forall (fun c => uri_unreserved c = true \/ c = 37%N) (youtube ++ coursera) /\
    forall c, In c [32; 35; 38; 43; 47; 61; 63]%N -> ~ In c (youtube ++ coursera).
Proof.
  apply (course_link_query_safe (js "C# or C++")
           {| skill := js "C# or C++";
              yourLevel := Beginner;
              recommendedCourses :=
                [ {| course_title := js "C# or C++ Crash Course (YouTube)";
                     course_link :=
                       js "https://www.youtube.com/results?search_query=C%23%20or%20C%2B%2B%20tutorial" |};
                  {| course_title := js "C# or C++ Specialization (Coursera)";
                     course_link := js "https://www.coursera.org/search?query=C%23%20or%20C%2B%2B" |} ] |}).
  - repeat constructor.
  - vm_compute. reflexivity.
Defined.

(** *** When [fallbackSuggestions] throws *)

Lemma catalog_key_not_inherited (interest : jsstring) :
  obj_get catalog interest = Builtin <-> is_inherited interest = true.
Proof.
  unfold obj_get.
  destruct (own_get catalog interest) as [items|] eqn:E.
  - split; [discriminate|]. intros H. exfalso.
    apply own_get_In in E.
    assert (forallb (fun entry => negb (is_inherited (fst entry))) catalog = true)
      as K by (vm_compute; reflexivity).
    rewrite forallb_forall in K. specialize (K _ E). cbn [fst] in K.
    rewrite H in K. discriminate.
  - destruct (is_inherited interest); split; congruence.
Qed.

(** How a run of [fallbackSuggestions] ends. *)
Lemma fallbackSuggestions_outcome (interests : list jsstring) :
  match fallbackSuggestions interests with
  | Ret _ => Forall (fun i => is_inherited i = false) interests
  | Raise e => e = TypeError /\ Exists (fun i => is_inherited i = true) interests
  end.
Proof.
  destruct (Forall_Exists_dec (fun i => is_inherited i = false)
              (fun i => bool_dec (is_inherited i) false) interests) as [Hall|Hex].
  - destruct (fallbackSuggestions_total _ Hall) as [paths ->]. exact Hall.
  - assert (Exists (fun i => is_inherited i = true) interests) as Hex'.
    { eapply Exists_impl; [|exact Hex]. intros i. simpl.
      destruct (is_inherited i); congruence. }
    clear Hex. unfold fallbackSuggestions.
    generalize (@nil jsstring, @nil CareerPath).
    induction Hex' as [i l Hi|i l Hl IH]; intros st; cbn [for_of].
    + unfold visit_interest at 1.
      rewrite (proj2 (catalog_key_not_inherited i) Hi). cbn [bind].
      split; [reflexivity|]. left. exact Hi.
    + destruct (visit_interest st i) as [st1|e] eqn:E; cbn [bind].
      * specialize (IH st1).
        destruct (for_of l visit_interest st1) as [[seen paths]|e'];
          cbn [bind] in *.
        -- rewrite Forall_forall in IH. exfalso.
           apply Exists_exists in Hl as (j & Hj & Hjt).
           specialize (IH _ Hj). congruence.
        -- destruct IH as [-> IH]. split; [reflexivity|]. right. exact IH.
      * unfold visit_interest in E.
        destruct (obj_get catalog i) as [items| |] eqn:G.
        -- exfalso.
           assert (forall st0, exists st', for_of items (visit_item i) st0 = Ret st') as T.
           { assert (own_get catalog i = Some items) as Hg.
             { unfold obj_get in G. destruct (own_get catalog i); [congruence|].
               destruct (is_inherited i); discriminate. }
             assert (forall it, In it items ->
                      forallb no_surrogate (item_requiredSkills it) = true) as P
               by (intros; eapply catalog_item_plain; eauto).
             clear E G Hg. induction items as [|it items IHi]; intros st0;
               cbn [for_of]; [eauto|].
             destruct (visit_item_total i st0 it (P it (or_introl eq_refl)))
               as [st1 ->]. cbn [bind].
             apply IHi. intros; apply P; right; assumption. }
           destruct (T st) as [st' T']. congruence.
        -- injection E as <-. split; [reflexivity|]. left.
           apply catalog_key_not_inherited, G.
        -- discriminate.
Qed.

(** X10. [fallbackSuggestions] throws exactly when one of the interests is
    the name of a property that objects inherit ([constructor],
    [toString], [__proto__], ...), and what it throws is a [TypeError]; for
    all other interests it returns. *)
Theorem fallback_throws_iff (interests : list jsstring) :
  match fallbackSuggestions interests with
  | Ret _ => Forall (fun i => is_inherited i = false) interests
  | Raise e => e = TypeError /\ Exists (fun i => is_inherited i = true) interests
  end.
Proof. exact (fallbackSuggestions_outcome interests). Qed.

(** ** The flows and the results component *)

Lemma fallbackSuggestions_nonempty (interests : list jsstring) (paths : list CareerPath) :
  fallbackSuggestions interests = Ret paths -> paths <> [].
Proof.
  unfold fallbackSuggestions.
  destruct (for_of interests visit_interest ([], [])) as [[seen ps]|];
    [|discriminate].
  cbn [bind]. destruct ps; cbn [length Nat.ltb Nat.leb];
    intros H; injection H as <-; discriminate.
Qed.

(** The three ways in which a run of the first definition ends. *)
Lemma analyze_cases (max_spread : nat)
  (analyzeProfilePrompt : AnalyzeStudentProfileInput -> result value)
  (input : AnalyzeStudentProfileInput) :
  (exists output x l,
      analyzeProfilePrompt input = Ret output /\
      normalize max_spread output = Ret (x :: l) /\
      analyzeStudentProfileFlow max_spread analyzeProfilePrompt input
      = {| console := [];
           outcome := Ret {| suggestedCareerPaths := ModelPaths (x :: l);
                             resumeInsights := None |} |}) \/
  (exists output paths,
      analyzeProfilePrompt input = Ret output /\
      normalize max_spread output = Ret [] /\
      fallbackSuggestions (interests input) = Ret paths /\
      analyzeStudentProfileFlow max_spread analyzeProfilePrompt input
      = {| console := [];
           outcome := Ret {| suggestedCareerPaths := LocalPaths paths;
                             resumeInsights := Some empty_output_insights |} |}) \/
  (exists err,
      (analyzeProfilePrompt input = Raise err \/
       (exists output, analyzeProfilePrompt input = Ret output /\
                       normalize max_spread output = Raise err) \/
       (exists output, analyzeProfilePrompt input = Ret output /\
                       normalize max_spread output = Ret [] /\
                       fallbackSuggestions (interests input) = Raise err)) /\
      analyzeStudentProfileFlow max_spread analyzeProfilePrompt input
      = {| console := [err];
           outcome :=
             paths <- fallbackSuggestions (interests input) ;;
             Ret {| suggestedCareerPaths := LocalPaths paths;
                    resumeInsights := Some unavailable_insights |} |}).
Proof.
  unfold analyzeStudentProfileFlow.
  destruct (analyzeProfilePrompt input) as [output|err]; cbn [bind].
  - destruct (normalize max_spread output) as [normalized|err] eqn:Hn; cbn [bind].
    + destruct normalized as [|x l]; cbn [length Nat.eqb].
      * destruct (fallbackSuggestions (interests input)) as [paths|err] eqn:F;
          cbn [bind].
        -- right; left. exists output, paths. auto.
        -- right; right. exists err. split; [|reflexivity].
           right; right. exists output. auto.
      * left. exists output, x, l. auto.
    + right; right. exists err. split; [|reflexivity].
      right; left. exists output. auto.
  - right; right. exists err. split; [auto|reflexivity].
Qed.

(** X11. A result of the first definition of the flow never has an empty
    list of suggested paths, so the results component never shows its card
    without suggestions for it. *)
Theorem analyze_result_never_empty (max_spread : nat)
  (analyzeProfilePrompt : AnalyzeStudentProfileInput -> result value)
  (input : AnalyzeStudentProfileInput) (r : AnalyzeStudentProfileOutput) :
  outcome (analyzeStudentProfileFlow max_spread analyzeProfilePrompt input) = Ret r ->
  paths_length (suggestedCareerPaths r) <> 0 /\
  shows_no_suggestions (Some r) = false.
Proof.
  intros H.
  assert (paths_length (suggestedCareerPaths r) <> 0) as K.
  { destruct (analyze_cases max_spread analyzeProfilePrompt input)
      as [(output & x & l & _ & _ & E)|[(output & paths & _ & _ & F & E)|(err & _ & E)]];
      rewrite E in H; cbn [outcome] in H.
    - injection H as <-. discriminate.
    - injection H as <-. cbn. apply fallbackSuggestions_nonempty in F.
      destruct paths; [congruence|discriminate].
    - destruct (fallbackSuggestions (interests input)) as [paths|] eqn:F;
        [|discriminate].
      cbn [bind] in H. injection H as <-. cbn.
      apply fallbackSuggestions_nonempty in F.
      destruct paths; [congruence|discriminate]. }
  split; [exact K|]. cbn [shows_no_suggestions]. now apply Nat.eqb_neq.
Qed.

Lemma analyze_result_never_empty_witness :
  shows_no_suggestions
    (Some {| suggestedCareerPaths := LocalPaths game_paths;
             resumeInsights := Some empty_output_insights |}) = false.
Proof.
  refine (proj2 (analyze_result_never_empty 100
                   (fun _ => Ret (VString (js "no json")))
                   (sample_input [js "Game Development"])
                   {| suggestedCareerPaths := LocalPaths game_paths;
                      resumeInsights := Some empty_output_insights |} _)).
  vm_compute. reflexivity.
Defined.

(** X12. What a result of the first definition carries: either the
    normalized, non-empty output of the model and no [resumeInsights], or
    the output of [fallbackSuggestions] and one of the two fixed
    [resumeInsights]; insights that the model wrote are never passed on. *)
Theorem analyze_result_insights (max_spread : nat)
  (analyzeProfilePrompt : AnalyzeStudentProfileInput -> result value)
  (input : AnalyzeStudentProfileInput) (r : AnalyzeStudentProfileOutput) :
  outcome (analyzeStudentProfileFlow max_spread analyzeProfilePrompt input) = Ret r ->
  match suggestedCareerPaths r with
  | ModelPaths l =>
      resumeInsights r = None /\
      exists output, analyzeProfilePrompt input = Ret output /\
                     normalize max_spread output = Ret l
  | LocalPaths l =>
      fallbackSuggestions (interests input) = Ret l /\
      (resumeInsights r = Some empty_output_insights \/
       resumeInsights r = Some unavailable_insights)
  end.
Proof.
  intros H.
  destruct (analyze_cases max_spread analyzeProfilePrompt input)
    as [(output & x & l & P & N & E)|[(output & paths & _ & _ & F & E)|(err & _ & E)]];
    rewrite E in H; cbn [outcome] in H.
  - injection H as <-. cbn. split; [reflexivity|]. exists output. auto.
  - injection H as <-. cbn. auto.
  - destruct (fallbackSuggestions (interests input)) as [paths|] eqn:F;
      [|discriminate].
    cbn [bind] in H. injection H as <-. cbn. auto.
Qed.

Lemma analyze_result_insights_witness :
  fallbackSuggestions [js "Game Development"] = Ret game_paths /\
  (Some unavailable_insights = Some empty_output_insights \/
   Some unavailable_insights = Some unavailable_insights).
Proof.
  refine (analyze_result_insights 100
            (fun _ => Raise (ModelError (js "429 Too Many Requests")))
            (sample_input [js "Game Development"])
            {| suggestedCareerPaths := LocalPaths game_paths;
               resumeInsights := Some unavailable_insights |} _).
  vm_compute. reflexivity.
Defined.

(** X13. The first definition of the flow never passes an error of the
    model call on to its caller: when it throws at all, it throws the
    [TypeError] of [fallbackSuggestions], and one of the interests is the
    name of an inherited property. *)
Theorem analyze_error_is_fallback_error (max_spread : nat)
  (analyzeProfilePrompt : AnalyzeStudentProfileInput -> result value)
  (input : AnalyzeStudentProfileInput) (e : error) :
  outcome (analyzeStudentProfileFlow max_spread analyzeProfilePrompt input) = Raise e ->
  e = TypeError /\
  Exists (fun i => is_inherited i = true) (interests input).
Proof.
  intros H.
  destruct (analyze_cases max_spread analyzeProfilePrompt input)
    as [(output & x & l & _ & _ & E)|[(output & paths & _ & _ & _ & E)|(err & _ & E)]];
    rewrite E in H; cbn [outcome] in H; try discriminate.
  pose proof (fallbackSuggestions_outcome (interests input)) as O.
  destruct (fallbackSuggestions (interests input)) as [paths|e']; [discriminate|].
  cbn [bind] in H. injection H as <-. exact O.
Qed.

Lemma analyze_error_is_fallback_error_witness :
  TypeError = TypeError /\
  Exists (fun i => is_inherited i = true) [js "Web Development"; js "valueOf"].
Proof.
  refine (analyze_error_is_fallback_error 100
            (fun _ => Raise (ModelError (js "429 Too Many Requests")))
            (sample_input [js "Web Development"; js "valueOf"]) TypeError _).
  vm_compute. reflexivity.
Defined.

(** X14. The two definitions of the flow do the same whenever the model
    call returns and the normalized sequence is not empty. *)
Theorem flows_agree_on_model_paths (max_spread : nat)
  (analyzeProfilePrompt : AnalyzeStudentProfileInput -> result value)
  (input : AnalyzeStudentProfileInput) (output : value) (x : value) (l : list value) :
  analyzeProfilePrompt input = Ret output ->
  normalize max_spread output = Ret (x :: l) ->
  analyzeStudentProfileFlow max_spread analyzeProfilePrompt input
  = analyzeStudentProfileFlow_plain max_spread analyzeProfilePrompt input.
Proof.
  intros P N. unfold analyzeStudentProfileFlow, analyzeStudentProfileFlow_plain.
  rewrite P. cbn [bind]. rewrite N. reflexivity.
Qed.

Lemma flows_agree_on_model_paths_witness :
  analyzeStudentProfileFlow 100 (fun _ => Ret (VArray [VNull])) (sample_input [])
  = analyzeStudentProfileFlow_plain 100 (fun _ => Ret (VArray [VNull])) (sample_input []).
Proof.
  apply (flows_agree_on_model_paths 100 (fun _ => Ret (VArray [VNull])) (sample_input [])
           (VArray [VNull]) VNull []); reflexivity.
Defined.

(** The second definition of the flow throws exactly when the model call
    throws, or [normalize] after it, and it throws their error; otherwise
    it returns the normalized sequence, which may be empty, and the results
    component shows its card without suggestions exactly when it is. *)
Theorem analyze_plain_outcome (max_spread : nat)
  (analyzeProfilePrompt : AnalyzeStudentProfileInput -> result value)
  (input : AnalyzeStudentProfileInput) :
  match analyzeProfilePrompt input with
  | Raise err =>
      outcome (analyzeStudentProfileFlow_plain max_spread analyzeProfilePrompt input)
      = Raise err
  | Ret output =>
      match normalize max_spread output with
      | Raise err =>
          outcome (analyzeStudentProfileFlow_plain max_spread analyzeProfilePrompt input)
          = Raise err
      | Ret normalized =>
          exists r,
            outcome (analyzeStudentProfileFlow_plain max_spread analyzeProfilePrompt input)
            = Ret r /\
            suggestedCareerPaths r = ModelPaths normalized /\
            shows_no_suggestions (Some r) = (length normalized =? 0)%nat
      end
  end.
Proof.
  unfold analyzeStudentProfileFlow_plain. cbn [outcome].
  destruct (analyzeProfilePrompt input) as [output|err]; [|reflexivity].
  cbn [bind].
  destruct (normalize max_spread output) as [normalized|err]; [|reflexivity].
  cbn [bind]. eexists. repeat split.
Qed.

(** ** [sanitizeFileName]: what it keeps and what it yields *)

Lemma squeezed_replace (s : jsstring) :
  squeezed s = true -> replace_runs s = s.
Proof.
  induction s as [|c r IH]; [reflexivity|].
  rewrite replace_runs_cons. cbn [squeezed].
  intros H. apply andb_prop in H as [Hc Hr]. pose proof (IH Hr) as E.
  destruct (file_name_char c) eqn:C; [now rewrite E|].
  cbn [orb] in Hc. apply andb_prop in Hc as [Hu Hd].
  apply N.eqb_eq in Hu. subst c. f_equal.
  destruct r as [|d r']; [reflexivity|].
  cbn [skip_run]. rewrite Hd. f_equal.
  rewrite replace_runs_cons, Hd in E. now injection E.
Qed.

Lemma replace_runs_squeezed (s : jsstring) :
  squeezed (replace_runs s) = true /\
  squeezed (skip_run s) = true /\
  match skip_run s with
  | d :: _ => file_name_char d = true
  | [] => True
  end.
Proof.
  induction s as [|c r (IHr & IHs & IHh)]; [repeat split|].
  rewrite replace_runs_cons. cbn [skip_run].
  destruct (file_name_char c) eqn:C.
  - repeat split; try exact C; cbn [squeezed]; rewrite C, IHr; reflexivity.
  - repeat split; try assumption.
    cbn [squeezed]. rewrite N.eqb_refl, IHs.
    change (file_name_char 95%N) with false. cbn [orb andb].
    destruct (skip_run r); [reflexivity|]. now rewrite IHh.
Qed.

Lemma squeezed_firstn (n : nat) (s : jsstring) :
  squeezed s = true -> squeezed (firstn n s) = true.
Proof.
  revert n; induction s as [|c r IH]; intros [|n]; try reflexivity.
  cbn [squeezed firstn]. intros H. apply andb_prop in H as [Hc Hr].
  rewrite (IH n Hr), andb_true_r.
  destruct (file_name_char c); [reflexivity|].
  cbn [orb] in *. apply andb_prop in Hc as [-> Hd]. cbn [andb].
  destruct r as [|d r']; [destruct n; reflexivity|].
  destruct n; [reflexivity|exact Hd].
Qed.

(** X15. Sanitizing is idempotent: a sanitized name is left as it is. *)
Theorem sanitizeFileName_idempotent (name : jsstring) :
  sanitizeFileName (sanitizeFileName name) = sanitizeFileName name.
Proof.
  unfold sanitizeFileName.
  rewrite (squeezed_replace (firstn 100 (replace_runs name))).
  - rewrite firstn_firstn. reflexivity.
  - apply squeezed_firstn, replace_runs_squeezed.
Qed.

Lemma all_class_squeezed (name : jsstring) :
  forallb file_name_char name = true -> squeezed name = true.
Proof.
  induction name as [|c r IH]; [reflexivity|].
  cbn [forallb squeezed]. intros H. apply andb_prop in H as [-> Hr].
  now rewrite (IH Hr).
Qed.

(** X16. A name of at most 100 ASCII letters, digits and hyphens is its own
    sanitized name. *)
Theorem sanitizeFileName_keeps_plain_names (name : jsstring) :
  forallb file_name_char name = true ->
  length name <= 100 ->
  sanitizeFileName name = name.
Proof.
  intros Hc Hl. unfold sanitizeFileName.
  rewrite (squeezed_replace _ (all_class_squeezed _ Hc)).
  now apply firstn_all2.
Qed.

Lemma sanitizeFileName_keeps_plain_names_witness :
  sanitizeFileName (js "Full-Stack-Developer") = js "Full-Stack-Developer".
Proof.
  apply (sanitizeFileName_keeps_plain_names (js "Full-Stack-Developer")).
  - vm_compute. reflexivity.
  - simpl. lia.
Defined.

Lemma skip_run_none (name : jsstring) :
  forallb (fun c => negb (file_name_char c)) name = true -> skip_run name = [].
Proof.
  induction name as [|c r IH]; [reflexivity|].
  cbn [forallb skip_run]. intros H. apply andb_prop in H as [Hc Hr].
  apply negb_true_iff in Hc. now rewrite Hc, IH.
Qed.

(** X17. A name that is not empty and has no ASCII letter, digit or hyphen
    at all (a name in another script, say) is sanitized to a single
    underscore, so all such names get the same file name. *)
Theorem sanitizeFileName_no_plain_characters (name : jsstring) (path : PathNames) :
  name <> [] ->
  forallb (fun c => negb (file_name_char c)) name = true ->
  sanitizeFileName name = [95%N] /\
  (path_careerPath path = Some name ->
   pdf_file_name path = js "PathFinderAI___Report.pdf").
Proof.
  intros Hne Hall.
  assert (sanitizeFileName name = [95%N]) as E.
  { unfold sanitizeFileName. destruct name as [|c r]; [congruence|].
    rewrite replace_runs_cons. cbn [forallb] in Hall.
    apply andb_prop in Hall as [Hc Hr]. apply negb_true_iff in Hc.
    now rewrite Hc, (skip_run_none _ Hr). }
  split; [exact E|].
  intros Hp. unfold pdf_file_name, export_name, or_else. rewrite Hp.
  destruct (jsstring_eqb_spec name []) as [K|_]; [congruence|].
  now rewrite E.
Qed.

Lemma sanitizeFileName_no_plain_characters_witness :
  sanitizeFileName [25968; 25454; 31185; 23398; 23478]%N = [95%N].
Proof.
  refine (proj1 (sanitizeFileName_no_plain_characters
                   [25968; 25454; 31185; 23398; 23478]%N
                   {| path_careerPath := None; path_name := None |} _ _)).
  - discriminate.
  - vm_compute. reflexivity.
Defined.

Lemma replace_runs_length (s : jsstring) :
  length (replace_runs s) <= length s /\ length (skip_run s) <= length s.
Proof.
  induction s as [|c r [IHr IHs]]; [split; simpl; lia|].
  rewrite replace_runs_cons. cbn [skip_run].
  destruct (file_name_char c); cbn [length]; lia.
Qed.

Lemma squeezed_no_double (s a b : jsstring) :
  squeezed s = true -> s <> a ++ 95%N :: 95%N :: b.
Proof.
  revert s; induction a as [|x a IH]; intros s H E; subst s.
  - cbn [app squeezed] in H.
    change (file_name_char 95%N) with false in H. discriminate H.
  - cbn [app squeezed] in H. apply andb_prop in H as [_ H].
    exact (IH _ H eq_refl).
Qed.

Lemma export_name_nonempty (path : PathNames) : export_name path <> [].
Proof.
  unfold export_name, or_else.
  destruct (path_careerPath path) as [n|].
  - destruct (jsstring_eqb_spec n []) as [->|Hn]; [|exact Hn].
    destruct (path_name path) as [m|]; [|discriminate].
    destruct (jsstring_eqb_spec m []) as [->|Hm]; [discriminate|exact Hm].
  - destruct (path_name path) as [m|]; [|discriminate].
    destruct (jsstring_eqb_spec m []) as [->|Hm]; [discriminate|exact Hm].
Qed.

Lemma replace_runs_nonempty (s : jsstring) : s <> [] -> replace_runs s <> [].
Proof.
  destruct s as [|c r]; [congruence|]. intros _.
  rewrite replace_runs_cons. destruct (file_name_char c); discriminate.
Qed.

(** X18. The sanitized name is never longer than the name and never has two
    underscores in a row; the name of the exported file has between 25 and
    124 characters, all of them ASCII letters, digits, hyphens, underscores
    or the dot of the extension, so it has no path separator. *)
Theorem pdf_file_name_safe (path : PathNames) (name : jsstring) :
  length (sanitizeFileName name) <= length name /\
  (forall a b, sanitizeFileName name <> a ++ 95%N :: 95%N :: b) /\
  25 <= length (pdf_file_name path) <= 124 /\
  Forall (fun c => is_alpha c || is_digit c || N.eqb c 45 || N.eqb c 95 || N.eqb c 46
                   = true)
         (pdf_file_name path).
Proof.
  split.
  { unfold sanitizeFileName. rewrite length_firstn.
    pose proof (proj1 (replace_runs_length name)). lia. }
  split.
  { intros a b. apply squeezed_no_double.
    unfold sanitizeFileName. apply squeezed_firstn, replace_runs_squeezed. }
  split.
  { unfold pdf_file_name. rewrite !length_app.
    change (length (js "PathFinderAI_")) with 13.
    change (length (js "_Report.pdf")) with 11.
    unfold sanitizeFileName. rewrite length_firstn.
    pose proof (replace_runs_nonempty _ (export_name_nonempty path)) as Hne.
    destruct (replace_runs (export_name path)); [congruence|].
    cbn [length]. lia. }
  unfold pdf_file_name. rewrite !Forall_app. repeat split.
  - apply Forall_forall. intros c Hc. simpl in Hc.
    repeat (destruct Hc as [<-|Hc]; [reflexivity|]). destruct Hc.
  - unfold sanitizeFileName. apply Forall_firstn.
    eapply Forall_impl; [|exact (proj1 (replace_runs_chars (export_name path)))].
    intros c [Hc|Hc].
    + unfold file_name_char in Hc. now rewrite Hc.
    + subst c. reflexivity.
  - apply Forall_forall. intros c Hc. simpl in Hc.
    repeat (destruct Hc as [<-|Hc]; [reflexivity|]). destruct Hc.
Qed.

(** ** [handleDownloadPathPdf] *)

Lemma triple_ret {A} (P : pdf_state -> Prop) (a : A)
  (Q : A -> pdf_state -> Prop) (R : pdf_state -> Prop) :
  (forall st, P st -> Q a st) -> triple P (pdf_ret a) Q R.
Proof. intros H st Hst. exact (H st Hst). Qed.

Lemma triple_bind {A B} (P : pdf_state -> Prop) (m : pdf A) (k : A -> pdf B)
  (Q : A -> pdf_state -> Prop) (Q' : B -> pdf_state -> Prop)
  (R : pdf_state -> Prop) :
  triple P m Q R -> (forall a, triple (Q a) (k a) Q' R) ->
  triple P (pdf_bind m k) Q' R.
Proof.
  intros Hm Hk st Hst. unfold pdf_bind. specialize (Hm st Hst).
  destruct (m st) as [st' [a|e]]; [|exact Hm].
  exact (Hk a st' Hm).
Qed.

Lemma triple_consequence {A} (P P' : pdf_state -> Prop) (m : pdf A)
  (Q Q' : A -> pdf_state -> Prop) (R R' : pdf_state -> Prop) :
  triple P m Q R ->
  (forall st, P' st -> P st) ->
  (forall a st, Q a st -> Q' a st) ->
  (forall st, R st -> R' st) ->
  triple P' m Q' R'.
Proof.
  intros Hm HP HQ HR st Hst. specialize (Hm st (HP st Hst)).
  destruct (m st) as [st' [a|e]]; auto.
Qed.

Lemma triple_for {A} (P R : pdf_state -> Prop) (xs : list A) (body : A -> pdf unit) :
  (forall x, In x xs -> triple P (body x) (fun _ => P) R) ->
  triple P (pdf_for xs body) (fun _ => P) R.
Proof.
  induction xs as [|x xs IH]; intros H; cbn [pdf_for].
  - apply triple_ret. auto.
  - eapply triple_bind; [apply H; left; reflexivity|].
    intros u. apply IH. intros; apply H; right; assumption.
Qed.

Lemma triple_if {A} (b : bool) (P : pdf_state -> Prop) (m1 m2 : pdf A)
  (Q : A -> pdf_state -> Prop) (R : pdf_state -> Prop) :
  triple P m1 Q R -> triple P m2 Q R -> triple P (if b then m1 else m2) Q R.
Proof. destruct b; auto. Qed.

Lemma replace_own_other {A} (props : list (jsstring * A)) (k k' : jsstring) (a : A) :
  k' <> k -> own_get (replace_own props k a) k' = own_get props k'.
Proof.
  intros Hk. induction props as [|[k0 a0] props IH]; [reflexivity|].
  cbn [replace_own]. destruct (jsstring_eqb_spec k k0) as [E|Hk0]; cbn [own_get].
  - subst k0. now rewrite (proj2 (jsstring_eqb_neq k' k) Hk).
  - now rewrite IH.
Qed.

Section PdfProperties.

Variable toLowerCase : jsstring -> jsstring.
Variable number_to_string : number -> jsstring.
Variable function_to_string : jsstring -> jsstring.
Variable splitTextToSize : jsstring -> Z -> list jsstring.
Variable import_jspdf : result unit.
Variable Rp : value -> Prop.

(** Steps that leave the document and the cursor as they are. *)

Lemma path_get_framed (P : list pdf_op -> Z -> Prop) (k : jsstring) :
  triple (framed Rp P) (path_get k) (fun _ => framed Rp P) (framed Rp P).
Proof. intros st Hst. unfold path_get. destruct (get (st_path st) k); auto. Qed.

Lemma lift_framed {A} (P : list pdf_op -> Z -> Prop) (r : result A) :
  triple (framed Rp P) (pdf_lift r) (fun _ => framed Rp P) (framed Rp P).
Proof. intros st Hst. unfold pdf_lift. destruct r; auto. Qed.

Lemma ret_framed {A} (P : list pdf_op -> Z -> Prop) (a : A) :
  triple (framed Rp P) (pdf_ret a) (fun _ => framed Rp P) (framed Rp P).
Proof. apply triple_ret. auto. Qed.

Lemma writing_stopped (st : pdf_state) : writing Rp st -> stopped Rp st.
Proof. intros [[H1 _] H2]. split; assumption. Qed.

Lemma writing_at_stopped (y0 : Z) (st : pdf_state) :
  writing_at Rp y0 st -> stopped Rp st.
Proof. intros [[H1 _] H2]. split; assumption. Qed.

Lemma writing_at_writing (y0 : Z) (st : pdf_state) :
  (20 <= y0)%Z -> writing_at Rp y0 st -> writing Rp st.
Proof. intros Hy [[H1 E] H2]. repeat split; try assumption. lia. Qed.

(** A step that keeps a frame, as a step of the writing. *)
Lemma framed_writing {A} (m : pdf A) :
  (forall P, triple (framed Rp P) m (fun _ => framed Rp P) (framed Rp P)) ->
  triple (writing Rp) m (fun _ => writing Rp) (stopped Rp).
Proof.
  intros H.
  apply (triple_consequence _ _ _ _ _ _ _
           (H (fun doc y => Forall laid_out doc /\ (20 <= y)%Z))); auto.
  apply writing_stopped.
Qed.

Lemma framed_writing_at {A} (y0 : Z) (m : pdf A) :
  (forall P, triple (framed Rp P) m (fun _ => framed Rp P) (framed Rp P)) ->
  triple (writing_at Rp y0) m (fun _ => writing_at Rp y0) (stopped Rp).
Proof.
  intros H.
  apply (triple_consequence _ _ _ _ _ _ _
           (H (fun doc y => Forall laid_out doc /\ y = y0))); auto.
  apply writing_at_stopped.
Qed.

(** The steps that write. *)

Lemma write_lines_writing (text : result jsstring) :
  triple (writing Rp) (write_lines splitTextToSize text)
         (fun _ => writing Rp) (stopped Rp).
Proof.
  intros st [[Hdoc Hy] Hag].
  unfold write_lines, pdf_bind, pdf_lift, pdf_ret, get_y, set_y, call.
  destruct text as [t|e]; [|split; assumption].
  set (h := (Z.of_nat (length (splitTextToSize t 180)) * 7)%Z).
  assert (0 <= h)%Z as Hh by (unfold h; lia).
  destruct (Z.ltb_spec 280 (st_y st + h)) as [Hlt|Hge];
    cbn [st_doc st_y st_path]; unfold writing, framed; cbn [st_doc st_y st_path];
    (split; [split; [|lia]|exact Hag]);
    rewrite ?Forall_app; repeat split; try exact Hdoc;
    repeat (apply Forall_cons || apply Forall_nil);
    unfold laid_out; cbn [op_in_page is_save]; fold h;
    repeat split; try lia; solve [right; lia | left; lia].
Qed.

Lemma write_heading_writing (title : jsstring) :
  triple (writing Rp) (write_heading title)
         (fun _ => writing Rp) (stopped Rp).
Proof.
  intros st [[Hdoc Hy] Hag].
  unfold write_heading, pdf_bind, pdf_ret, get_y, set_y, call.
  destruct (Z.ltb_spec 280 (st_y st + 14)) as [Hlt|Hge];
    cbn [st_doc st_y st_path]; unfold writing, framed; cbn [st_doc st_y st_path];
    (split; [split; [|lia]|exact Hag]);
    rewrite ?Forall_app; repeat split; try exact Hdoc;
    repeat (apply Forall_cons || apply Forall_nil);
    unfold laid_out; cbn [op_in_page is_save];
    repeat split; lia.
Qed.

(** The two lines that are written without a test of the cursor. *)
Lemma write_at_cursor {A} (text : jsstring) (y0 : Z) (k : pdf A)
  (Q : A -> pdf_state -> Prop) (R : pdf_state -> Prop) :
  (20 <= y0 <= 280)%Z ->
  triple (writing_at Rp (y0 + 8)) k Q R ->
  triple (writing_at Rp y0)
         (y <~ get_y ;; call (TextString text 14 y) ;;; set_y (y + 8) ;;; k)%pdf
         Q R.
Proof.
  intros Hy0 Hk st [[Hdoc E] Hag].
  unfold pdf_bind at 1 2 3. unfold get_y, set_y, call. cbn [st_doc st_y st_path].
  apply Hk. unfold writing_at, framed. cbn [st_doc st_y st_path].
  repeat split; try assumption; try lia.
  apply Forall_app. split; [assumption|].
  repeat (apply Forall_cons || apply Forall_nil).
  unfold laid_out; cbn [op_in_page is_save]. repeat split; lia.
Qed.

Lemma bulleted_writing (items : list value) :
  triple (writing Rp)
         (bulleted number_to_string function_to_string splitTextToSize items)
         (fun _ => writing Rp) (stopped Rp).
Proof.
  unfold bulleted. apply triple_for. intros x _. apply write_lines_writing.
Qed.

Lemma write_at_cursor_last (text : jsstring) (y0 : Z) :
  (20 <= y0 <= 280)%Z ->
  triple (writing_at Rp y0)
         (y <~ get_y ;; call (TextString text 14 y) ;;; set_y (y + 8))%pdf
         (fun _ => writing Rp) (stopped Rp).
Proof.
  intros Hy0 st [[Hdoc E] Hag].
  unfold pdf_bind, get_y, set_y, call. cbn [st_doc st_y st_path].
  unfold writing, framed. cbn [st_doc st_y st_path].
  repeat split; try assumption; try lia.
  apply Forall_app. split; [assumption|].
  repeat (apply Forall_cons || apply Forall_nil).
  unfold laid_out; cbn [op_in_page is_save]. repeat split; lia.
Qed.

Lemma write_title_writing :
  triple (stopped Rp)
         (write_title number_to_string function_to_string)
         (fun _ => writing_at Rp 30) (stopped Rp).
Proof.
  unfold write_title.
  eapply triple_bind; [apply path_get_framed|]. intros careerPath.
  eapply triple_bind; [apply path_get_framed|]. intros name.
  eapply triple_bind; [apply lift_framed|]. intros title.
  intros st [Hdoc Hag].
  unfold pdf_bind, set_y, call. cbn [st_doc st_y st_path].
  unfold writing_at, framed. cbn [st_doc st_y st_path].
  repeat split; try assumption.
  rewrite !Forall_app. repeat split; try assumption;
    repeat (apply Forall_cons || apply Forall_nil);
    unfold laid_out; cbn [op_in_page is_save]; repeat split; lia.
Qed.

Lemma missing_skills_section_writing :
  triple (writing Rp)
         (missing_skills_section number_to_string function_to_string splitTextToSize)
         (fun _ => writing Rp) (stopped Rp).
Proof.
  unfold missing_skills_section.
  eapply triple_bind.
  { apply framed_writing. intros P. apply path_get_framed. }
  intros own. eapply triple_bind.
  { apply triple_if; [apply write_heading_writing|].
    apply framed_writing. intros P. apply ret_framed. }
  intros u. apply bulleted_writing.
Qed.

Lemma courses_section_writing :
  triple (writing Rp)
         (courses_section number_to_string function_to_string splitTextToSize)
         (fun _ => writing Rp) (stopped Rp).
Proof.
  unfold courses_section.
  eapply triple_bind.
  { apply framed_writing. intros P. apply path_get_framed. }
  intros report. apply triple_if.
  2: { apply framed_writing. intros P. apply ret_framed. }
  eapply triple_bind; [apply write_heading_writing|]. intros u.
  apply triple_for. intros gap _.
  eapply triple_bind; [apply write_lines_writing|]. intros u1.
  eapply triple_bind.
  { apply framed_writing. intros P. apply lift_framed. }
  intros courses. apply triple_if.
  - apply triple_for. intros c _. apply write_lines_writing.
  - apply framed_writing. intros P. apply ret_framed.
Qed.

Lemma projects_section_writing :
  triple (writing Rp)
         (projects_section number_to_string function_to_string splitTextToSize)
         (fun _ => writing Rp) (stopped Rp).
Proof.
  unfold projects_section.
  eapply triple_bind.
  { apply framed_writing. intros P. apply path_get_framed. }
  intros own. apply triple_if.
  2: { apply framed_writing. intros P. apply ret_framed. }
  eapply triple_bind; [apply write_heading_writing|]. intros u.
  apply triple_for. intros p _.
  eapply triple_bind; [apply write_lines_writing|]. intros u1.
  eapply triple_bind.
  { apply framed_writing. intros P. apply lift_framed. }
  intros description. eapply triple_bind.
  { apply triple_if; [apply write_lines_writing|].
    apply framed_writing. intros P. apply ret_framed. }
  intros u2. eapply triple_bind.
  { apply framed_writing. intros P. apply lift_framed. }
  intros link. apply triple_if; [apply write_lines_writing|].
  apply framed_writing. intros P. apply ret_framed.
Qed.

Lemma roadmap_section_writing :
  triple (writing Rp)
         (roadmap_section number_to_string function_to_string splitTextToSize)
         (fun _ => writing Rp) (stopped Rp).
Proof.
  unfold roadmap_section.
  eapply triple_bind.
  { apply framed_writing. intros P. apply path_get_framed. }
  intros own. apply triple_if.
  2: { apply framed_writing. intros P. apply ret_framed. }
  eapply triple_bind; [apply write_heading_writing|]. intros u.
  apply triple_for. intros r _.
  eapply triple_bind; [apply write_lines_writing|]. intros u1.
  eapply triple_bind.
  { apply framed_writing. intros P. apply lift_framed. }
  intros own_steps. apply triple_if.
  - apply triple_for. intros s _. apply write_lines_writing.
  - apply framed_writing. intros P. apply ret_framed.
Qed.

(** The name that the document is saved under is the one of
    [pdf_file_name], on what [path] has as [careerPath] and [name]. *)
Lemma sanitize_any_names (p : value) (careerPath name : rvalue) (s : jsstring) :
  get p (js "careerPath") = Ret careerPath ->
  get p (js "name") = Ret name ->
  sanitize_any (or_r careerPath (or_r name (RVal (VString (js "Career_Path"))))) = Ret s ->
  js "PathFinderAI_" ++ s ++ js "_Report.pdf" = pdf_file_name (names_of p).
Proof.
  intros Hc Hn. unfold pdf_file_name, export_name, names_of, string_property.
  cbn [path_careerPath path_name]. rewrite Hc, Hn.
  unfold or_r, or_else, sanitize_any.
  destruct careerPath as [[| | | | | |]|]; cbn [truthy_r truthy];
    try discriminate;
    try (destruct b; try discriminate);
    try (destruct (negb (N.eqb (num_digits n) 0)); try discriminate);
    try (destruct (jsstring_eqb s0 []);
         cbn [negb]; [|intros H; injection H as <-; reflexivity]);
    destruct name as [[| | | | | |]|]; cbn [truthy_r truthy];
    try discriminate;
    try (intros H; injection H as <-; reflexivity);
    try (destruct b; try discriminate; intros H; injection H as <-; reflexivity);
    try (destruct b0; try discriminate; intros H; injection H as <-; reflexivity);
    try (destruct (negb (N.eqb (num_digits n) 0)); try discriminate;
         intros H; injection H as <-; reflexivity);
    try (destruct (negb (N.eqb (num_digits n0) 0)); try discriminate;
         intros H; injection H as <-; reflexivity);
    try (destruct (jsstring_eqb s0 []); cbn [negb];
         intros H; injection H as <-; reflexivity);
    try (destruct (jsstring_eqb s1 []); cbn [negb];
         intros H; injection H as <-; reflexivity).
Qed.

End PdfProperties.

Lemma own_get_replace_same {A} (props : list (jsstring * A)) (k : jsstring) (a b : A) :
  own_get props k = Some a -> own_get (replace_own props k b) k = Some b.
Proof.
  induction props as [|[k0 a0] props IH]; cbn [own_get replace_own]; [discriminate|].
  destruct (jsstring_eqb k k0) eqn:E; cbn [own_get]; rewrite E; auto.
Qed.

Lemma framed_weaken (Rp Rq : value -> Prop) (P : list pdf_op -> Z -> Prop)
  (st : pdf_state) :
  (forall q, Rp q -> Rq q) -> framed Rp P st -> framed Rq P st.
Proof. intros H [HP HR]. split; auto. Qed.

Lemma fill_when_empty_exact (P : list pdf_op -> Z -> Prop) (k : jsstring)
  (loop : list value -> pushes) (p : value) (own : rvalue) :
  get p k = Ret own ->
  triple (framed (eq p) P) (fill_when_empty k own loop)
         (fun _ => framed (eq (filled k loop p)) P)
         (framed (eq (filled k loop p)) P).
Proof.
  intros Hown st [HP Ep]. subst p.
  unfold fill_when_empty, filled, pdf_bind, path_get, pdf_ret, pdf_lift,
    path_put_array. cbn beta.
  rewrite Hown.
  destruct (get (st_path st) (js "skillGapReport")) as [report|e];
    [|split; [exact HP|reflexivity]].
  destruct ((length (array_or_empty own) =? 0)%nat) eqn:L; cbn [andb];
    [|split; [exact HP|reflexivity]].
  destruct (is_array_r report); cbn [andb];
    [|split; [exact HP|reflexivity]].
  destruct (loop (array_or_empty report)) as [pushed r]. cbn [fst].
  assert (array_or_empty own ++ pushed = pushed) as ->.
  { destruct (array_or_empty own); [reflexivity|discriminate]. }
  destruct (is_array_r own) eqn:Ha.
  - assert (st_path
              {| st_path :=
                   match st_path st with
                   | VObject props =>
                       match own_get props k with
                       | Some (VArray _) => VObject (replace_own props k (VArray pushed))
                       | _ => st_path st
                       end
                   | other => other
                   end;
                 st_doc := st_doc st; st_y := st_y st |}
            = match st_path st with
              | VObject props => VObject (replace_own props k (VArray pushed))
              | _ => st_path st
              end) as E.
    { cbn [st_path]. destruct (st_path st) as [| | | | | |props]; try reflexivity.
      cbn [get] in Hown. injection Hown as Hown. unfold obj_get in Hown.
      destruct (own_get props k) as [[]|];
        try reflexivity; subst own; try discriminate Ha.
      destruct (is_inherited k); discriminate Ha. }
    destruct r; (split; [exact HP|symmetry; exact E]).
  - destruct r; (split; [exact HP|reflexivity]).
Qed.

Lemma filled_get_other (k k' : jsstring) (loop : list value -> pushes) (p : value) :
  k' <> k -> get (filled k loop p) k' = get p k'.
Proof.
  intros Hk. unfold filled.
  destruct (get p k) as [own|]; [|reflexivity].
  destruct (get p (js "skillGapReport")) as [report|]; [|reflexivity].
  destruct ((length (array_or_empty own) =? 0)%nat && is_array_r report
            && is_array_r own); [|reflexivity].
  destruct p; try reflexivity.
  cbn [get]. unfold obj_get. now rewrite replace_own_other.
Qed.

Lemma filled_unchanged (k : jsstring) (loop : list value -> pushes) (p : value) :
  get p k <> Ret (RVal (VArray [])) -> filled k loop p = p.
Proof.
  intros H. unfold filled.
  destruct (get p k) as [own|]; [|reflexivity].
  destruct (get p (js "skillGapReport")) as [report|]; [|reflexivity].
  destruct own as [[| | | | |[|x xs]|]|]; cbn [array_or_empty length Nat.eqb andb
    is_array_r]; try reflexivity; try (destruct (is_array_r report); reflexivity).
  congruence.
Qed.

(** The skill that the first loop pushes for an entry of the report. *)
Lemma push_gap_skills_pushed (gaps : list value) :
  push_gap_skills gaps
  = (flat_map
       (fun gap =>
          match gap with
          | VObject props =>
              match own_get props (js "skill") with
              | Some v => if truthy v then [v] else []
              | None => []
              end
          | _ => []
          end) gaps,
     Ret tt).
Proof.
  induction gaps as [|gap gaps IH]; [reflexivity|].
  cbn [push_gap_skills flat_map]. rewrite IH.
  destruct gap; cbn [get_opt get truthy_r truthy plain app]; try reflexivity.
  unfold obj_get. destruct (own_get props (js "skill")) as [v|].
  - cbn [truthy_r plain]. destruct (truthy v); reflexivity.
  - change (is_inherited (js "skill")) with false. reflexivity.
Qed.

Lemma triple_for_stops {A} (P R : pdf_state -> Prop) (xs : list A)
  (body : A -> pdf unit) (x : A) :
  In x xs ->
  (forall y, In y xs -> triple P (body y) (fun _ => P) R) ->
  triple P (body x) (fun _ _ => False) R ->
  triple P (pdf_for xs body) (fun _ _ => False) R.
Proof.
  intros Hin Hall Hx. induction xs as [|y xs IH]; [destruct Hin|].
  cbn [pdf_for]. destruct Hin as [->|Hin].
  - eapply triple_bind; [exact Hx|]. intros u st [].
  - eapply triple_bind; [apply Hall; left; reflexivity|].
    intros u. apply IH; [exact Hin|].
    intros; apply Hall; right; assumption.
Qed.

Lemma path_get_exact {B} (P : list pdf_op -> Z -> Prop) (p : value) (k : jsstring)
  (f : rvalue -> pdf B) (Q : B -> pdf_state -> Prop) (R : pdf_state -> Prop) :
  (forall own, get p k = Ret own -> triple (framed (eq p) P) (f own) Q R) ->
  (forall st, framed (eq p) P st -> R st) ->
  triple (framed (eq p) P) (pdf_bind (path_get k) f) Q R.
Proof.
  intros Hf HR st Hst. unfold pdf_bind, path_get. cbn beta.
  assert (st_path st = p) as Ep by (symmetry; apply Hst). rewrite Ep.
  destruct (get p k) as [own|e] eqn:Hown; [|exact (HR st Hst)].
  exact (Hf own eq_refl st Hst).
Qed.

Section PdfRun.

Variable toLowerCase : jsstring -> jsstring.
Variable number_to_string : number -> jsstring.
Variable function_to_string : jsstring -> jsstring.
Variable splitTextToSize : jsstring -> Z -> list jsstring.
Variable import_jspdf : result unit.
Variable path : value.



Lemma stopped_somewhere (q : value) (st : pdf_state) :
  (stage toLowerCase path) q -> stopped (eq q) st -> stopped (stage toLowerCase path) st.
Proof. intros Hq. apply framed_weaken. intros q' <-. exact Hq. Qed.

(** A section that does not push, at a stage of the argument. *)
Lemma section_at {A} (q : value) (m : pdf A) :
  (stage toLowerCase path) q ->
  triple (writing (eq q)) m (fun _ => writing (eq q)) (stopped (eq q)) ->
  triple (writing (eq q)) m (fun _ => writing (eq q)) (stopped (stage toLowerCase path)).
Proof.
  intros Hq H.
  apply (triple_consequence _ _ _ _ _ _ _ H); auto.
  intros st. apply stopped_somewhere, Hq.
Qed.

Lemma required_skills_section_exact :
  triple (writing_at (eq path) 30)
         (required_skills_section number_to_string function_to_string splitTextToSize)
         (fun _ => writing (eq (required_filled path))) (stopped (stage toLowerCase path)).
Proof.
  unfold required_skills_section, writing_at.
  apply path_get_exact.
  2: { intros st Hst. apply (stopped_somewhere path); [left; reflexivity|].
       exact (writing_at_stopped _ _ _ Hst). }
  intros own Hown.
  apply (write_at_cursor (eq path)); [lia|]. change (30 + 8)%Z with 38%Z.
  eapply triple_bind.
  { apply (triple_consequence _ _ _ _ _ _ _
             (fill_when_empty_exact
                (fun doc y => Forall laid_out doc /\ y = 38%Z)
                (js "requiredSkills") push_gap_skills path own Hown)
             (fun st H => H) (fun a st H => H)).
    intros st Hst. apply (stopped_somewhere (required_filled path)); [right; left; reflexivity|].
    exact (writing_at_stopped _ _ _ Hst). }
  intros skills. apply triple_if.
  - apply (triple_consequence _ _ _ _ _ _ _
             (write_at_cursor_last (eq (required_filled path)) (bullet ++ js "N/A") 38 ltac:(lia)));
      auto.
    intros st. apply stopped_somewhere. right; left; reflexivity.
  - apply (triple_consequence _ _ _ _ _ _ _
             (bulleted_writing number_to_string function_to_string splitTextToSize
                (eq (required_filled path)) skills)); auto.
    + intros st. apply writing_at_writing. lia.
    + intros st. apply stopped_somewhere. right; left; reflexivity.
Qed.

Lemma weak_skills_section_exact :
  triple (writing (eq (required_filled path)))
         (weak_skills_section toLowerCase number_to_string function_to_string
            splitTextToSize)
         (fun _ => writing (eq (weak_filled toLowerCase path))) (stopped (stage toLowerCase path)).
Proof.
  unfold weak_skills_section, writing.
  apply path_get_exact.
  2: { intros st Hst. apply (stopped_somewhere (required_filled path)); [right; left; reflexivity|].
       exact (writing_stopped _ _ Hst). }
  intros own Hown.
  eapply triple_bind.
  { apply (triple_consequence _ _ _ _ _ _ _
             (fill_when_empty_exact
                (fun doc y => Forall laid_out doc /\ (20 <= y)%Z)
                (js "weakSkills") (push_beginner_skills toLowerCase) (required_filled path) own Hown)
             (fun st H => H) (fun a st H => H)).
    intros st Hst. apply (stopped_somewhere (weak_filled toLowerCase path)); [right; right; reflexivity|].
    exact (writing_stopped _ _ Hst). }
  intros weak. apply section_at; [right; right; reflexivity|].
  eapply triple_bind.
  { apply triple_if; [apply write_heading_writing|].
    apply framed_writing. intros P. apply ret_framed. }
  intros u. apply bulleted_writing.
Qed.

Lemma save_document_exact :
  triple (writing (eq (weak_filled toLowerCase path)))
         (save_document)
         (fun _ st =>
            exists ops,
              st_doc st = ops ++ [Save (pdf_file_name (names_of (weak_filled toLowerCase path)))] /\
              Forall laid_out ops /\ st_path st = (weak_filled toLowerCase path))
         (stopped (stage toLowerCase path)).
Proof.
  unfold save_document, writing.
  apply path_get_exact.
  2: { intros st Hst. apply (stopped_somewhere (weak_filled toLowerCase path)); [right; right; reflexivity|].
       exact (writing_stopped _ _ Hst). }
  intros careerPath Hc. apply path_get_exact.
  2: { intros st Hst. apply (stopped_somewhere (weak_filled toLowerCase path)); [right; right; reflexivity|].
       exact (writing_stopped _ _ Hst). }
  intros name Hn st Hst.
  unfold pdf_bind, pdf_lift, call.
  destruct (sanitize_any
              (or_r careerPath (or_r name (RVal (VString (js "Career_Path"))))))
    as [s|e] eqn:S.
  - cbn [st_doc st_path]. exists (st_doc st).
    rewrite (sanitize_any_names (weak_filled toLowerCase path) careerPath name s Hc Hn S).
    destruct Hst as [[Hdoc _] Ep]. auto.
  - apply (stopped_somewhere (weak_filled toLowerCase path)); [right; right; reflexivity|].
    exact (writing_stopped _ _ Hst).
Qed.

(** The [try] block up to the second loop, and what follows it. *)
Lemma generate_pdf_from_start {A} (rest : pdf A)
  (Q : A -> pdf_state -> Prop) (R : pdf_state -> Prop) :
  triple (writing (eq (weak_filled toLowerCase path))) rest Q R ->
  (forall st, stopped (stage toLowerCase path) st -> R st) ->
  triple (fun st => st_doc st = [] /\ st_path st = path)
         (pdf_lift import_jspdf ;;;
          write_title number_to_string function_to_string ;;;
          required_skills_section number_to_string function_to_string splitTextToSize ;;;
          missing_skills_section number_to_string function_to_string splitTextToSize ;;;
          weak_skills_section toLowerCase number_to_string function_to_string
            splitTextToSize ;;;
          rest)%pdf
         Q R.
Proof.
  intros Hrest HR.
  assert (forall B (m : pdf B) P Q0,
             triple P m Q0 (stopped (stage toLowerCase path)) -> triple P m Q0 R) as W.
  { intros B m P Q0 H. apply (triple_consequence _ _ _ _ _ _ _ H); auto. }
  eapply triple_bind.
  { apply W.
    apply (triple_consequence _ _ _ _ _ _ _
             (lift_framed (eq path) (fun doc _ => Forall laid_out doc) import_jspdf)).
    - intros st [Hdoc Hp]. split; [rewrite Hdoc; constructor|auto].
    - intros a st H. exact H.
    - intros st. apply (stopped_somewhere path). left; reflexivity. }
  intros u0. eapply triple_bind.
  { apply W.
    apply (triple_consequence _ _ _ _ _ _ _
             (write_title_writing number_to_string function_to_string (eq path))).
    - intros st H. exact H.
    - intros a st H. exact H.
    - intros st. apply (stopped_somewhere path). left; reflexivity. }
  intros u1. eapply triple_bind; [apply W, required_skills_section_exact|].
  intros u2. eapply triple_bind.
  { apply W. apply section_at; [right; left; reflexivity|].
    apply missing_skills_section_writing. }
  intros u3. eapply triple_bind; [apply W, weak_skills_section_exact|].
  intros u4. exact Hrest.
Qed.

Lemma generate_pdf_run :
  triple (fun st => st_doc st = [] /\ st_path st = path)
         (generate_pdf toLowerCase number_to_string function_to_string
            splitTextToSize import_jspdf)
         (fun _ st =>
            exists ops,
              st_doc st = ops ++ [Save (pdf_file_name (names_of (weak_filled toLowerCase path)))] /\
              Forall laid_out ops /\ st_path st = (weak_filled toLowerCase path))
         (stopped (stage toLowerCase path)).
Proof.
  unfold generate_pdf. apply generate_pdf_from_start; [|auto].
  eapply triple_bind.
  { apply section_at; [right; right; reflexivity|]. apply courses_section_writing. }
  intros u5. eapply triple_bind.
  { apply section_at; [right; right; reflexivity|]. apply projects_section_writing. }
  intros u6. eapply triple_bind.
  { apply section_at; [right; right; reflexivity|]. apply roadmap_section_writing. }
  intros u7. apply save_document_exact.
Qed.

Lemma names_of_path2 : names_of (weak_filled toLowerCase path) = names_of path.
Proof.
  unfold names_of, string_property, weak_filled, required_filled.
  rewrite !filled_get_other; (reflexivity || (vm_compute; discriminate)).
Qed.

Lemma laid_out_in_page (ops : list pdf_op) :
  Forall laid_out ops ->
  Forall op_in_page ops /\ Forall (fun op => is_save op = false) ops.
Proof.
  intros H. split; eapply Forall_impl; try exact H; intros op [H1 H2]; assumption.
Qed.

(** X19. Whatever the path and however jsPDF splits the texts, every text
    of the document is put at the left margin (x = 14) with the cursor
    between the top margin (20) and the bottom margin (280), and every
    block of lines either ends above the bottom margin or starts at the
    top of a page. *)
Theorem pdf_text_in_page :
  Forall op_in_page
    (document (handleDownloadPathPdf toLowerCase number_to_string function_to_string
                 splitTextToSize import_jspdf path)).
Proof.
  unfold handleDownloadPathPdf.
  pose proof (generate_pdf_run {| st_path := path; st_doc := []; st_y := 0 |}
                (conj eq_refl eq_refl)) as H.
  destruct (generate_pdf toLowerCase number_to_string function_to_string
              splitTextToSize import_jspdf
              {| st_path := path; st_doc := []; st_y := 0 |}) as [st [u|e]];
    cbn [document].
  - destruct H as (ops & -> & Hops & _).
    apply Forall_app. split; [apply laid_out_in_page, Hops|].
    repeat constructor.
  - apply laid_out_in_page, H.
Qed.

(** X20. The document is saved exactly when the toast tells that the PDF
    was downloaded: then the save is the last call, the only save, and its
    file name is the one of [pdf_file_name]; when the toast tells of a
    failure, nothing was saved and the error was logged. *)
Theorem pdf_saved_iff_downloaded :
  let run := handleDownloadPathPdf toLowerCase number_to_string function_to_string
               splitTextToSize import_jspdf path in
  match toast run with
  | PdfDownloaded =>
      (exists ops,
          document run = ops ++ [Save (pdf_file_name (names_of path))] /\
          Forall (fun op => is_save op = false) ops) /\
      logged run = None
  | PdfFailed =>
      Forall (fun op => is_save op = false) (document run) /\
      logged run <> None
  end.
Proof.
  cbv zeta. unfold handleDownloadPathPdf.
  pose proof (generate_pdf_run {| st_path := path; st_doc := []; st_y := 0 |}
                (conj eq_refl eq_refl)) as H.
  destruct (generate_pdf toLowerCase number_to_string function_to_string
              splitTextToSize import_jspdf
              {| st_path := path; st_doc := []; st_y := 0 |}) as [st [u|e]];
    cbn [document toast logged].
  - destruct H as (ops & E & Hops & _). split; [|reflexivity].
    exists ops. split; [|apply laid_out_in_page, Hops].
    rewrite E, names_of_path2. reflexivity.
  - split; [apply laid_out_in_page, H|discriminate].
Qed.

Lemma agrees_path1 : agrees path (required_filled path).
Proof. intros k H1 H2. unfold required_filled. now rewrite filled_get_other. Qed.

Lemma agrees_path2 : agrees path (weak_filled toLowerCase path).
Proof.
  intros k H1 H2. unfold weak_filled. rewrite filled_get_other by exact H2.
  now apply agrees_path1.
Qed.

(** The stages of the argument. *)
Lemma pdf_path_after_stages :
  let run := handleDownloadPathPdf toLowerCase number_to_string function_to_string
               splitTextToSize import_jspdf path in
  match toast run with
  | PdfDownloaded =>
      path_after run
      = filled (js "weakSkills") (push_beginner_skills toLowerCase)
          (filled (js "requiredSkills") push_gap_skills path)
  | PdfFailed =>
      path_after run = path \/
      path_after run = filled (js "requiredSkills") push_gap_skills path \/
      path_after run
      = filled (js "weakSkills") (push_beginner_skills toLowerCase)
          (filled (js "requiredSkills") push_gap_skills path)
  end /\
  agrees path (path_after run).
Proof.
  cbv zeta. unfold handleDownloadPathPdf.
  pose proof (generate_pdf_run {| st_path := path; st_doc := []; st_y := 0 |}
                (conj eq_refl eq_refl)) as H.
  destruct (generate_pdf toLowerCase number_to_string function_to_string
              splitTextToSize import_jspdf
              {| st_path := path; st_doc := []; st_y := 0 |}) as [st [u|e]];
    cbn [path_after toast].
  - destruct H as (ops & _ & _ & ->). split; [reflexivity|apply agrees_path2].
  - destruct H as [_ H]. split; [exact H|].
    destruct H as [->|[->| ->]];
      [intros k _ _; reflexivity|apply agrees_path1|apply agrees_path2].
Qed.

(** X21. What the call does to its argument: the two loops push onto the
    arrays [requiredSkills] and [weakSkills] of [path] itself when these
    are empty arrays; when the PDF was downloaded both loops have run, and
    when it failed, none, one or both have.  Every other property of
    [path] reads as before. *)
Theorem pdf_path_after :
  let run := handleDownloadPathPdf toLowerCase number_to_string function_to_string
               splitTextToSize import_jspdf path in
  match toast run with
  | PdfDownloaded =>
      path_after run
      = filled (js "weakSkills") (push_beginner_skills toLowerCase)
          (filled (js "requiredSkills") push_gap_skills path)
  | PdfFailed =>
      path_after run = path \/
      path_after run = filled (js "requiredSkills") push_gap_skills path \/
      path_after run
      = filled (js "weakSkills") (push_beginner_skills toLowerCase)
          (filled (js "requiredSkills") push_gap_skills path)
  end /\
  agrees path (path_after run).
Proof. exact pdf_path_after_stages. Qed.

(** X22. A path whose [requiredSkills] and [weakSkills] are not empty
    arrays (they are missing, no arrays, or arrays with elements, as in
    every record of [fallbackSuggestions]) is left as it is. *)
Theorem pdf_leaves_path :
  get path (js "requiredSkills") <> Ret (RVal (VArray [])) ->
  get path (js "weakSkills") <> Ret (RVal (VArray [])) ->
  path_after (handleDownloadPathPdf toLowerCase number_to_string function_to_string
                splitTextToSize import_jspdf path) = path.
Proof.
  intros H1 H2.
  assert ((required_filled path) = path) as E1 by (apply filled_unchanged, H1).
  assert ((weak_filled toLowerCase path) = path) as E2.
  { unfold weak_filled. rewrite E1. apply filled_unchanged, H2. }
  unfold handleDownloadPathPdf.
  pose proof (generate_pdf_run {| st_path := path; st_doc := []; st_y := 0 |}
                (conj eq_refl eq_refl)) as H.
  destruct (generate_pdf toLowerCase number_to_string function_to_string
              splitTextToSize import_jspdf
              {| st_path := path; st_doc := []; st_y := 0 |}) as [st [u|e]];
    cbn [path_after].
  - destruct H as (ops & _ & _ & ->). exact E2.
  - destruct H as [_ [->|[->| ->]]]; auto.
Qed.

(** X23. When the PDF of a path was downloaded whose [requiredSkills] was
    an empty array and whose [skillGapReport] was an array, the array
    [requiredSkills] of the path has become the list of the truthy [skill]
    values of the entries of the report. *)
Theorem pdf_fills_required_skills (props : list (jsstring * value))
  (gaps : list value) :
  path = VObject props ->
  own_get props (js "requiredSkills") = Some (VArray []) ->
  own_get props (js "skillGapReport") = Some (VArray gaps) ->
  toast (handleDownloadPathPdf toLowerCase number_to_string function_to_string
           splitTextToSize import_jspdf path) = PdfDownloaded ->
  get (path_after (handleDownloadPathPdf toLowerCase number_to_string
                     function_to_string splitTextToSize import_jspdf path))
      (js "requiredSkills")
  = Ret (RVal (VArray
                 (flat_map
                    (fun gap =>
                       match gap with
                       | VObject fields =>
                           match own_get fields (js "skill") with
                           | Some v => if truthy v then [v] else []
                           | None => []
                           end
                       | _ => []
                       end) gaps))).
Proof.
  intros Ep Hreq Hrep Htoast.
  pose proof (proj1 pdf_path_after_stages) as Hstages. cbv zeta in Hstages.
  rewrite Htoast in Hstages. rewrite Hstages.
  rewrite filled_get_other by (vm_compute; discriminate).
  rewrite Ep. unfold filled. cbn [get]. unfold obj_get. rewrite Hreq, Hrep.
  cbn [array_or_empty length Nat.eqb is_array_r andb get].
  unfold obj_get. rewrite (own_get_replace_same _ _ _ _ Hreq).
  now rewrite push_gap_skills_pushed.
Qed.

Lemma relax {A} (q : value) (m : pdf A) :
  triple (writing (eq q)) m (fun _ => writing (eq q)) (stopped (eq q)) ->
  triple (writing (eq q)) m (fun _ => writing (eq q)) (fun _ => True).
Proof. intros H. apply (triple_consequence _ _ _ _ _ _ _ H); auto. Qed.

Lemma courses_section_stops (q : value) (gaps : list value) :
  get q (js "skillGapReport") = Ret (RVal (VArray gaps)) ->
  In VNull gaps ->
  triple (writing (eq q))
         (courses_section number_to_string function_to_string splitTextToSize)
         (fun _ _ => False) (fun _ => True).
Proof.
  intros Hrep Hin. unfold courses_section, writing.
  apply path_get_exact; [|auto].
  intros report Hreport. rewrite Hrep in Hreport. injection Hreport as <-.
  cbn [array_or_empty is_array_r andb].
  destruct gaps as [|g gaps']; [destruct Hin|].
  cbn [length Nat.ltb Nat.leb].
  eapply triple_bind; [apply relax, write_heading_writing|].
  intros u.
  apply (triple_for_stops _ _ _ _ VNull); [exact Hin| |].
  - intros gap _.
    eapply triple_bind; [apply relax, write_lines_writing|].
    intros u1. eapply triple_bind.
    { apply relax, framed_writing. intros P. apply lift_framed. }
    intros courses. apply triple_if.
    + apply relax, triple_for. intros c _. apply write_lines_writing.
    + apply relax, framed_writing. intros P. apply ret_framed.
  - intros st _. unfold pdf_bind, write_lines, pdf_lift. exact I.
Qed.

(** X24. A skill-gap report with a [null] entry makes the export fail:
    the loop of the first section skips such an entry, the section of the
    recommended courses reads its [skill] and throws. *)
Theorem pdf_null_gap_fails (gaps : list value) :
  get path (js "skillGapReport") = Ret (RVal (VArray gaps)) ->
  In VNull gaps ->
  toast (handleDownloadPathPdf toLowerCase number_to_string function_to_string
           splitTextToSize import_jspdf path) = PdfFailed.
Proof.
  intros Hrep Hin. unfold handleDownloadPathPdf.
  assert (get (weak_filled toLowerCase path) (js "skillGapReport") = Ret (RVal (VArray gaps))) as Hrep2.
  { unfold weak_filled, required_filled.
    rewrite !filled_get_other by (vm_compute; discriminate). exact Hrep. }
  assert (triple (fun st => st_doc st = [] /\ st_path st = path)
            (generate_pdf toLowerCase number_to_string function_to_string
               splitTextToSize import_jspdf)
            (fun _ _ => False) (fun _ => True)) as H.
  { unfold generate_pdf. apply generate_pdf_from_start; [|auto].
    eapply triple_bind; [exact (courses_section_stops (weak_filled toLowerCase path) gaps Hrep2 Hin)|].
    intros u st []. }
  specialize (H {| st_path := path; st_doc := []; st_y := 0 |} (conj eq_refl eq_refl)).
  destruct (generate_pdf toLowerCase number_to_string function_to_string
              splitTextToSize import_jspdf
              {| st_path := path; st_doc := []; st_y := 0 |}) as [st [u|e]];
    [destruct H|reflexivity].
Qed.

End PdfRun.

Lemma pdf_leaves_path_witness :
  let path := VObject [ (js "careerPath", VString (js "Data Analyst"));
                        (js "requiredSkills", VArray [VString (js "SQL")]) ] in
  path_after (handleDownloadPathPdf (fun s => s) (fun _ => js "0") (fun _ => js "f")
                (fun t _ => [t]) (Ret tt) path) = path.
Proof.
  apply (pdf_leaves_path (fun s => s) (fun _ => js "0") (fun _ => js "f")
           (fun t _ => [t]) (Ret tt)
           (VObject [ (js "careerPath", VString (js "Data Analyst"));
                      (js "requiredSkills", VArray [VString (js "SQL")]) ]));
    vm_compute; discriminate.
Defined.

Lemma pdf_fills_required_skills_witness :
  let path := VObject [ (js "careerPath", VString (js "Data Analyst"));
                        (js "requiredSkills", VArray []);
                        (js "skillGapReport",
                         VArray [ VObject [(js "skill", VString (js "SQL"))];
                                  VObject [(js "skill", VString [])];
                                  VObject [(js "skill", VString (js "Excel"))] ]) ] in
  get (path_after (handleDownloadPathPdf (fun s => s) (fun _ => js "0")
                     (fun _ => js "f") (fun t _ => [t]) (Ret tt) path))
      (js "requiredSkills")
  = Ret (RVal (VArray [VString (js "SQL"); VString (js "Excel")])).
Proof.
  apply (pdf_fills_required_skills (fun s => s) (fun _ => js "0") (fun _ => js "f")
           (fun t _ => [t]) (Ret tt)
           (VObject [ (js "careerPath", VString (js "Data Analyst"));
                      (js "requiredSkills", VArray []);
                      (js "skillGapReport",
                       VArray [ VObject [(js "skill", VString (js "SQL"))];
                                VObject [(js "skill", VString [])];
                                VObject [(js "skill", VString (js "Excel"))] ]) ])
           [ (js "careerPath", VString (js "Data Analyst"));
             (js "requiredSkills", VArray []);
             (js "skillGapReport",
              VArray [ VObject [(js "skill", VString (js "SQL"))];
                       VObject [(js "skill", VString [])];
                       VObject [(js "skill", VString (js "Excel"))] ]) ]
           [ VObject [(js "skill", VString (js "SQL"))];
             VObject [(js "skill", VString [])];
             VObject [(js "skill", VString (js "Excel"))] ]);
    vm_compute; reflexivity.
Defined.

Lemma pdf_null_gap_fails_witness :
  toast (handleDownloadPathPdf (fun s => s) (fun _ => js "0") (fun _ => js "f")
           (fun t _ => [t]) (Ret tt)
           (VObject [ (js "careerPath", VString (js "Data Analyst"));
                      (js "skillGapReport",
                       VArray [VObject [(js "skill", VString (js "SQL"))]; VNull]) ]))
  = PdfFailed.
Proof.
  apply (pdf_null_gap_fails (fun s => s) (fun _ => js "0") (fun _ => js "f")
           (fun t _ => [t]) (Ret tt)
           (VObject [ (js "careerPath", VString (js "Data Analyst"));
                      (js "skillGapReport",
                       VArray [VObject [(js "skill", VString (js "SQL"))]; VNull]) ])
           [VObject [(js "skill", VString (js "SQL"))]; VNull]).
  - vm_compute. reflexivity.
  - simpl. auto.
Defined.
